(** * eHook: capture, storage and viewing of webhook events

    A shallow embedding of the capture route
    ([app/api/webhook/[uuid]/route.ts]), the server actions
    ([app/actions/settings.ts], [app/actions/webhook.ts]) and the log
    handling of the viewer ([app/components/inbox.tsx]), together with the
    properties the specification states about them.

    Layout: JavaScript strings and values; the Redis commands the code
    issues; a state-and-exception monad for the server code; the server
    functions; the viewer; then the theorems. *)

From Stdlib Require Import ZArith List String Ascii Bool Lia Permutation.
From stdpp Require Import base option list sorting strings gmap.

Set Warnings "-register-all".

Local Open Scope string_scope.
Local Open Scope Z_scope.

(** ** JavaScript strings

    A string is the sequence of its code units, each of them below 256
    ([String.string]): the characters of Latin-1, one per code unit.
    Letter case and white space are those JavaScript gives these
    characters.  The methods below are the ones the source calls. *)
Module JsString.

(** [s.includes(pat)] *)
Fixpoint includes (s pat : string) : bool :=
  String.prefix pat s ||
  match s with
  | EmptyString => false
  | String _ s' => includes s' pat
  end.

(** [s.startsWith(pat)] *)
Definition startsWith (s pat : string) : bool := String.prefix pat s.

(** The lower case of a character: the letters [A]-[Z] (65-90) and the
    capital letters of Latin-1, U+00C0-U+00D6 and U+00D8-U+00DE (192-214
    and 216-222), are moved 32 up to their small letters; every other
    character below 256 is its own lower case. *)
Definition lower_char (c : ascii) : ascii :=
  let n := nat_of_ascii c in
  if ((65 <=? n)%nat && (n <=? 90)%nat)%bool
     || ((192 <=? n)%nat && (n <=? 214)%nat)%bool
     || ((216 <=? n)%nat && (n <=? 222)%nat)%bool
  then ascii_of_nat (n + 32) else c.

(** [s.toLowerCase()] *)
Fixpoint toLowerCase (s : string) : string :=
  match s with
  | EmptyString => EmptyString
  | String c s' => String (lower_char c) (toLowerCase s')
  end.

(** White space as [trim] sees it: the white space and the line
    terminators of JavaScript below 256, which are tab, line feed,
    vertical tab, form feed, carriage return (9-13), space (32) and the
    no-break space U+00A0 (160). *)
Definition is_white (c : ascii) : bool :=
  let n := nat_of_ascii c in
  ((9 <=? n)%nat && (n <=? 13)%nat)%bool || (n =? 32)%nat || (n =? 160)%nat.

Fixpoint trimStart (s : string) : string :=
  match s with
  | EmptyString => EmptyString
  | String c s' => if is_white c then trimStart s' else s
  end.

Fixpoint trimEnd (s : string) : string :=
  match s with
  | EmptyString => EmptyString
  | String c s' =>
      match trimEnd s' with
      | EmptyString => if is_white c then EmptyString else String c EmptyString
      | t => String c t
      end
  end.

(** [s.trim()] *)
Definition trim (s : string) : string := trimEnd (trimStart s).

(** Byte-lowercasing, which is how header names are compared: only the
    letters [A]-[Z] are moved. *)
Definition byte_lower_char (c : ascii) : ascii :=
  let n := nat_of_ascii c in
  if ((65 <=? n)%nat && (n <=? 90)%nat)%bool then ascii_of_nat (n + 32) else c.

Fixpoint byte_lowercase (s : string) : string :=
  match s with
  | EmptyString => EmptyString
  | String c s' => String (byte_lower_char c) (byte_lowercase s')
  end.

(** Truthiness of a string: only the empty string is falsy. *)
Definition nonempty (s : string) : bool :=
  match s with EmptyString => false | _ => true end.

(** What [includes] decides: [pat] occurs in [s]. *)
Definition occurs_in (pat s : string) : Prop :=
  exists pre post, s = pre ++ pat ++ post.

(** What [startsWith] decides. *)
Definition is_prefix_of (pat s : string) : Prop :=
  exists post, s = pat ++ post.

(** Every character is white space. *)
Fixpoint all_white (s : string) : Prop :=
  match s with
  | EmptyString => True
  | String c s' => is_white c = true /\ all_white s'
  end.

End JsString.

(** ** JavaScript values

    The values that cross the code are JSON values: they are read from and
    written to the store as JSON text.  Numbers are integers (time stamps,
    status codes, counts).  An object is its list of own properties in
    enumeration order. *)
Module Json.

Inductive json : Type :=
  | JNull
  | JBool (b : bool)
  | JNum (n : Z)
  | JStr (s : string)
  | JArr (items : list json)
  | JObj (props : list (string * json)).

(** A value or [undefined]. *)
Definition jsval : Type := option json.
Definition undefined : jsval := None.

(** [if (v)]: [null], [false], [0] and the empty string are falsy. *)
Definition truthy (v : json) : bool :=
  match v with
  | JNull => false
  | JBool b => b
  | JNum n => negb (n =? 0)
  | JStr s => JsString.nonempty s
  | JArr _ | JObj _ => true
  end.

(** [v === s] for a string [s]. *)
Definition strict_eq_string (v : jsval) (s : string) : bool :=
  match v with
  | Some (JStr t) => String.eqb t s
  | _ => false
  end.

(** Look a key up in a property list. *)
Fixpoint assoc {A : Type} (k : string) (props : list (string * A)) : option A :=
  match props with
  | [] => None
  | (k', v) :: rest => if String.eqb k' k then Some v else assoc k rest
  end.

(** Property keys that are array indices (the decimal text of an integer
    from 0 to 2^32 - 2, without leading zero) are enumerated first, in
    ascending order; the other keys follow in the order of their creation. *)
Definition is_digit (c : ascii) : bool :=
  let n := nat_of_ascii c in ((48 <=? n) && (n <=? 57))%nat.

Fixpoint digits_value (acc : Z) (s : string) : option Z :=
  match s with
  | EmptyString => Some acc
  | String c r =>
      if is_digit c
      then digits_value (10 * acc + Z.of_nat (nat_of_ascii c - 48)) r
      else None
  end.

Definition array_index (k : string) : option Z :=
  match k with
  | EmptyString => None
  | String c r =>
      if (nat_of_ascii c =? 48)%nat && JsString.nonempty r then None
      else
        match digits_value 0 k with
        | Some n => if n <=? 4294967294 then Some n else None
        | None => None
        end
  end.

(** A new key [k] is enumerated before the existing key [k']. *)
Definition goes_before (k k' : string) : bool :=
  match array_index k, array_index k' with
  | Some n, Some n' => n <? n'
  | Some _, None => true
  | None, _ => false
  end.

(** Defining the property [k] with value [v]: an existing property keeps
    its place, a new one takes its place in the enumeration order. *)
Fixpoint obj_set {A : Type} (k : string) (v : A) (props : list (string * A))
  : list (string * A) :=
  match props with
  | [] => [(k, v)]
  | (k', v') :: rest =>
      if String.eqb k' k then (k, v) :: rest
      else if goes_before k k' then (k, v) :: (k', v') :: rest
      else (k', v') :: obj_set k v rest
  end.

(** Defining a sequence of entries in order, as [Object.fromEntries] and
    object spread do. *)
Definition obj_assign {A : Type} (target : list (string * A))
    (entries : list (string * A)) : list (string * A) :=
  fold_left (fun o kv => obj_set (fst kv) (snd kv) o) entries target.

Definition fromEntries {A : Type} (entries : list (string * A))
  : list (string * A) :=
  obj_assign [] entries.

(** [entries.forEach((value, key) => { o[key] = value })] on an object
    literal [o], for string values: assigning a string to [__proto__]
    changes nothing, every other key is defined. *)
Definition assign_each {A : Type} (target : list (string * A))
    (entries : list (string * A)) : list (string * A) :=
  obj_assign target
    (List.filter (fun kv => negb (String.eqb (fst kv) "__proto__")) entries).

(** [v.name] for a value that is neither [null] nor [undefined], and for a
    name that no built-in prototype defines: only objects answer. *)
Definition get_prop (v : json) (name : string) : jsval :=
  match v with
  | JObj props => assoc name props
  | _ => undefined
  end.

(** Decimal digits of a non-negative integer, most significant first. *)
Definition digit_char (d : Z) : ascii := ascii_of_nat (48 + Z.to_nat d).

Fixpoint digits (fuel : nat) (n : Z) (acc : string) : string :=
  match fuel with
  | O => acc
  | S fuel' =>
      let acc' := String (digit_char (n mod 10)) acc in
      if n <? 10 then acc' else digits fuel' (n / 10) acc'
  end.

(** [String(n)] for an integer. *)
Definition string_of_Z (n : Z) : string :=
  if n <? 0
  then String "-" (digits (S (Z.to_nat (Z.log2 (- n)))) (- n) EmptyString)
  else digits (S (Z.to_nat (Z.log2 n))) n EmptyString.

Definition string_of_nat (n : nat) : string := string_of_Z (Z.of_nat n).

(** The own enumerable properties that [{...v}] copies: those of an
    object, the indexed elements of an array, the indexed characters of a
    string, nothing for the rest. *)
Fixpoint indexed {A : Type} (i : nat) (l : list A) : list (string * A) :=
  match l with
  | [] => []
  | x :: l' => (string_of_nat i, x) :: indexed (S i) l'
  end.

Fixpoint chars (s : string) : list json :=
  match s with
  | EmptyString => []
  | String c s' => JStr (String c EmptyString) :: chars s'
  end.

Definition spread_props (v : jsval) : list (string * json) :=
  match v with
  | Some (JObj props) => props
  | Some (JArr items) => indexed 0 items
  | Some (JStr s) => indexed 0 (chars s)
  | _ => []
  end.

(** [String(v)], the conversion [JSON.parse] applies to its argument. *)
Fixpoint to_String (v : json) : string :=
  match v with
  | JNull => "null"
  | JBool true => "true"
  | JBool false => "false"
  | JNum n => string_of_Z n
  | JStr s => s
  | JArr items =>
      String.concat ","
        (map (fun x => match x with JNull => EmptyString | _ => to_String x end) items)
  | JObj _ => "[object Object]"
  end.

Definition jsval_to_String (v : jsval) : string :=
  match v with
  | Some x => to_String x
  | None => "undefined"
  end.

End Json.
Export Json.

(** ** The platform

    [JSON.parse], [JSON.stringify], the body reader [request.formData()]
    and the reading of a text as a number belong to the JavaScript
    runtime.  The server code is written against this interface; [None]
    stands for a thrown exception. *)
Class Runtime : Type := {
  JSON_parse : string -> option json;
  JSON_stringify : json -> string;
  (** [formData content_type payload]: the fields of a form body. *)
  formData : string -> string -> option (list (string * string));
  (** [string_to_unsigned_short text]: the text converted to the
      [unsigned short] of a Web IDL dictionary: the number it reads as,
      without its fraction, modulo 65536, and 0 when it reads as no
      number. *)
  string_to_unsigned_short : string -> Z
}.

(** A reference implementation of the interface, used to run the model on
    the scenarios of the specification.  It covers JSON with integer
    numbers and 8-bit characters. *)
Module JsonRef.

Definition hex_digit (n : nat) : ascii :=
  if (n <? 10)%nat then ascii_of_nat (48 + n) else ascii_of_nat (87 + n).

(** Quote a string as [JSON.stringify] does. *)
Fixpoint escape (s : string) : string :=
  match s with
  | EmptyString => EmptyString
  | String c s' =>
      let n := nat_of_ascii c in
      let rest := escape s' in
      if (n =? 34)%nat then String "\" (String c rest)
      else if (n =? 92)%nat then String "\" (String "\" rest)
      else if (n =? 8)%nat then String "\" (String "b" rest)
      else if (n =? 9)%nat then String "\" (String "t" rest)
      else if (n =? 10)%nat then String "\" (String "n" rest)
      else if (n =? 12)%nat then String "\" (String "f" rest)
      else if (n =? 13)%nat then String "\" (String "r" rest)
      else if (n <? 32)%nat then
        String "\" (String "u" (String "0" (String "0"
          (String (hex_digit (n / 16)) (String (hex_digit (n mod 16)) rest)))))
      else String c rest
  end.

Definition dquote : ascii := "034"%char.

Definition quote (s : string) : string :=
  String dquote (escape s ++ String dquote EmptyString).

Fixpoint stringify (v : json) : string :=
  match v with
  | JNull => "null"
  | JBool true => "true"
  | JBool false => "false"
  | JNum n => string_of_Z n
  | JStr s => quote s
  | JArr items => "[" ++ String.concat "," (map stringify items) ++ "]"
  | JObj props =>
      "{" ++ String.concat ","
               (map (fun kv => quote (fst kv) ++ ":" ++ stringify (snd kv)) props)
          ++ "}"
  end.

(** The parser: recursive descent, with fuel for the nesting. *)
Definition is_json_white (c : ascii) : bool :=
  let n := nat_of_ascii c in
  (n =? 32)%nat || (n =? 9)%nat || (n =? 10)%nat || (n =? 13)%nat.

Fixpoint skip_white (s : string) : string :=
  match s with
  | EmptyString => EmptyString
  | String c s' => if is_json_white c then skip_white s' else s
  end.

Definition hex_value (c : ascii) : option nat :=
  let n := nat_of_ascii c in
  if ((48 <=? n) && (n <=? 57))%nat then Some (n - 48)%nat
  else if ((97 <=? n) && (n <=? 102))%nat then Some (n - 87)%nat
  else if ((65 <=? n) && (n <=? 70))%nat then Some (n - 55)%nat
  else None.

Definition simple_escape (c : ascii) : option ascii :=
  let n := nat_of_ascii c in
  if (n =? 34)%nat then Some c
  else if (n =? 92)%nat then Some c
  else if (n =? 47)%nat then Some c
  else if (n =? 98)%nat then Some (ascii_of_nat 8)
  else if (n =? 102)%nat then Some (ascii_of_nat 12)
  else if (n =? 110)%nat then Some (ascii_of_nat 10)
  else if (n =? 114)%nat then Some (ascii_of_nat 13)
  else if (n =? 116)%nat then Some (ascii_of_nat 9)
  else None.

(** The characters of a string literal after its opening quote. *)
Fixpoint parse_chars (s : string) : option (string * string) :=
  match s with
  | EmptyString => None
  | String c r =>
      let n := nat_of_ascii c in
      if (n =? 34)%nat then Some (EmptyString, r)
      else if (n =? 92)%nat then
        match r with
        | EmptyString => None
        | String e r1 =>
            if (nat_of_ascii e =? 117)%nat then
              match r1 with
              | String h1 (String h2 (String h3 (String h4 r2))) =>
                  match hex_value h1, hex_value h2, hex_value h3, hex_value h4 with
                  | Some 0%nat, Some 0%nat, Some a, Some b =>
                      match parse_chars r2 with
                      | Some (t, rest) =>
                          Some (String (ascii_of_nat (16 * a + b)) t, rest)
                      | None => None
                      end
                  | _, _, _, _ => None
                  end
              | _ => None
              end
            else
              match simple_escape e with
              | Some c' =>
                  match parse_chars r1 with
                  | Some (t, rest) => Some (String c' t, rest)
                  | None => None
                  end
              | None => None
              end
        end
      else if (n <? 32)%nat then None
      else
        match parse_chars r with
        | Some (t, rest) => Some (String c t, rest)
        | None => None
        end
  end.

Fixpoint parse_digits (acc : Z) (s : string) : Z * string :=
  match s with
  | EmptyString => (acc, EmptyString)
  | String c r =>
      if is_digit c
      then parse_digits (10 * acc + Z.of_nat (nat_of_ascii c - 48)) r
      else (acc, s)
  end.

(** An integer literal: no leading zero, no fraction, no exponent. *)
Definition parse_nat (s : string) : option (Z * string) :=
  match s with
  | String c r =>
      if is_digit c then
        let '(n, rest) := parse_digits 0 s in
        let leading_zero :=
          (nat_of_ascii c =? 48)%nat &&
          match r with String d _ => is_digit d | EmptyString => false end in
        let continues :=
          match rest with
          | String d _ =>
              let k := nat_of_ascii d in
              (k =? 46)%nat || (k =? 101)%nat || (k =? 69)%nat
          | EmptyString => false
          end in
        if leading_zero || continues then None else Some (n, rest)
      else None
  | EmptyString => None
  end.

Definition expect (lit : string) (v : json) (s : string) : option (json * string) :=
  if String.prefix lit s
  then Some (v, String.substring (String.length lit)
                  (String.length s - String.length lit) s)
  else None.

Fixpoint parse_value (fuel : nat) (s : string) {struct fuel}
  : option (json * string) :=
  match fuel with
  | O => None
  | S fuel' =>
      match skip_white s with
      | EmptyString => None
      | String c r =>
          let n := nat_of_ascii c in
          if (n =? 110)%nat then expect "null" JNull (String c r)
          else if (n =? 116)%nat then expect "true" (JBool true) (String c r)
          else if (n =? 102)%nat then expect "false" (JBool false) (String c r)
          else if (n =? 34)%nat then
            match parse_chars r with
            | Some (t, rest) => Some (JStr t, rest)
            | None => None
            end
          else if (n =? 45)%nat then
            match parse_nat r with
            | Some (k, rest) => Some (JNum (- k), rest)
            | None => None
            end
          else if (n =? 91)%nat then
            match skip_white r with
            | String d r' =>
                if (nat_of_ascii d =? 93)%nat then Some (JArr [], r')
                else parse_items fuel' [] r
            | EmptyString => None
            end
          else if (n =? 123)%nat then
            match skip_white r with
            | String d r' =>
                if (nat_of_ascii d =? 125)%nat then Some (JObj [], r')
                else parse_members fuel' [] r
            | EmptyString => None
            end
          else
            match parse_nat (String c r) with
            | Some (k, rest) => Some (JNum k, rest)
            | None => None
            end
      end
  end
with parse_items (fuel : nat) (acc : list json) (s : string) {struct fuel}
  : option (json * string) :=
  match fuel with
  | O => None
  | S fuel' =>
      match parse_value fuel' s with
      | Some (v, rest) =>
          match skip_white rest with
          | String d r' =>
              if (nat_of_ascii d =? 93)%nat then Some (JArr (acc ++ [v]), r')
              else if (nat_of_ascii d =? 44)%nat then parse_items fuel' (acc ++ [v]) r'
              else None
          | EmptyString => None
          end
      | None => None
      end
  end
with parse_members (fuel : nat) (acc : list (string * json)) (s : string)
    {struct fuel} : option (json * string) :=
  match fuel with
  | O => None
  | S fuel' =>
      match skip_white s with
      | String q r =>
          if (nat_of_ascii q =? 34)%nat then
            match parse_chars r with
            | Some (k, rest) =>
                match skip_white rest with
                | String colon r1 =>
                    if (nat_of_ascii colon =? 58)%nat then
                      match parse_value fuel' r1 with
                      | Some (v, rest') =>
                          match skip_white rest' with
                          | String d r' =>
                              if (nat_of_ascii d =? 125)%nat
                              then Some (JObj (obj_set k v acc), r')
                              else if (nat_of_ascii d =? 44)%nat
                              then parse_members fuel' (obj_set k v acc) r'
                              else None
                          | EmptyString => None
                          end
                      | None => None
                      end
                    else None
                | EmptyString => None
                end
            | None => None
            end
          else None
      | EmptyString => None
      end
  end.

Definition parse (s : string) : option json :=
  match parse_value (2 * String.length s + 2) s with
  | Some (v, rest) =>
      match skip_white rest with
      | EmptyString => Some v
      | _ => None
      end
  | None => None
  end.

(** Fields of an [application/x-www-form-urlencoded] body: pairs separated
    by [&], name and value separated by the first [=], [+] read as a
    space.  Percent escapes are kept as they are. *)
Fixpoint split_on (sep : ascii) (s : string) (cur : string) : list string :=
  match s with
  | EmptyString => [cur]
  | String c r =>
      if Ascii.eqb c sep then cur :: split_on sep r EmptyString
      else split_on sep r (cur ++ String c EmptyString)
  end.

Fixpoint plus_to_space (s : string) : string :=
  match s with
  | EmptyString => EmptyString
  | String c r =>
      String (if (nat_of_ascii c =? 43)%nat then " "%char else c) (plus_to_space r)
  end.

Fixpoint split_first (sep : ascii) (s : string) (cur : string) : string * string :=
  match s with
  | EmptyString => (cur, EmptyString)
  | String c r =>
      if Ascii.eqb c sep then (cur, r)
      else split_first sep r (cur ++ String c EmptyString)
  end.

Definition urlencoded (payload : string) : list (string * string) :=
  map (fun field =>
         let '(k, v) := split_first "="%char field EmptyString in
         (plus_to_space k, plus_to_space v))
      (List.filter (fun field => JsString.nonempty field)
              (split_on "&"%char payload EmptyString)).

(** [request.formData()] answers for the two form encodings only; the
    reference reads the URL-encoded one. *)
Definition formData (content_type payload : string)
  : option (list (string * string)) :=
  if String.prefix "application/x-www-form-urlencoded" content_type
  then Some (urlencoded payload)
  else None.

(** The reference reads a decimal integer with its sign, white space
    around it apart, and takes every other text for no number. *)
Definition string_to_unsigned_short (text : string) : Z :=
  match JsString.trim text with
  | EmptyString => 0
  | String "-" digits =>
      match digits_value 0 digits with
      | Some n => if JsString.nonempty digits then (- n) mod 65536 else 0
      | None => 0
      end
  | String "+" digits =>
      match digits_value 0 digits with
      | Some n => if JsString.nonempty digits then n mod 65536 else 0
      | None => 0
      end
  | digits =>
      match digits_value 0 digits with
      | Some n => n mod 65536
      | None => 0
      end
  end.

End JsonRef.

#[export] Instance reference_runtime : Runtime := {|
  JSON_parse := JsonRef.parse;
  JSON_stringify := JsonRef.stringify;
  formData := JsonRef.formData;
  string_to_unsigned_short := JsonRef.string_to_unsigned_short
|}.

(** ** The store

    The Redis commands the code issues, on the two kinds of value it keeps:
    a sorted set of event texts per endpoint and a settings text per
    endpoint. *)
Module Redis.

(** A sorted set: its entries in rank order, lowest first.  Entries are
    ordered by score, entries of equal score by member. *)
Abbreviation zset := (list (Z * string)).

Definition entry_ltb (a b : Z * string) : bool :=
  (fst a <? fst b) || ((fst a =? fst b) && String.ltb (snd a) (snd b)).

Fixpoint insert_entry (x : Z * string) (l : zset) : zset :=
  match l with
  | [] => [x]
  | y :: l' => if entry_ltb x y then x :: y :: l' else y :: insert_entry x l'
  end.

(** [a] ranks below [b]. *)
Definition ranks_below (a b : Z * string) : Prop := entry_ltb a b = true.

(** The entries of a sorted set stand in rank order. *)
Definition well_formed (l : zset) : Prop := StronglySorted ranks_below l.

(** The sorted set that holds [l] and the entries [es]. *)
Definition insert_all (es : list (Z * string)) (l : zset) : zset :=
  fold_left (fun acc e => insert_entry e acc) es l.

(** [ZREM]: the entry of that member is removed. *)
Definition zrem (member : string) (l : zset) : zset :=
  List.filter (fun e => negb (String.eqb (snd e) member)) l.

(** [ZADD]: a member that is already there moves to its new score. *)
Definition zadd (score : Z) (member : string) (l : zset) : zset :=
  insert_entry (score, member) (zrem member l).

(** [ZCARD] *)
Definition zcard (l : zset) : Z := Z.of_nat (length l).

(** A rank range [start..stop] over [len] entries, negative ranks counted
    from the end, as the position of its first entry and its size. *)
Definition rank_range (len start stop : Z) : nat * nat :=
  let start1 := if start <? 0 then len + start else start in
  let stop1 := if stop <? 0 then len + stop else stop in
  let start2 := if start1 <? 0 then 0 else start1 in
  if (stop1 <? start2) || (len <=? start2) then (0%nat, 0%nat)
  else
    let stop2 := if len <=? stop1 then len - 1 else stop1 in
    (Z.to_nat start2, Z.to_nat (stop2 - start2 + 1)).

(** [ZREMRANGEBYRANK] *)
Definition zremrangebyrank (start stop : Z) (l : zset) : zset :=
  let '(from, size) := rank_range (zcard l) start stop in
  take from l ++ drop (from + size) l.

(** [ZRANGE], with [REV] when [rev] is set: the members of the range. *)
Definition zrange (start stop : Z) (rev : bool) (l : zset) : list string :=
  let ordered := if rev then List.rev l else l in
  let '(from, size) := rank_range (zcard l) start stop in
  map snd (take size (drop from ordered)).

(** The last [n] entries of a list: all of it when it has no more. *)
Definition newest {A : Type} (n : nat) (l : list A) : list A :=
  drop (length l - n) l.

Record Store : Type := {
  sorted_sets : gmap string zset;
  texts : gmap string string
}.

Definition empty_store : Store := {| sorted_sets := ∅; texts := ∅ |}.

(** A sorted set that does not exist is empty. *)
Definition zset_at (key : string) (s : Store) : zset :=
  default [] (sorted_sets s !! key).

Definition with_zset (key : string) (l : zset) (s : Store) : Store :=
  {| sorted_sets := <[key := l]> (sorted_sets s); texts := texts s |}.

Definition with_text (key : string) (t : string) (s : Store) : Store :=
  {| sorted_sets := sorted_sets s; texts := <[key := t]> (texts s) |}.

Definition without_zset (key : string) (s : Store) : Store :=
  {| sorted_sets := delete key (sorted_sets s); texts := texts s |}.

End Redis.
Export Redis.

(** ** Server-side effects

    A server function runs in a world made of the store, the messages
    published on the realtime channels, the console, and the calls that
    currently fail.  A computation returns a value or throws. *)
Module Effects.

(** The calls that go over the network. *)
Inductive Call : Type :=
  | ZADD (key : string)
  | ZCARD (key : string)
  | ZREMRANGEBYRANK (key : string)
  | ZRANGE (key : string)
  | ZREM (key : string)
  | DEL (key : string)
  | SET (key : string)
  | GET (key : string)
  | EMIT (channel : string).

Record Message : Type := {
  msg_channel : string;
  msg_event : string;
  msg_data : json
}.

Record World : Type := {
  store : Store;
  published : list Message;
  console : list string;
  outage : Call -> bool
}.

Definition with_store (s : Store) (w : World) : World :=
  {| store := s; published := published w; console := console w;
     outage := outage w |}.

(** A world with nothing stored, nothing published and no call failing. *)
Definition empty_world : World :=
  {| store := empty_store; published := []; console := [];
     outage := fun _ => false |}.

Inductive outcome (A : Type) : Type :=
  | Returned (a : A)
  | Thrown (error : string).
Arguments Returned {A} a.
Arguments Thrown {A} error.

Definition M (A : Type) : Type := World -> outcome A * World.

Definition ret {A : Type} (a : A) : M A := fun w => (Returned a, w).

Definition throw {A : Type} (error : string) : M A := fun w => (Thrown error, w).

Definition bind {A B : Type} (m : M A) (k : A -> M B) : M B :=
  fun w =>
    match m w with
    | (Returned a, w') => k a w'
    | (Thrown e, w') => (Thrown e, w')
    end.

(** [try { m } catch (e) { handler(e) }] *)
Definition try_catch {A : Type} (m : M A) (handler : string -> M A) : M A :=
  fun w =>
    match m w with
    | (Returned a, w') => (Returned a, w')
    | (Thrown e, w') => handler e w'
    end.

(** [console.error(label, error)] *)
Definition console_error (label error : string) : M unit :=
  fun w =>
    (Returned tt,
     {| store := store w; published := published w;
        console := console w ++ [label ++ " " ++ error];
        outage := outage w |}).

(** A call that fails when the world says so, and acts on the store
    otherwise. *)
Definition network {A : Type} (c : Call) (act : Store -> A * Store) : M A :=
  fun w =>
    if outage w c then (Thrown "network error", w)
    else let '(a, s) := act (store w) in (Returned a, with_store s w).

End Effects.
Export Effects.

Declare Scope js_scope.
Delimit Scope js_scope with js.
Notation "x <- c ;; k" := (bind c (fun x => k))
  (at level 100, c at next level, right associativity) : js_scope.
Notation "c ;;; k" := (bind c (fun _ => k))
  (at level 100, right associativity) : js_scope.

(** ** The server code *)
Module Server.
Section WithRuntime.
Context `{rt : Runtime}.

Local Open Scope js_scope.

(** *** The Redis client ([lib/redis])

    Modelled from the spec: the client [redis] of [lib/redis.ts], which is
    not among the sources.  The store keeps, per endpoint, an ordered log of
    serialized events scored by their time stamp and one serialized
    settings value (section 6 of the specification), and, as
    [app/actions/webhook.ts] notes, the client deserializes JSON when it
    reads.  It sends strings as they are; a text that parses as JSON is
    handed over as the parsed value, any other text as the string itself,
    and so is the text of a number that is not written the way the number
    prints. *)
Definition deserialize (t : string) : json :=
  match JSON_parse t with
  | Some (JNum n) => if String.eqb (string_of_Z n) t then JNum n else JStr t
  | Some v => v
  | None => JStr t
  end.

Definition redis_get (key : string) : M json :=
  network (GET key)
    (fun s => (match texts s !! key with
               | Some t => deserialize t
               | None => JNull
               end, s)).

Definition redis_set (key value : string) : M unit :=
  network (SET key) (fun s => (tt, with_text key value s)).

Definition redis_zadd (key : string) (score : Z) (member : string) : M unit :=
  network (ZADD key)
    (fun s => (tt, with_zset key (zadd score member (zset_at key s)) s)).

Definition redis_zcard (key : string) : M Z :=
  network (ZCARD key) (fun s => (zcard (zset_at key s), s)).

Definition redis_zremrangebyrank (key : string) (start stop : Z) : M unit :=
  network (ZREMRANGEBYRANK key)
    (fun s => (tt, with_zset key (zremrangebyrank start stop (zset_at key s)) s)).

Definition redis_zrange (key : string) (start stop : Z) (rev : bool)
  : M (list json) :=
  network (ZRANGE key)
    (fun s => (map deserialize (zrange start stop rev (zset_at key s)), s)).

Definition redis_zrem (key member : string) : M unit :=
  network (ZREM key)
    (fun s => (tt, with_zset key (zrem member (zset_at key s)) s)).

Definition redis_del (key : string) : M unit :=
  network (DEL key) (fun s => (tt, without_zset key s)).

(** *** The realtime channel ([lib/realtime.ts]) *)
Definition realtime_emit (channel event : string) (data : json) : M unit :=
  fun w =>
    if outage w (EMIT channel) then (Thrown "network error", w)
    else
      (Returned tt,
       {| store := store w;
          published := published w ++
            [{| msg_channel := channel; msg_event := event; msg_data := data |}];
          console := console w;
          outage := outage w |}).

(** [JSON.parse(text)] as a computation: a text that does not parse throws. *)
Definition JSON_parse_text (text : string) : M json :=
  match JSON_parse text with
  | Some v => ret v
  | None => throw "SyntaxError"
  end.

(** *** [app/actions/settings.ts] *)
Record WebhookSettings : Type := {
  responseStatus : Z;
  responseBody : string;
  responseHeaders : list (string * string)
}.

Definition string_props (props : list (string * string)) : list (string * json) :=
  map (fun kv => (fst kv, JStr (snd kv))) props.

(** A settings value as the object it is. *)
Definition settings_object (s : WebhookSettings) : json :=
  JObj [("responseStatus", JNum (responseStatus s));
        ("responseBody", JStr (responseBody s));
        ("responseHeaders", JObj (string_props (responseHeaders s)))].

(** The object [v] is a settings record with the values of [s], whatever
    the order of its properties and whatever else it holds. *)
Definition is_settings (v : json) (s : WebhookSettings) : Prop :=
  exists props,
    v = JObj props /\
    assoc "responseStatus" props = Some (JNum (responseStatus s)) /\
    assoc "responseBody" props = Some (JStr (responseBody s)) /\
    assoc "responseHeaders" props = Some (JObj (string_props (responseHeaders s))).

Definition settings_key (uuid : string) : string :=
  "webhook:" ++ uuid ++ ":settings".

Definition saveWebhookSettings (uuid : string) (settings : WebhookSettings)
  : M bool :=
  try_catch
    (let redisKey := settings_key uuid in
     redis_set redisKey (JSON_stringify (settings_object settings)) ;;;
     ret true)
    (fun error =>
       console_error "Error saving settings:" error ;;;
       ret false).

(** The result is the settings value, or [JNull] for [null]. *)
Definition getWebhookSettings (uuid : string) : M json :=
  try_catch
    (let redisKey := settings_key uuid in
     settings <- redis_get redisKey ;;
     if truthy settings then
       match settings with
       | JStr text => JSON_parse_text text
       | _ => ret settings
       end
     else ret JNull)
    (fun error =>
       console_error "Error getting settings:" error ;;;
       ret JNull).

(** *** [app/actions/webhook.ts] *)
Definition events_key (uuid : string) : string :=
  "webhook:" ++ uuid ++ ":events".

(** [events.map(f)] for an [f] that may throw. *)
Fixpoint map_M {A B : Type} (f : A -> M B) (l : list A) : M (list B) :=
  match l with
  | [] => ret []
  | x :: l' => y <- f x ;; ys <- map_M f l' ;; ret (y :: ys)
  end.

(** [typeof event === "string" ? JSON.parse(event) : event] *)
Definition parse_if_string (event : json) : M json :=
  match event with
  | JStr text => JSON_parse_text text
  | _ => ret event
  end.

Definition getWebhookEvents (uuid : string) : M (list json) :=
  try_catch
    (let redisKey := events_key uuid in
     events <- redis_zrange redisKey 0 (-1) true ;;
     map_M parse_if_string events)
    (fun error =>
       console_error "Error fetching webhook events:" error ;;;
       ret []).

(** [v.id]: reading a property of [null] throws. *)
Definition read_prop (v : json) (name : string) : M jsval :=
  match v with
  | JNull => throw "TypeError"
  | _ => ret (get_prop v name)
  end.

(** The [for (const event of events)] loop of [deleteWebhookEvent]. *)
Fixpoint delete_first_match (redisKey eventId : string) (events : list json)
  : M bool :=
  match events with
  | [] => ret false
  | event :: rest =>
      parsedEvent <- parse_if_string event ;;
      id <- read_prop parsedEvent "id" ;;
      if strict_eq_string id eventId then
        let member :=
          match event with
          | JStr text => text
          | _ => JSON_stringify event
          end in
        redis_zrem redisKey member ;;;
        ret true
      else delete_first_match redisKey eventId rest
  end.

Definition deleteWebhookEvent (uuid eventId : string) : M bool :=
  try_catch
    (let redisKey := events_key uuid in
     events <- redis_zrange redisKey 0 (-1) false ;;
     delete_first_match redisKey eventId events)
    (fun error =>
       console_error "Error deleting webhook event:" error ;;;
       ret false).

Definition deleteAllWebhookEvents (uuid : string) : M bool :=
  try_catch
    (let redisKey := events_key uuid in
     redis_del redisKey ;;;
     ret true)
    (fun error =>
       console_error "Error deleting all webhook events:" error ;;;
       ret false).

(** A member of a log as a capture writes it: the text of an object, which
    reads back as that object and is written again as that text. *)
Definition canonical_event (member : string) : Prop :=
  exists props,
    JSON_parse member = Some (JObj props) /\
    JSON_stringify (JObj props) = member.

(** The stored event [member] has the id [eventId]. *)
Definition has_id (eventId member : string) : bool :=
  match JSON_parse member with
  | Some v => strict_eq_string (get_prop v "id") eventId
  | None => false
  end.

(** A fetched event does not have the id [eventId]. *)
Definition other_id (eventId : string) (event : json) : bool :=
  negb (strict_eq_string (get_prop event "id") eventId).

End WithRuntime.
End Server.
Export Server.

(** ** The capture route ([app/api/webhook/[uuid]/route.ts]) *)
Module Route.

(** An inbound request as the handler reads it: [headers] are the entries
    of [request.headers], [searchParams] those of the parsed URL, [payload]
    the bytes of the body. *)
Record Request : Type := {
  method : string;
  url : string;
  headers : list (string * string);
  searchParams : list (string * string);
  payload : string
}.

(** A response that [NextResponse.json(body, init)] has built: the body,
    [init.status] and [init.headers] it was given.  What the caller
    receives of them is read by [http_status] and [response_header]
    below. *)
Record Response : Type := {
  body : jsval;
  status : jsval;
  response_headers : list (string * json)
}.

(** [request.headers.get(name)]: header names compare without case. *)
Fixpoint headers_get (name : string) (entries : list (string * string))
  : option string :=
  match entries with
  | [] => None
  | (k, v) :: rest =>
      if String.eqb (JsString.byte_lowercase k) (JsString.byte_lowercase name)
      then Some v
      else headers_get name rest
  end.

(** [request.headers.get("content-type") || ""] *)
Definition content_type_of (request : Request) : string :=
  match headers_get "content-type" (headers request) with
  | Some v => if JsString.nonempty v then v else EmptyString
  | None => EmptyString
  end.

(** *** What the platform accepts as a response

    [NextResponse.json] is [Response.json] of the Fetch standard: it
    throws when the body is [undefined], when the status is not in the
    range 200 to 599, when a header name is no token or a header value
    holds a NUL or a line break, and when the status is one of those that
    go without a body. *)

(** The characters of a token: letters, digits and
    [! # $ % & ' * + - . ^ _ ` | ~]. *)
Definition is_tchar (c : ascii) : bool :=
  let n := nat_of_ascii c in
  (((48 <=? n) && (n <=? 57)) || ((65 <=? n) && (n <=? 90))
   || ((97 <=? n) && (n <=? 122))
   || (n =? 33) || ((35 <=? n) && (n <=? 39)) || (n =? 42) || (n =? 43)
   || (n =? 45) || (n =? 46) || ((94 <=? n) && (n <=? 96))
   || (n =? 124) || (n =? 126))%nat.

Fixpoint all_chars (p : ascii -> bool) (s : string) : bool :=
  match s with
  | EmptyString => true
  | String c s' => p c && all_chars p s'
  end.

(** A header name. *)
Definition is_token (name : string) : bool :=
  JsString.nonempty name && all_chars is_tchar name.

(** HTTP white space: tab, line feed, carriage return and space. *)
Definition is_http_whitespace (c : ascii) : bool :=
  let n := nat_of_ascii c in
  ((n =? 9) || (n =? 10) || (n =? 13) || (n =? 32))%nat.

Fixpoint strip_start (s : string) : string :=
  match s with
  | EmptyString => EmptyString
  | String c s' => if is_http_whitespace c then strip_start s' else s
  end.

Fixpoint strip_end (s : string) : string :=
  match s with
  | EmptyString => EmptyString
  | String c s' =>
      match strip_end s' with
      | EmptyString =>
          if is_http_whitespace c then EmptyString else String c EmptyString
      | t => String c t
      end
  end.

(** A header value is normalized before it is looked at: the HTTP white
    space at its ends is removed. *)
Definition normalize_value (value : string) : string :=
  strip_end (strip_start value).

(** A normalized value is a header value when it holds no NUL, no line
    feed and no carriage return. *)
Definition is_header_value (value : string) : bool :=
  all_chars (fun c => let n := nat_of_ascii c in
                      negb ((n =? 0) || (n =? 10) || (n =? 13))%nat)
            value.

(** The entry of [init.headers] with the value as the text it converts
    to. *)
Definition header_of (entry : string * json) : string * string :=
  (fst entry, normalize_value (to_String (snd entry))).

Definition accepted_header (entry : string * json) : bool :=
  is_token (fst entry) && is_header_value (snd (header_of entry)).

(** The statuses of responses that have no body. *)
Definition null_body_status (code : Z) : bool :=
  (code =? 101) || (code =? 103) || (code =? 204) || (code =? 205)
  || (code =? 304).

(** [headers.get(name)] on the headers of a response: the values of the
    entries of that name, letter case apart, joined in their order. *)
Definition Headers_get (name : string) (entries : list (string * string))
  : option string :=
  match List.filter
          (fun entry =>
             String.eqb (JsString.byte_lowercase (fst entry))
                        (JsString.byte_lowercase name))
          entries
  with
  | [] => None
  | found => Some (String.concat ", " (map snd found))
  end.

(** The headers of a response built by [NextResponse.json]: those of
    [init.headers], and the content type of JSON when they name none. *)
Definition header_list (r : Response) : list (string * string) :=
  let filled := map header_of (response_headers r) in
  match Headers_get "content-type" filled with
  | Some _ => filled
  | None => filled ++ [("content-type", "application/json")]
  end.

(** [response.headers.get(name)] *)
Definition response_header (name : string) (r : Response) : option string :=
  Headers_get name (header_list r).

(** No other of the [names] is [name] up to letter case. *)
Definition alone_up_to_case (name : string) (names : list string) : Prop :=
  forall other,
    other ∈ names ->
    JsString.byte_lowercase other = JsString.byte_lowercase name ->
    other = name.

(** The default acknowledgement and the answer to an internal failure, as
    [NextResponse.json] builds them. *)
Definition default_response : Response :=
  {| body :=
       Some (JObj [("success", JBool true); ("message", JStr "Webhook received")]);
     status := Some (JNum 200);
     response_headers := [] |}.

Definition error_response : Response :=
  {| body :=
       Some (JObj [("success", JBool false);
                   ("error", JStr "Internal server error")]);
     status := Some (JNum 500);
     response_headers := [] |}.

(** The result of a call that has no effect: it is returned or thrown in
    the world as it is. *)
Definition returning {A : Type} (result : outcome A) : M A :=
  fun w => (result, w).

Section WithRuntime.
Context `{rt : Runtime}.

Local Open Scope js_scope.

(** [await request.json()] *)
Definition request_json (request : Request) : M json :=
  JSON_parse_text (payload request).

(** [await request.text()] *)
Definition request_text (request : Request) : M string :=
  ret (payload request).

(** [await request.formData()] *)
Definition request_formData (request : Request) : M (list (string * string)) :=
  match formData (content_type_of request) (payload request) with
  | Some fields => ret fields
  | None => throw "TypeError"
  end.

(** Lines 29-49 of [handleWebhook]: the body of the event. *)
Definition parse_body (request : Request) : M json :=
  let contentType := content_type_of request in
  try_catch
    (if JsString.includes contentType "application/json" then
       request_json request
     else if JsString.includes contentType "application/x-www-form-urlencoded" then
       formData <- request_formData request ;;
       ret (JObj (fromEntries (string_props formData)))
     else if JsString.includes contentType "text/" then
       text <- request_text request ;;
       ret (JStr text)
     else
       text <- request_text request ;;
       ret (if JsString.nonempty text then JStr text else JNull))
    (fun e => ret JNull).

(** The event object of lines 54-63. *)
Definition webhook_event (request : Request) (uuid : string) (body : json)
    (timestamp : Z) (eventId : string) : json :=
  JObj [("id", JStr eventId);
        ("uuid", JStr uuid);
        ("method", JStr (method request));
        ("url", JStr (url request));
        ("headers", JObj (assign_each [] (string_props (headers request))));
        ("body", body);
        ("query", JObj (assign_each [] (string_props (searchParams request))));
        ("timestamp", JNum timestamp)].

(** [init.status] converted to the [unsigned short] of the dictionary
    [ResponseInit]: 200 when it is [undefined], and else the number the
    value converts to, modulo 65536. *)
Definition to_unsigned_short (v : jsval) : Z :=
  match v with
  | None => 200
  | Some JNull => 0
  | Some (JBool b) => if b then 1 else 0
  | Some (JNum n) => n mod 65536
  | Some (JStr text) => string_to_unsigned_short text
  | Some other => string_to_unsigned_short (to_String other)
  end.

(** [NextResponse.json(body, { status, headers })] *)
Definition NextResponse_json (body : jsval) (status : jsval)
    (headers : list (string * json)) : outcome Response :=
  match body with
  | None => Thrown "TypeError"
  | Some _ =>
      let code := to_unsigned_short status in
      if (code <? 200) || (599 <? code) then Thrown "RangeError"
      else if negb (forallb accepted_header headers) then Thrown "TypeError"
      else if null_body_status code then Thrown "TypeError"
      else
        Returned {| body := body; status := status; response_headers := headers |}
  end.

(** The status of the response the caller receives. *)
Definition http_status (r : Response) : Z := to_unsigned_short (status r).

(** Lines 86-103: the configured response. *)
Definition custom_response (settings : json) : outcome Response :=
  let responseHeaders :=
    obj_assign [("Content-Type", JStr "application/json")]
      (spread_props (get_prop settings "responseHeaders")) in
  let responseBody :=
    match JSON_parse (jsval_to_String (get_prop settings "responseBody")) with
    | Some v => Some v
    | None => get_prop settings "responseBody"
    end in
  NextResponse_json responseBody (get_prop settings "responseStatus")
    responseHeaders.

(** [handleWebhook(request, context)], with the path parameter [uuid], the
    reading [timestamp] of [Date.now()] and the identifier [eventId] drawn
    by [uuidv4()]. *)
Definition handleWebhook (request : Request) (uuid : string) (timestamp : Z)
    (eventId : string) : M Response :=
  try_catch
    (body <- parse_body request ;;
     let webhookEvent := webhook_event request uuid body timestamp eventId in
     let redisKey := events_key uuid in
     redis_zadd redisKey timestamp (JSON_stringify webhookEvent) ;;;
     count <- redis_zcard redisKey ;;
     (if 50 <? count
      then redis_zremrangebyrank redisKey 0 (count - 51)
      else ret tt) ;;;
     realtime_emit ("webhook:" ++ uuid) "webhook.received" webhookEvent ;;;
     settings <- getWebhookSettings uuid ;;
     if truthy settings
     then returning (custom_response settings)
     else
       returning
         (NextResponse_json
            (Some (JObj [("success", JBool true);
                         ("message", JStr "Webhook received")]))
            (Some (JNum 200)) []))
    (fun error =>
       console_error "Error processing webhook:" error ;;;
       returning
         (NextResponse_json
            (Some (JObj [("success", JBool false);
                         ("error", JStr "Internal server error")]))
            (Some (JNum 500)) [])).

(** The answer to a capture whose calls went through, by the settings it
    has read: the configured response when they are truthy and the
    platform builds it, the answer to an internal failure when it refuses
    it, and the default acknowledgement when there are none. *)
Definition response_for (settings : json) : Response :=
  if truthy settings then
    match custom_response settings with
    | Returned r => r
    | Thrown _ => error_response
    end
  else default_response.

(** The body [parse_body] gives the event of a request; it does not depend
    on the world. *)
Definition body_of (request : Request) : json :=
  match fst (parse_body request empty_world) with
  | Returned b => b
  | Thrown _ => JNull
  end.

(** One capture: the request, the reading of [Date.now()] and the id drawn
    by [uuidv4()]. *)
Record Capture : Type := {
  capture_request : Request;
  capture_time : Z;
  capture_id : string
}.

(** Captures handled one after the other, each in the world the previous
    one left. *)
Definition run_captures (uuid : string) (captures : list Capture) (w : World)
  : World :=
  fold_left
    (fun w c =>
       snd (handleWebhook (capture_request c) uuid (capture_time c)
              (capture_id c) w))
    captures w.

(** The log entry of a capture: the text of its event under its time
    stamp. *)
Definition captured_entry (uuid : string) (c : Capture) : Z * string :=
  (capture_time c,
   JSON_stringify
     (webhook_event (capture_request c) uuid (body_of (capture_request c))
        (capture_time c) (capture_id c))).

End WithRuntime.

(** What lines 65-78 do to the log of the endpoint: add the event under
    its time stamp, then, past 50 entries, remove the lowest ranks down to
    50. *)
Definition capture_log (timestamp : Z) (member : string) (log : zset) : zset :=
  let added := zadd timestamp member log in
  let count := zcard added in
  if 50 <? count then zremrangebyrank 0 (count - 51) added else added.

(** The store answers the three commands of the append-and-trim step. *)
Definition storage_up (w : World) (uuid : string) : bool :=
  negb (outage w (ZADD (events_key uuid)))
  && negb (outage w (ZCARD (events_key uuid)))
  && negb (outage w (ZREMRANGEBYRANK (events_key uuid))).

(** The realtime channel of the endpoint accepts a publish. *)
Definition channel_up (w : World) (uuid : string) : bool :=
  negb (outage w (EMIT ("webhook:" ++ uuid))).

(** The message a capture publishes. *)
Definition capture_message (uuid : string) (event : json) : Message :=
  {| msg_channel := "webhook:" ++ uuid; msg_event := "webhook.received";
     msg_data := event |}.

(** The log of an endpoint in a world. *)
Definition log_of (uuid : string) (w : World) : zset :=
  zset_at (events_key uuid) (store w).

(** The settings text of an endpoint in a world. *)
Definition settings_text (uuid : string) (w : World) : option string :=
  texts (store w) !! settings_key uuid.

End Route.
Export Route.

(** ** The viewer's log ([app/components/inbox.tsx]) *)
Module Inbox.

(** [WebhookEvent] of [app/actions/webhook.ts]. *)
Record WebhookEvent : Type := {
  event_id : string;
  event_uuid : string;
  event_method : string;
  event_url : string;
  event_headers : list (string * json);
  event_body : json;
  event_query : list (string * json);
  event_timestamp : Z
}.

(** The state of the component: [events] and [searchQuery]. *)
Record State : Type := {
  events : list WebhookEvent;
  searchQuery : string
}.

Definition initial_state : State :=
  {| events := []; searchQuery := EmptyString |}.

Definition setEvents (f : list WebhookEvent -> list WebhookEvent) (st : State)
  : State :=
  {| events := f (events st); searchQuery := searchQuery st |}.

Definition setSearchQuery (text : string) (st : State) : State :=
  {| events := events st; searchQuery := text |}.

(** [onData] of the realtime subscription, for the component of endpoint
    [uuid]. *)
Definition onData (uuid : string) (data : WebhookEvent) (st : State) : State :=
  if String.eqb (event_uuid data) uuid
  then setEvents (fun prev => data :: prev) st
  else st.

(** [loadEvents], once [getWebhookEvents(uuid)] has answered
    [initialEvents]. *)
Definition loadEvents (initialEvents : list WebhookEvent) (st : State) : State :=
  setEvents (fun _ => initialEvents) st.

(** The state change of [handleDeleteOne]. *)
Definition handleDeleteOne (eventId : string) (st : State) : State :=
  setEvents
    (fun prev => List.filter (fun event => negb (String.eqb (event_id event) eventId)) prev)
    st.

(** The state change of [handleDeleteAll]. *)
Definition handleDeleteAll (st : State) : State :=
  setEvents (fun _ => []) st.

(** One bootstrap load followed by live pushes, in arrival order. *)
Definition load_then_push (uuid : string) (initialEvents pushes : list WebhookEvent)
    (st : State) : State :=
  fold_left (fun s data => onData uuid data s) pushes (loadEvents initialEvents st).

Section WithRuntime.
Context `{rt : Runtime}.

(** The text in which the body is searched, lines 136-138. *)
Definition body_string (event : WebhookEvent) : string :=
  match event_body event with
  | JStr text => JsString.toLowerCase text
  | other => JsString.toLowerCase (JSON_stringify other)
  end.

(** The predicate given to [events.filter], lines 119-146. *)
Definition event_matches (query : string) (event : WebhookEvent) : bool :=
  if JsString.includes (JsString.toLowerCase (event_method event)) query then true
  else if JsString.includes (JsString.toLowerCase (event_url event)) query then true
  else
    let headersString :=
      JsString.toLowerCase (JSON_stringify (JObj (event_headers event))) in
    if JsString.includes headersString query then true
    else
      let queryString :=
        JsString.toLowerCase (JSON_stringify (JObj (event_query event))) in
      if JsString.includes queryString query then true
      else if truthy (event_body event)
              && JsString.includes (body_string event) query then true
      else if JsString.includes (JsString.toLowerCase (event_id event)) query then true
      else false.

(** [filteredEvents], lines 112-147. *)
Definition filteredEvents (st : State) : list WebhookEvent :=
  if negb (JsString.nonempty (JsString.trim (searchQuery st))) then events st
  else
    let query := JsString.toLowerCase (searchQuery st) in
    List.filter (event_matches query) (events st).

(** The texts in which the filter searches an event, in the order the
    code tries them. *)
Definition searched_fields (event : WebhookEvent) : list string :=
  [event_method event; event_url event;
   JSON_stringify (JObj (event_headers event));
   JSON_stringify (JObj (event_query event))]
  ++ (if truthy (event_body event)
      then [match event_body event with
            | JStr text => text
            | other => JSON_stringify other
            end]
      else [])
  ++ [event_id event].

(** The texts the specification names for the search: method, url,
    serialized headers, serialized query, serialized or raw body. *)
Definition specified_fields (event : WebhookEvent) : list string :=
  [event_method event; event_url event;
   JSON_stringify (JObj (event_headers event));
   JSON_stringify (JObj (event_query event));
   match event_body event with
   | JStr text => text
   | other => JSON_stringify other
   end].

End WithRuntime.

(** [text] appears in [field], letter case apart. *)
Definition appears_in (text field : string) : Prop :=
  JsString.occurs_in (JsString.toLowerCase text) (JsString.toLowerCase field).

(** The pushes the subscription lets through for endpoint [uuid]. *)
Definition accepted (uuid : string) (pushes : list WebhookEvent)
  : list WebhookEvent :=
  List.filter (fun data => String.eqb (event_uuid data) uuid) pushes.

End Inbox.
Export Inbox.

(** ** What a computation leaves alone

    The relations below say which parts of the world a server function
    does not touch, and that it hands every failure back as a value. *)
Module Frames.

(** [m] returns in every world: it never throws. *)
Definition never_throws {A : Type} (m : M A) : Prop :=
  forall w, exists a, fst (m w) = Returned a.

(** [m] takes every world to one related to it by [R], whether it returns
    or throws. *)
Definition keeps {A : Type} (R : World -> World -> Prop) (m : M A) : Prop :=
  forall w, R w (snd (m w)).

(** Only the console differs. *)
Definition read_only (w w' : World) : Prop :=
  store w' = store w /\ published w' = published w /\ outage w' = outage w.

(** Apart from the log of endpoint [uuid], the published messages and the
    console, nothing differs: the logs of the other endpoints and all the
    settings are the same. *)
Definition same_elsewhere (uuid : string) (w w' : World) : Prop :=
  texts (store w') = texts (store w) /\
  (forall key, key <> events_key uuid ->
               zset_at key (store w') = zset_at key (store w)) /\
  outage w' = outage w.

End Frames.
Export Frames.

(** ** The browser *)
Module Browser.

(** [localStorage]: texts under keys. *)
Definition LocalStorage : Type := gmap string string.

(** [localStorage.getItem(key)], [None] for [null]. *)
Definition getItem (key : string) (ls : LocalStorage) : option string :=
  ls !! key.

(** [localStorage.setItem(key, value)] *)
Definition setItem (key value : string) (ls : LocalStorage) : LocalStorage :=
  <[key := value]> ls.

(** What the handlers read of the document: [document.hidden] and
    [document.hasFocus()]. *)
Record Document : Type := {
  hidden : bool;
  hasFocus : bool
}.

End Browser.
Export Browser.

(** ** The page with its inbox and its message viewer

    The page component [Home] holds the endpoint, the selected event and
    the unread count; it hands callbacks to [Inbox] ([app/components/inbox.tsx]) and to
    [MessageViewer] ([app/components/message-viewer.tsx]).  The handlers
    are run one at a time, each to its end; the toasts are kept by their
    titles.  The server actions are called as functions: the transport
    between browser and server is not part of the model. *)
Module Home.

Definition STORAGE_KEY : string := "ehook-webhook-uuid".

Inductive ConnectionStatus : Type :=
  | connecting
  | connected
  | reconnecting
  | disconnected.

Record State : Type := {
  page_uuid : string;
  selectedEvent : option WebhookEvent;
  connection : ConnectionStatus;
  unreadCount : nat;
  inbox : Inbox.State;
  toasts : list string
}.

Definition initial_state : State :=
  {| page_uuid := EmptyString; selectedEvent := None; connection := connecting;
     unreadCount := 0%nat; inbox := Inbox.initial_state; toasts := [] |}.

Definition setUuid (u : string) (st : State) : State :=
  {| page_uuid := u; selectedEvent := selectedEvent st;
     connection := connection st; unreadCount := unreadCount st;
     inbox := inbox st; toasts := toasts st |}.

Definition setSelectedEvent (e : option WebhookEvent) (st : State) : State :=
  {| page_uuid := page_uuid st; selectedEvent := e;
     connection := connection st; unreadCount := unreadCount st;
     inbox := inbox st; toasts := toasts st |}.

Definition setStatus (c : ConnectionStatus) (st : State) : State :=
  {| page_uuid := page_uuid st; selectedEvent := selectedEvent st;
     connection := c; unreadCount := unreadCount st;
     inbox := inbox st; toasts := toasts st |}.

Definition setUnreadCount (f : nat -> nat) (st : State) : State :=
  {| page_uuid := page_uuid st; selectedEvent := selectedEvent st;
     connection := connection st; unreadCount := f (unreadCount st);
     inbox := inbox st; toasts := toasts st |}.

Definition with_inbox (f : Inbox.State -> Inbox.State) (st : State) : State :=
  {| page_uuid := page_uuid st; selectedEvent := selectedEvent st;
     connection := connection st; unreadCount := unreadCount st;
     inbox := f (inbox st); toasts := toasts st |}.

(** [toast.success(title)] *)
Definition toast_success (title : string) (st : State) : State :=
  {| page_uuid := page_uuid st; selectedEvent := selectedEvent st;
     connection := connection st; unreadCount := unreadCount st;
     inbox := inbox st; toasts := toasts st ++ [title] |}.

(** The first effect of [Home]: get or create the endpoint identifier,
    where [fresh] is what [uuidv4()] draws when it is called. *)
Definition get_or_create_uuid (fresh : string) (ls : LocalStorage) (st : State)
  : LocalStorage * State :=
  match getItem STORAGE_KEY ls with
  | Some storedUuid =>
      if JsString.nonempty storedUuid then (ls, setUuid storedUuid st)
      else (setItem STORAGE_KEY fresh ls, setUuid fresh st)
  | None => (setItem STORAGE_KEY fresh ls, setUuid fresh st)
  end.

(** The second effect: the title of the document. *)
Definition document_title (st : State) : string :=
  if (0 <? unreadCount st)%nat
  then "(" ++ string_of_nat (unreadCount st) ++ ") eHook.app"
  else "eHook.app".

Definition handleFocus (st : State) : State := setUnreadCount (fun _ => 0%nat) st.

Definition handleVisibilityChange (doc : Document) (st : State) : State :=
  if negb (hidden doc) then setUnreadCount (fun _ => 0%nat) st else st.

(** The callbacks [Home] gives to [Inbox] and to [MessageViewer]. *)
Definition onSelectEvent (event : WebhookEvent) (st : State) : State :=
  setUnreadCount (fun _ => 0%nat) (setSelectedEvent (Some event) st).

(** [selectedEvent?.id || null] *)
Definition selectedEventId (st : State) : option string :=
  match selectedEvent st with
  | Some event =>
      if JsString.nonempty (event_id event) then Some (event_id event) else None
  | None => None
  end.

Definition onNewEvent (doc : Document) (st : State) : State :=
  if hidden doc || negb (hasFocus doc)
  then setUnreadCount (fun prev => (prev + 1)%nat) st
  else st.

Definition onEventsChange (st : State) : State := setSelectedEvent None st.

Definition onDelete (st : State) : State := setSelectedEvent None st.

(** [onData] of the inbox with what it tells the page and the user. *)
Definition onData (doc : Document) (data : WebhookEvent) (st : State) : State :=
  if String.eqb (event_uuid data) (page_uuid st) then
    let st1 := with_inbox (Inbox.setEvents (fun prev => data :: prev)) st in
    let st2 := onNewEvent doc st1 in
    if negb (hidden doc) && hasFocus doc
    then toast_success (event_method data ++ " webhook received") st2
    else st2
  else st.

Section WithRuntime.
Context `{rt : Runtime}.

Local Open Scope js_scope.

(** [handleDeleteAll] of the inbox; [confirmed] is the answer to
    [confirm(...)]. *)
Definition handleDeleteAll (confirmed : bool) (st : State) : M State :=
  if negb confirmed then ret st
  else
    deleteAllWebhookEvents (page_uuid st) ;;;
    let st1 := with_inbox (Inbox.setEvents (fun _ => [])) st in
    let st2 := onEventsChange st1 in
    ret (toast_success
           ("Deleted all "
            ++ string_of_nat (length (events (inbox st))) ++ " webhooks")
           st2).

(** [handleDeleteOne] of the inbox. *)
Definition handleDeleteOne (eventId : string) (st : State) : M State :=
  deleteWebhookEvent (page_uuid st) eventId ;;;
  let st1 :=
    with_inbox
      (Inbox.setEvents
         (fun prev =>
            List.filter (fun event => negb (String.eqb (event_id event) eventId))
                        prev))
      st in
  let st2 := toast_success "Webhook deleted" st1 in
  ret (match selectedEventId st with
       | Some id => if String.eqb id eventId then onEventsChange st2 else st2
       | None => st2
       end).

(** [handleDelete] of the message viewer, which shows the selected
    event. *)
Definition handleDelete (st : State) : M State :=
  match selectedEvent st with
  | Some event =>
      deleteWebhookEvent (event_uuid event) (event_id event) ;;;
      ret (onDelete st)
  | None => ret st
  end.

(** [getPreview] of the inbox. *)
Definition getPreview (event : WebhookEvent) : string :=
  if truthy (event_body event) then
    match event_body event with
    | JStr text => String.substring 0 50 text
    | other => String.substring 0 50 (JSON_stringify other)
    end
  else "No body".

End WithRuntime.

End Home.

(** ** The settings panel ([app/components/settings-panel.tsx]) *)
Module SettingsPanel.

Definition SETTINGS_KEY : string := "ehook-settings".

(** The text [{"success": true, "message": "Webhook received"}]. *)
Definition default_body : string :=
  "{" ++ JsonRef.quote "success" ++ ": true, "
      ++ JsonRef.quote "message" ++ ": " ++ JsonRef.quote "Webhook received" ++ "}".

Definition DEFAULT_SETTINGS : WebhookSettings :=
  {| responseStatus := 200;
     responseBody := default_body;
     responseHeaders := [] |}.

Record State : Type := {
  settings : WebhookSettings;
  headerKey : string;
  headerValue : string;
  saved : bool
}.

Definition initial_state : State :=
  {| settings := DEFAULT_SETTINGS; headerKey := EmptyString;
     headerValue := EmptyString; saved := false |}.

Definition setSettings (s : WebhookSettings) (st : State) : State :=
  {| settings := s; headerKey := headerKey st; headerValue := headerValue st;
     saved := saved st |}.

Definition setHeaderKey (k : string) (st : State) : State :=
  {| settings := settings st; headerKey := k; headerValue := headerValue st;
     saved := saved st |}.

Definition setHeaderValue (v : string) (st : State) : State :=
  {| settings := settings st; headerKey := headerKey st; headerValue := v;
     saved := saved st |}.

Definition setSaved (b : bool) (st : State) : State :=
  {| settings := settings st; headerKey := headerKey st;
     headerValue := headerValue st; saved := b |}.

(** [{...settings, responseHeaders: h}] *)
Definition with_headers (h : list (string * string)) (s : WebhookSettings)
  : WebhookSettings :=
  {| responseStatus := responseStatus s; responseBody := responseBody s;
     responseHeaders := h |}.

(** [delete o[key]] *)
Definition obj_delete {A : Type} (key : string) (props : list (string * A))
  : list (string * A) :=
  List.filter (fun kv => negb (String.eqb (fst kv) key)) props.

Definition addHeader (st : State) : State :=
  if JsString.nonempty (headerKey st) && JsString.nonempty (headerValue st) then
    setHeaderValue EmptyString
      (setHeaderKey EmptyString
         (setSettings
            (with_headers
               (obj_set (headerKey st) (headerValue st)
                        (responseHeaders (settings st)))
               (settings st))
            st))
  else st.

Definition removeHeader (key : string) (st : State) : State :=
  let newHeaders := obj_delete key (responseHeaders (settings st)) in
  setSettings (with_headers newHeaders (settings st)) st.

Section WithRuntime.
Context `{rt : Runtime}.

Local Open Scope js_scope.

(** [saveSettings]; the timer that takes the mark [saved] back after two
    seconds is the separate step [saved_expires]. *)
Definition saveSettings (uuid : string) (ls : LocalStorage) (st : State)
  : M (LocalStorage * State) :=
  let ls' :=
    setItem SETTINGS_KEY (JSON_stringify (settings_object (settings st))) ls in
  (if JsString.nonempty uuid
   then saveWebhookSettings uuid (settings st) ;;; ret tt
   else ret tt) ;;;
  ret (ls', setSaved true st).

Definition resetSettings (uuid : string) (ls : LocalStorage) (st : State)
  : M (LocalStorage * State) :=
  let st1 := setSettings DEFAULT_SETTINGS st in
  let ls' :=
    setItem SETTINGS_KEY (JSON_stringify (settings_object DEFAULT_SETTINGS)) ls in
  (if JsString.nonempty uuid
   then saveWebhookSettings uuid DEFAULT_SETTINGS ;;; ret tt
   else ret tt) ;;;
  ret (ls', setSaved true st1).

End WithRuntime.

Definition saved_expires (st : State) : State := setSaved false st.

End SettingsPanel.

(** ** Outcomes

    What is said of a capture, of a sequence of saves and of a log in the
    properties of the server functions. *)
Module Outcomes.

(** The calls of a capture all go through: the append, the count, the
    trim when the count asks for one, and the publish. *)
Definition capture_goes_through (w : World) (uuid : string) (timestamp : Z)
    (member : string) : bool :=
  negb (outage w (ZADD (events_key uuid)))
  && negb (outage w (ZCARD (events_key uuid)))
  && (if 50 <? zcard (zadd timestamp member (log_of uuid w))
      then negb (outage w (ZREMRANGEBYRANK (events_key uuid)))
      else true)
  && channel_up w uuid.

(** Saves handled one after the other, each for its endpoint. *)
Definition run_saves `{rt : Runtime} (saves : list (string * WebhookSettings))
    (w : World) : World :=
  fold_left (fun w save => snd (saveWebhookSettings (fst save) (snd save) w))
            saves w.

(** What the store keeps of a log: its entries in rank order, each member
    once. *)
Definition log_invariant (l : zset) : Prop :=
  well_formed l /\ NoDup (map snd l).

End Outcomes.
Export Outcomes.

(** ** Scenarios

    The inputs on which the properties below are run, with the reference
    runtime: the scenarios of section 8 of the specification. *)
Module Scenarios.

(** [POST {"x":1}] to [/webhook/abc]. *)
Definition post_json : Request :=
  {| method := "POST";
     url := "https://ehook.app/api/webhook/abc";
     headers := [("content-type", "application/json"); ("user-agent", "curl/8.4.0")];
     searchParams := [];
     payload := JsonRef.stringify (JObj [("x", JNum 1)]) |}.

(** [GET /webhook/abc?x=1]. *)
Definition get_query : Request :=
  {| method := "GET";
     url := "https://ehook.app/api/webhook/abc?x=1";
     headers := [("user-agent", "curl/8.4.0")];
     searchParams := [("x", "1")];
     payload := EmptyString |}.

(** Status 201, body [{"ok":true}], header [X-Test: 1]. *)
Definition created_settings : WebhookSettings :=
  {| responseStatus := 201;
     responseBody := JsonRef.stringify (JObj [("ok", JBool true)]);
     responseHeaders := [("X-Test", "1")] |}.

(** A world in which the settings of [uuid] are the text [t]. *)
Definition world_with_settings (uuid t : string) : World :=
  with_store (with_text (settings_key uuid) t empty_store) empty_world.

(** A world in which publishing fails and the store answers. *)
Definition publish_down : World :=
  {| store := empty_store; published := []; console := [];
     outage := fun c => match c with EMIT _ => true | _ => false end |}.

(** [n] captures of [post_json], one millisecond apart, with ids [E0],
    [E1], ... *)
Definition numbered_capture (i : nat) : Capture :=
  {| capture_request := post_json;
     capture_time := 1700000000000 + Z.of_nat i;
     capture_id := String "E" (string_of_nat i) |}.

Definition numbered_captures (n : nat) : list Capture :=
  map numbered_capture (seq 0 n).

(** The world after two captures to [abc], of ids [E0] and [E1]. *)
Definition two_captured : World :=
  run_captures "abc" (numbered_captures 2) empty_world.

End Scenarios.

(** ** Further scenarios

    Worlds and component states on which the properties of the actions,
    of the page and of the settings panel are run. *)
Module Cases.

(** A world in which the count of the log fails and the rest answers. *)
Definition count_down : World :=
  {| store := empty_store; published := []; console := [];
     outage := fun c => match c with ZCARD _ => true | _ => false end |}.

(** A world in which the log of [abc] holds one member that is not JSON. *)
Definition unreadable_log : World :=
  with_store (with_zset (events_key "abc") [(1700000000000, "not json")] empty_store)
             empty_world.

(** The first event of [Scenarios.two_captured] as the inbox holds it. *)
Definition first_event : WebhookEvent :=
  {| event_id := "E0"; event_uuid := "abc"; event_method := "POST";
     event_url := "https://ehook.app/api/webhook/abc";
     event_headers := [("content-type", JStr "application/json");
                       ("user-agent", JStr "curl/8.4.0")];
     event_body := JObj [("x", JNum 1)]; event_query := [];
     event_timestamp := 1700000000000 |}.

(** The page of endpoint [abc] with that event listed and selected. *)
Definition viewing_first : Home.State :=
  {| Home.page_uuid := "abc"; Home.selectedEvent := Some first_event;
     Home.connection := Home.connected; Home.unreadCount := 0%nat;
     Home.inbox := {| events := [first_event]; searchQuery := EmptyString |};
     Home.toasts := [] |}.

(** Settings with a status that is no status of an HTTP response. *)
Definition status_700 : WebhookSettings :=
  {| responseStatus := 700;
     responseBody := JsonRef.stringify (JObj [("ok", JBool true)]);
     responseHeaders := [] |}.

(** Settings with the status 204, which goes without a body. *)
Definition status_204 : WebhookSettings :=
  {| responseStatus := 204;
     responseBody := JsonRef.stringify (JObj [("ok", JBool true)]);
     responseHeaders := [] |}.

(** Settings with a content type named in small letters. *)
Definition plain_content_type : WebhookSettings :=
  {| responseStatus := 201;
     responseBody := JsonRef.stringify (JObj [("ok", JBool true)]);
     responseHeaders := [("content-type", "text/plain")] |}.

(** The settings panel with the header [X-Test: 1] typed in. *)
Definition typing_header : SettingsPanel.State :=
  {| SettingsPanel.settings := SettingsPanel.DEFAULT_SETTINGS;
     SettingsPanel.headerKey := "X-Test"; SettingsPanel.headerValue := "1";
     SettingsPanel.saved := false |}.

End Cases.

(** * Properties *)

(** ** Strings *)
Section StringFacts.

Lemma prefix_is_prefix_of (pat s : string) :
  String.prefix pat s = true <-> JsString.is_prefix_of pat s.
Proof.
  unfold JsString.is_prefix_of.
  revert s; induction pat as [|a pat IH]; intros s.
  - split; [intros _; exists s; reflexivity | intros _; destruct s; reflexivity].
  - destruct s as [|b s]; simpl.
    + split; [discriminate | intros [post H]; discriminate].
    + destruct (ascii_dec a b) as [->|Hne].
      * rewrite IH. split; intros [post H]; exists post.
        -- now rewrite H.
        -- now injection H.
      * split; [discriminate|].
        intros [post H]. injection H as Hab _. congruence.
Qed.

Lemma startsWith_spec (s pat : string) :
  JsString.startsWith s pat = true <-> JsString.is_prefix_of pat s.
Proof. apply prefix_is_prefix_of. Qed.

Lemma includes_unfold (s pat : string) :
  JsString.includes s pat =
  String.prefix pat s ||
  match s with
  | EmptyString => false
  | String _ s' => JsString.includes s' pat
  end.
Proof. destruct s; reflexivity. Qed.

Lemma includes_spec (s pat : string) :
  JsString.includes s pat = true <-> JsString.occurs_in pat s.
Proof.
  unfold JsString.occurs_in. split.
  - induction s as [|c s IH]; rewrite includes_unfold, orb_true_iff.
    + intros [H|H]; [|discriminate].
      apply prefix_is_prefix_of in H as [post H].
      exists EmptyString, post. exact H.
    + intros [H|H].
      * apply prefix_is_prefix_of in H as [post H].
        exists EmptyString, post. exact H.
      * destruct (IH H) as (pre & post & ->).
        exists (String c pre), post. reflexivity.
  - intros (pre & post & ->).
    induction pre as [|c pre IH]; rewrite includes_unfold, orb_true_iff.
    + left. apply prefix_is_prefix_of. exists post. reflexivity.
    + right. exact IH.
Qed.

Lemma includes_false (s pat : string) :
  JsString.includes s pat = false <-> ~ JsString.occurs_in pat s.
Proof.
  rewrite <- includes_spec. destruct (JsString.includes s pat); split; congruence.
Qed.

Lemma trimEnd_empty (s : string) :
  JsString.trimEnd s = EmptyString <-> JsString.all_white s.
Proof.
  induction s as [|c s IH]; simpl; [tauto|].
  destruct (JsString.trimEnd s) eqn:E.
  - destruct (JsString.is_white c); split; try tauto; try discriminate.
    + intros [H _]; discriminate.
  - split; [discriminate|]. intros [_ H]. apply IH in H. discriminate.
Qed.

Lemma trimStart_white (s : string) :
  JsString.all_white (JsString.trimStart s) <-> JsString.all_white s.
Proof.
  induction s as [|c s IH]; simpl; [tauto|].
  destruct (JsString.is_white c) eqn:E; simpl; rewrite ?E; tauto.
Qed.

(** [!searchQuery.trim()] holds exactly for white-space-only text. *)
Lemma trim_empty (s : string) :
  JsString.nonempty (JsString.trim s) = false <-> JsString.all_white s.
Proof.
  unfold JsString.trim. rewrite <- trimStart_white, <- trimEnd_empty.
  destruct (JsString.trimEnd (JsString.trimStart s)); simpl; split; congruence.
Qed.

End StringFacts.

(** ** The viewer *)
Section InboxFacts.
Context `{rt : Runtime}.

Lemma events_fold_onData (uuid : string) (pushes : list WebhookEvent) (st : State) :
  events (fold_left (fun s data => onData uuid data s) pushes st) =
  (rev (accepted uuid pushes) ++ events st)%list.
Proof.
  revert st; induction pushes as [|d pushes IH]; intros st; simpl; [reflexivity|].
  rewrite IH. unfold accepted; simpl. unfold onData.
  destruct (String.eqb (event_uuid d) uuid); simpl; [|reflexivity].
  now rewrite <- app_assoc.
Qed.

(** The log shown after a bootstrap load and live pushes: the accepted
    pushes, newest first, then the bootstrap result. *)
Lemma events_load_then_push (uuid : string) (initialEvents pushes : list WebhookEvent)
    (st : State) :
  events (load_then_push uuid initialEvents pushes st) =
  (rev (accepted uuid pushes) ++ initialEvents)%list.
Proof. unfold load_then_push. now rewrite events_fold_onData. Qed.

Lemma NoDup_rev_iff {A : Type} (l : list A) : NoDup (rev l) <-> NoDup l.
Proof.
  rewrite !NoDup_ListNoDup. split; intros H.
  - rewrite <- (rev_involutive l). now apply List.NoDup_rev.
  - now apply List.NoDup_rev.
Qed.

(** C8, as amended.  The component does not remove duplicates: the log
    shown after one bootstrap load and any live pushes is the accepted
    pushes, newest first, followed by the bootstrap result.  It is free of
    repeated ids exactly when the accepted pushes have pairwise distinct
    ids, the bootstrap result has pairwise distinct ids, and no accepted
    push has the id of a bootstrap entry. *)
Theorem displayed_log_distinct_ids (uuid : string)
    (initialEvents pushes : list WebhookEvent) (st : State) :
  let shown := events (load_then_push uuid initialEvents pushes st) in
  shown = (rev (accepted uuid pushes) ++ initialEvents)%list /\
  (NoDup (map event_id shown) <->
   NoDup (map event_id (accepted uuid pushes)) /\
   NoDup (map event_id initialEvents) /\
   (forall d, d ∈ accepted uuid pushes ->
              event_id d ∉ map event_id initialEvents)).
Proof.
  intros shown. subst shown. rewrite events_load_then_push.
  split; [reflexivity|].
  rewrite map_app, map_rev, NoDup_app, NoDup_rev_iff.
  split.
  - intros (Hp & Hdisj & Hi). repeat split; try assumption.
    intros d Hd. apply Hdisj.
    rewrite list_elem_of_In, <- in_rev, <- list_elem_of_In.
    now apply list_elem_of_fmap_2.
  - intros (Hp & Hi & Hdisj). repeat split; try assumption.
    intros x Hx.
    rewrite list_elem_of_In, <- in_rev, <- list_elem_of_In in Hx.
    apply list_elem_of_fmap in Hx as (d & -> & Hd).
    now apply Hdisj.
Qed.

(** C8, as stated, fails: a pushed event that the bootstrap result already
    holds is shown twice. *)
Lemma displayed_log_shows_event_twice :
  let e := {| event_id := "E1"; event_uuid := "abc"; event_method := "POST";
              event_url := "https://ehook.app/api/webhook/abc";
              event_headers := []; event_body := JNull; event_query := [];
              event_timestamp := 1700000000000 |} in
  let shown := events (load_then_push "abc" [e] [e] initial_state) in
  map event_id shown = ["E1"; "E1"] /\ ~ NoDup (map event_id shown).
Proof.
  simpl. split; [reflexivity|].
  intros H. apply NoDup_cons in H as [H _]. apply H. now left.
Qed.

Lemma event_matches_existsb (query : string) (e : WebhookEvent) :
  event_matches query e =
  existsb (fun field => JsString.includes (JsString.toLowerCase field) query)
          (searched_fields e).
Proof.
  unfold event_matches, searched_fields, body_string. simpl.
  destruct (JsString.includes (JsString.toLowerCase (event_method e)) query);
    [reflexivity|].
  destruct (JsString.includes (JsString.toLowerCase (event_url e)) query);
    [reflexivity|].
  destruct (JsString.includes
              (JsString.toLowerCase (JSON_stringify (JObj (event_headers e)))) query);
    [reflexivity|].
  destruct (JsString.includes
              (JsString.toLowerCase (JSON_stringify (JObj (event_query e)))) query);
    [reflexivity|].
  simpl. rewrite existsb_app. simpl. rewrite orb_false_r.
  destruct (JsString.includes (JsString.toLowerCase (event_id e)) query);
    destruct (truthy (event_body e)); simpl; rewrite ?orb_true_r, ?orb_false_r;
    try reflexivity.
  - destruct (event_body e); destruct (JsString.includes _ query); reflexivity.
  - destruct (event_body e); destruct (JsString.includes _ query); reflexivity.
Qed.

(** The filter predicate, read as a statement about the event. *)
Lemma event_matches_spec (text : string) (e : WebhookEvent) :
  event_matches (JsString.toLowerCase text) e = true <->
  exists field, field ∈ searched_fields e /\ appears_in text field.
Proof.
  rewrite event_matches_existsb, existsb_exists. unfold appears_in.
  split; intros (field & Hin & H); exists field.
  - split; [now apply list_elem_of_In | now apply includes_spec].
  - split; [now apply list_elem_of_In | now apply includes_spec].
Qed.

Lemma filter_sublist {A : Type} (f : A -> bool) (l : list A) :
  sublist (List.filter f l) l.
Proof.
  induction l as [|x l IH]; simpl; [constructor|].
  destruct (f x); now constructor.
Qed.

(** C9, as amended.  For a search text that is empty or only white space
    every event is kept.  For any other text the filter keeps exactly the
    events in which the text appears, letter case apart, in the method, the
    url, the serialized headers, the serialized query, the body (raw when it
    is a string, serialized otherwise, and only when the body is truthy) or
    the event id.  The result is a sub-list of the events in their order;
    the filter is a function of the component state alone, which it leaves
    as it is. *)
Theorem filteredEvents_spec (st : State) (e : WebhookEvent) :
  (JsString.all_white (searchQuery st) -> filteredEvents st = events st) /\
  (~ JsString.all_white (searchQuery st) ->
   (e ∈ filteredEvents st <->
    e ∈ events st /\
    exists field, field ∈ searched_fields e /\ appears_in (searchQuery st) field)) /\
  sublist (filteredEvents st) (events st).
Proof.
  unfold filteredEvents.
  destruct (JsString.nonempty (JsString.trim (searchQuery st))) eqn:E; simpl.
  - assert (Hw : ~ JsString.all_white (searchQuery st)).
    { intros H. apply trim_empty in H. congruence. }
    split; [tauto|]. split; [|apply filter_sublist].
    intros _. rewrite list_elem_of_In, filter_In, <- list_elem_of_In.
    now rewrite event_matches_spec.
  - apply trim_empty in E.
    split; [reflexivity|]. split; [tauto | reflexivity].
Qed.

End InboxFacts.

(** ** Objects as property lists *)
Section ObjectFacts.
Context {A : Type}.

Lemma assoc_obj_set (k k' : string) (v : A) (props : list (string * A)) :
  assoc k' (obj_set k v props) = if String.eqb k k' then Some v else assoc k' props.
Proof.
  induction props as [|[k0 v0] props IH]; simpl.
  - reflexivity.
  - destruct (String.eqb_spec k0 k) as [->|Hne]; simpl.
    + destruct (String.eqb k k'); reflexivity.
    + destruct (goes_before k k0); simpl; [reflexivity|].
      rewrite IH. destruct (String.eqb_spec k0 k') as [->|Hne'].
      * destruct (String.eqb_spec k k'); congruence.
      * reflexivity.
Qed.

(** After assigning [entries] in order, a key holds the value of its last
    entry, or what the target held. *)
Lemma assoc_obj_assign (k : string) (target entries : list (string * A)) :
  assoc k (obj_assign target entries) =
  match assoc k (rev entries) with
  | Some v => Some v
  | None => assoc k target
  end.
Proof.
  unfold obj_assign. revert target.
  induction entries as [|[k0 v0] entries IH]; intros target; simpl.
  - reflexivity.
  - rewrite IH, assoc_obj_set.
    assert (Happ : forall l1 l2 : list (string * A),
               assoc k (l1 ++ l2)%list =
               match assoc k l1 with Some v => Some v | None => assoc k l2 end).
    { induction l1 as [|[k1 v1] l1 IH1]; intros l2; simpl; [reflexivity|].
      destruct (String.eqb k1 k); [reflexivity | apply IH1]. }
    rewrite Happ. simpl.
    destruct (assoc k (rev entries)); [reflexivity|].
    destruct (String.eqb k0 k); reflexivity.
Qed.

End ObjectFacts.

Lemma assoc_string_props (k : string) (fields : list (string * string)) :
  assoc k (string_props fields) = JStr <$> assoc k fields.
Proof.
  induction fields as [|[k0 v0] fields IH]; simpl; [reflexivity|].
  destruct (String.eqb k0 k); [reflexivity | exact IH].
Qed.

Lemma rev_string_props (fields : list (string * string)) :
  rev (string_props fields) = string_props (rev fields).
Proof. unfold string_props. now rewrite map_rev. Qed.

(** ** Objects keep each key once *)
Section ObjectKeyFacts.
Context {A : Type}.

Lemma goes_before_asym (a b : string) :
  goes_before a b = true -> goes_before b a = false.
Proof.
  unfold goes_before.
  destruct (array_index a) as [n|], (array_index b) as [m|];
    try discriminate; try reflexivity.
  intros H. apply Z.ltb_lt in H. apply Z.ltb_ge. lia.
Qed.

Lemma goes_before_trans (a b c : string) :
  goes_before a b = true -> goes_before b c = true -> goes_before a c = true.
Proof.
  unfold goes_before.
  destruct (array_index a) as [n|], (array_index b) as [m|],
           (array_index c) as [p|]; try discriminate; try reflexivity.
  intros H1 H2. apply Z.ltb_lt in H1, H2. apply Z.ltb_lt. lia.
Qed.

Lemma keys_obj_set (k : string) (v : A) (props : list (string * A)) (x : string) :
  x ∈ map fst (obj_set k v props) -> x = k \/ x ∈ map fst props.
Proof.
  induction props as [|[k0 v0] props IH]; simpl; intros Hx.
  - apply list_elem_of_singleton in Hx. now left.
  - destruct (String.eqb_spec k0 k) as [->|Hne].
    + now right.
    + destruct (goes_before k k0); simpl in Hx.
      * apply elem_of_cons in Hx as [->|Hx]; [now left | now right].
      * apply elem_of_cons in Hx as [->|Hx]; [right; left|].
        destruct (IH Hx) as [->|H]; [now left | right; now right].
Qed.

(** The keys of an object stand in enumeration order: none goes before an
    earlier one. *)
Lemma obj_set_keys (k : string) (v : A) (props : list (string * A)) :
  NoDup (map fst props) ->
  StronglySorted (fun a b => goes_before b a = false) (map fst props) ->
  NoDup (map fst (obj_set k v props)) /\
  StronglySorted (fun a b => goes_before b a = false) (map fst (obj_set k v props)).
Proof.
  induction props as [|[k0 v0] props IH]; simpl; intros Hnd Hs.
  - split; [apply NoDup_singleton | repeat constructor].
  - apply NoDup_cons in Hnd as [Hk0 Hnd].
    change (StronglySorted (fun a b => goes_before b a = false)
              (k0 :: map fst props)) in Hs.
    apply StronglySorted_inv in Hs as [Hs Hall].
    rewrite Forall_forall in Hall.
    destruct (String.eqb_spec k0 k) as [->|Hne]; simpl.
    + split; [now apply NoDup_cons|]. constructor; [exact Hs|].
      now apply Forall_forall.
    + destruct (goes_before k k0) eqn:Eg; simpl.
      * assert (Hrest : forall x, x ∈ map fst props -> goes_before x k = false).
        { intros x Hx. destruct (goes_before x k) eqn:E; [|reflexivity].
          pose proof (goes_before_trans _ _ _ E Eg) as Ht.
          specialize (Hall x Hx). simpl in Hall. congruence. }
        split.
        -- apply NoDup_cons. split; [|now apply NoDup_cons].
           intros Hin. apply elem_of_cons in Hin as [->|Hin]; [congruence|].
           specialize (Hall k Hin). congruence.
        -- constructor; [constructor; [exact Hs | now apply Forall_forall]|].
           apply Forall_forall. intros x Hx.
           apply elem_of_cons in Hx as [->|Hx];
             [now apply goes_before_asym | now apply Hrest].
      * destruct (IH Hnd Hs) as [Hnd' Hs']. split.
        -- apply NoDup_cons. split; [|exact Hnd'].
           intros Hin. destruct (keys_obj_set _ _ _ _ Hin) as [->|H]; congruence.
        -- constructor; [exact Hs'|]. apply Forall_forall. intros x Hx.
           destruct (keys_obj_set _ _ _ _ Hx) as [->|H]; [exact Eg | now apply Hall].
Qed.

Lemma obj_assign_keys (target entries : list (string * A)) :
  NoDup (map fst target) ->
  StronglySorted (fun a b => goes_before b a = false) (map fst target) ->
  NoDup (map fst (obj_assign target entries)) /\
  forall x, x ∈ map fst (obj_assign target entries) ->
            x ∈ map fst target \/ x ∈ map fst entries.
Proof.
  unfold obj_assign. revert target.
  induction entries as [|[k v] entries IH]; intros target Hnd Hs; simpl.
  - split; [exact Hnd | now left].
  - destruct (obj_set_keys k v target Hnd Hs) as [Hnd' Hs'].
    destruct (IH _ Hnd' Hs') as [Hnd'' Hkeys]. split; [exact Hnd''|].
    intros x Hx. destruct (Hkeys x Hx) as [H|H].
    + destruct (keys_obj_set _ _ _ _ H) as [->|H']; [right; left | now left].
    + right. now right.
Qed.

Lemma forallb_obj_set (p : string * A -> bool) (k : string) (v : A)
    (props : list (string * A)) :
  p (k, v) = true -> forallb p props = true -> forallb p (obj_set k v props) = true.
Proof.
  intros Hp. induction props as [|[k0 v0] props IH]; simpl.
  - now rewrite Hp.
  - rewrite andb_true_iff. intros [H0 Hrest].
    destruct (String.eqb k0 k); simpl; [now rewrite Hp|].
    destruct (goes_before k k0); simpl.
    + now rewrite Hp, H0.
    + now rewrite H0, IH.
Qed.

Lemma forallb_obj_assign (p : string * A -> bool)
    (target entries : list (string * A)) :
  forallb p target = true -> forallb p entries = true ->
  forallb p (obj_assign target entries) = true.
Proof.
  unfold obj_assign. revert target.
  induction entries as [|[k v] entries IH]; intros target Ht; simpl; [auto|].
  rewrite andb_true_iff. intros [Hkv He].
  apply IH; [|exact He]. now apply forallb_obj_set.
Qed.

Lemma assoc_In (k : string) (v : A) (props : list (string * A)) :
  assoc k props = Some v -> In (k, v) props.
Proof.
  induction props as [|[k0 v0] props IH]; simpl; [discriminate|].
  destruct (String.eqb_spec k0 k) as [->|Hne].
  - intros H. injection H as ->. now left.
  - intros H. right. auto.
Qed.

(** In an object the entries whose key passes a test that only [k] passes
    are the one entry of [k]. *)
Lemma filter_only_key (p : string -> bool) (k : string) (v : A)
    (props : list (string * A)) :
  NoDup (map fst props) ->
  assoc k props = Some v ->
  p k = true ->
  (forall x, x ∈ map fst props -> p x = true -> x = k) ->
  List.filter (fun entry => p (fst entry)) props = [(k, v)].
Proof.
  induction props as [|[k0 v0] props IH]; simpl; [discriminate|].
  intros Hnd Hassoc Hpk Honly. apply NoDup_cons in Hnd as [Hk0 Hnd].
  destruct (String.eqb_spec k0 k) as [->|Hne].
  - injection Hassoc as ->. rewrite Hpk. f_equal.
    assert (Hnone : forallb (fun entry : string * A => negb (p (fst entry))) props = true).
    { apply forallb_forall. intros [x y] Hin. simpl.
      destruct (p x) eqn:Ex; [|reflexivity]. exfalso. apply Hk0.
      assert (Hx : x ∈ map fst props).
      { apply list_elem_of_In, in_map_iff. now exists (x, y). }
      rewrite <- (Honly x); [exact Hx | now right | exact Ex]. }
    clear -Hnone. induction props as [|e props IH]; simpl in *; [reflexivity|].
    apply andb_true_iff in Hnone as [He Hrest].
    apply negb_true_iff in He. rewrite He. auto.
  - destruct (p k0) eqn:E0.
    + exfalso. apply Hne. apply Honly; [left | exact E0].
    + apply IH; try assumption. intros x Hx. apply Honly. now right.
Qed.

End ObjectKeyFacts.

(** ** The body of the event *)
Section BodyFacts.
Context `{rt : Runtime}.

(** Reading the body returns, whatever the request, and leaves the world as
    it is: a failure to parse is caught on the spot. *)
Lemma parse_body_returns (request : Request) (w : World) :
  exists b, parse_body request w = (Returned b, w).
Proof.
  unfold parse_body, try_catch, request_json, request_formData, request_text,
    JSON_parse_text, bind, ret, throw.
  repeat (destruct (JsString.includes _ _)); simpl;
    repeat (match goal with
            | |- context [match ?x with Some _ => _ | None => _ end] => destruct x
            end; simpl); eauto.
Qed.

(** C2, as amended.  The body of the normalized event is chosen by the
    declared content type, in this order: if it contains
    [application/json], the parsed JSON value, or null when the payload
    does not parse; else if it contains
    [application/x-www-form-urlencoded], an object with one string-valued
    property per form field name (the last field of a name wins), or null
    when the form cannot be read; else if it contains [text/] (anywhere in
    the declared type, not only at its start), the raw text; otherwise the
    payload as text, null when it is empty.  Reading the body always
    returns and changes nothing: no failure reaches the caller. *)
Theorem parse_body_policy (request : Request) (uuid eventId : string)
    (timestamp : Z) (w : World) :
  let declared := content_type_of request in
  exists b,
    parse_body request w = (Returned b, w) /\
    get_prop (webhook_event request uuid b timestamp eventId) "body" = Some b /\
    (JsString.occurs_in "application/json" declared ->
     b = match JSON_parse (payload request) with Some v => v | None => JNull end) /\
    (~ JsString.occurs_in "application/json" declared ->
     JsString.occurs_in "application/x-www-form-urlencoded" declared ->
     match formData declared (payload request) with
     | Some fields =>
         exists props, b = JObj props /\
           forall k, assoc k props = JStr <$> assoc k (rev fields)
     | None => b = JNull
     end) /\
    (~ JsString.occurs_in "application/json" declared ->
     ~ JsString.occurs_in "application/x-www-form-urlencoded" declared ->
     JsString.occurs_in "text/" declared ->
     b = JStr (payload request)) /\
    (~ JsString.occurs_in "application/json" declared ->
     ~ JsString.occurs_in "application/x-www-form-urlencoded" declared ->
     ~ JsString.occurs_in "text/" declared ->
     b = match payload request with
         | EmptyString => JNull
         | text => JStr text
         end).
Proof.
  intros declared.
  unfold parse_body, try_catch, request_json, request_formData, request_text,
    JSON_parse_text, bind, ret, throw. fold declared.
  destruct (JsString.includes declared "application/json") eqn:Ej.
  { apply includes_spec in Ej.
    exists (match JSON_parse (payload request) with Some v => v | None => JNull end).
    split; [destruct (JSON_parse (payload request)); reflexivity|].
    split; [reflexivity|]. repeat split; tauto. }
  apply includes_false in Ej.
  destruct (JsString.includes declared "application/x-www-form-urlencoded") eqn:Ef.
  { apply includes_spec in Ef.
    exists (match formData declared (payload request) with
            | Some fields => JObj (fromEntries (string_props fields))
            | None => JNull
            end).
    split; [destruct (formData declared (payload request)); reflexivity|].
    split; [reflexivity|]. repeat split; try tauto.
    intros _ _. destruct (formData declared (payload request)) as [fields|];
      [|reflexivity].
    eexists; split; [reflexivity|]. intros k. unfold fromEntries.
    rewrite assoc_obj_assign, rev_string_props, assoc_string_props. simpl.
    destruct (assoc k (rev fields)); reflexivity. }
  apply includes_false in Ef.
  destruct (JsString.includes declared "text/") eqn:Et.
  { apply includes_spec in Et. exists (JStr (payload request)).
    repeat split; tauto. }
  apply includes_false in Et.
  exists (if JsString.nonempty (payload request)
          then JStr (payload request) else JNull).
  repeat split; try tauto.
  intros _ _ _. destruct (payload request); reflexivity.
Qed.

End BodyFacts.

(** ** The log as a sorted set *)
Section LogFacts.

(** The rank order is a strict total order on entries of distinct
    members. *)
Lemma ascii_compare_refl (c : ascii) : Ascii.compare c c = Eq.
Proof. unfold Ascii.compare. apply N.compare_refl. Qed.

Lemma ascii_compare_lt_trans (a b c : ascii) :
  Ascii.compare a b = Lt -> Ascii.compare b c = Lt -> Ascii.compare a c = Lt.
Proof.
  unfold Ascii.compare. rewrite !N.compare_lt_iff. apply N.lt_trans.
Qed.

Lemma string_compare_lt_trans (a b c : string) :
  String.compare a b = Lt -> String.compare b c = Lt -> String.compare a c = Lt.
Proof.
  revert b c. induction a as [|x a IH]; intros [|y b] [|z c]; simpl;
    try discriminate; try reflexivity.
  destruct (Ascii.compare x y) eqn:Exy; try discriminate;
    destruct (Ascii.compare y z) eqn:Eyz; try discriminate; intros H1 H2.
  - apply Ascii.compare_eq_iff in Exy, Eyz. subst.
    rewrite ascii_compare_refl. now apply (IH b c).
  - apply Ascii.compare_eq_iff in Exy. subst. now rewrite Eyz.
  - apply Ascii.compare_eq_iff in Eyz. subst. now rewrite Exy.
  - now rewrite (ascii_compare_lt_trans x y z).
Qed.

Lemma string_ltb_trans (a b c : string) :
  String.ltb a b = true -> String.ltb b c = true -> String.ltb a c = true.
Proof.
  unfold String.ltb.
  destruct (String.compare a b) eqn:E1; try discriminate.
  destruct (String.compare b c) eqn:E2; try discriminate.
  now rewrite (string_compare_lt_trans a b c).
Qed.

Lemma string_ltb_total (a b : string) :
  String.ltb a b = false -> a <> b -> String.ltb b a = true.
Proof.
  unfold String.ltb. rewrite (String.compare_antisym b a).
  destruct (String.compare a b) eqn:E; simpl; try discriminate; try reflexivity.
  intros _ Hne. apply String.compare_eq_iff in E. contradiction.
Qed.

Lemma ranks_below_trans (a b c : Z * string) :
  ranks_below a b -> ranks_below b c -> ranks_below a c.
Proof.
  unfold ranks_below, entry_ltb.
  rewrite !orb_true_iff, !andb_true_iff, !Z.ltb_lt, !Z.eqb_eq.
  intros [H1|[H1 S1]] [H2|[H2 S2]].
  - left. lia.
  - left. lia.
  - left. lia.
  - right. split; [lia|]. now apply (string_ltb_trans _ (snd b)).
Qed.

Lemma ranks_below_total (a b : Z * string) :
  entry_ltb a b = false -> snd a <> snd b -> ranks_below b a.
Proof.
  unfold ranks_below, entry_ltb.
  rewrite orb_false_iff, andb_false_iff, orb_true_iff, andb_true_iff.
  rewrite Z.ltb_ge, Z.eqb_neq, Z.ltb_lt, Z.eqb_eq.
  intros [H1 [H2|H2]] Hne.
  - left. lia.
  - destruct (Z.eq_dec (fst a) (fst b)) as [E|E].
    + right. split; [lia|]. now apply string_ltb_total.
    + left. lia.
Qed.

Lemma ranks_below_score (a b : Z * string) : ranks_below a b -> fst a <= fst b.
Proof.
  unfold ranks_below, entry_ltb.
  rewrite orb_true_iff, andb_true_iff, Z.ltb_lt, Z.eqb_eq. intros [H|[H _]]; lia.
Qed.

Lemma length_insert_entry (x : Z * string) (l : zset) :
  length (insert_entry x l) = S (length l).
Proof.
  induction l as [|y l IH]; simpl; [reflexivity|].
  destruct (entry_ltb x y); simpl; [reflexivity | now rewrite IH].
Qed.

Lemma insert_entry_perm (x : Z * string) (l : zset) :
  Permutation (insert_entry x l) (x :: l).
Proof.
  induction l as [|y l IH]; simpl; [reflexivity|].
  destruct (entry_ltb x y); [reflexivity|].
  rewrite IH. apply perm_swap.
Qed.

(** Inserting a new member keeps the rank order. *)
Lemma insert_entry_well_formed (x : Z * string) (l : zset) :
  well_formed l ->
  snd x ∉ map snd l ->
  well_formed (insert_entry x l).
Proof.
  unfold well_formed. intros Hs Hfresh.
  induction Hs as [|y l Hs IH Hy]; simpl.
  - repeat constructor.
  - destruct (entry_ltb x y) eqn:E.
    + constructor; [now constructor|].
      constructor; [exact E|].
      eapply Forall_impl; [exact Hy|].
      intros z Hz. now apply (ranks_below_trans x y z).
    + assert (Hyx : ranks_below y x).
      { apply ranks_below_total; [exact E|].
        intros Heq. apply Hfresh. simpl. rewrite Heq. left. }
      constructor.
      * apply IH. intros Hin. apply Hfresh. simpl. now right.
      * rewrite (Forall_forall (ranks_below y)).
        intros z Hz. rewrite insert_entry_perm in Hz.
        apply elem_of_cons in Hz as [->|Hz]; [exact Hyx|].
        rewrite Forall_forall in Hy. now apply Hy.
Qed.

(** Inserting into a sorted set split in two: the entry goes into the
    lower part when it ranks below one of its entries, into the upper part
    otherwise. *)
Lemma insert_entry_app (x : Z * string) (d k : zset) :
  insert_entry x (d ++ k) =
  if existsb (entry_ltb x) d
  then (insert_entry x d ++ k)%list
  else (d ++ insert_entry x k)%list.
Proof.
  induction d as [|y d IH]; simpl; [reflexivity|].
  destruct (entry_ltb x y); simpl; [reflexivity|].
  rewrite IH. destruct (existsb (entry_ltb x) d); reflexivity.
Qed.

(** Trimming before an insertion does not change what the trim after it
    keeps. *)
Lemma newest_insert_newest (n : nat) (x : Z * string) (l : zset) :
  well_formed l ->
  newest n (insert_entry x (newest n l)) = newest n (insert_entry x l).
Proof.
  intros Hs. change (newest n l) with (drop (length l - n) l).
  destruct (Nat.le_gt_cases (length l) n) as [Hle|Hgt].
  { replace (length l - n)%nat with 0%nat by lia. reflexivity. }
  pose proof (take_drop (length l - n) l) as Hl.
  assert (Hk : length (drop (length l - n) l) = n) by (rewrite length_drop; lia).
  assert (Hd : (0 < length (take (length l - n) l))%nat)
    by (rewrite length_take; lia).
  revert Hl Hk Hd.
  generalize (drop (length l - n) l) as k, (take (length l - n) l) as d.
  intros k d Hl Hk Hd. subst l. rewrite insert_entry_app.
  destruct (existsb (entry_ltb x) d) eqn:E.
  - apply existsb_exists in E as (y & Hy & Hxy).
    assert (Hxk : Forall (ranks_below x) k).
    { unfold well_formed in Hs.
      rewrite Forall_forall. intros z Hz.
      apply (ranks_below_trans x y z); [exact Hxy|].
      apply (StronglySorted_app_1_elem_of _ _ _ _ _ Hs);
        [now apply list_elem_of_In | exact Hz]. }
    assert (Hins : insert_entry x k = x :: k).
    { destruct k as [|z k']; [reflexivity|]. simpl.
      apply Forall_cons in Hxk as [Hxz _]. unfold ranks_below in Hxz.
      now rewrite Hxz. }
    rewrite Hins.
    transitivity k.
    + unfold newest. simpl. rewrite Hk.
      replace (S n - n)%nat with 1%nat by lia. reflexivity.
    + unfold newest. rewrite length_app, length_insert_entry, Hk.
      replace (S (length d) + n - n)%nat with (length (insert_entry x d))
        by (rewrite length_insert_entry; lia).
      now rewrite drop_app_length.
  - unfold newest. rewrite length_app, !length_insert_entry, Hk.
    rewrite drop_app_ge by lia.
    f_equal. lia.
Qed.

Lemma newest_well_formed (n : nat) (l : zset) :
  well_formed l -> well_formed (newest n l).
Proof.
  unfold well_formed, newest. intros Hs.
  rewrite <- (take_drop (length l - n) l) in Hs.
  now apply StronglySorted_app_1_r in Hs.
Qed.

Lemma zrem_absent (member : string) (l : zset) :
  member ∉ map snd l -> zrem member l = l.
Proof.
  intros H. unfold zrem. apply forallb_filter_id, forallb_forall.
  intros e He. apply negb_true_iff, String.eqb_neq. intros Heq.
  apply H. rewrite <- Heq. apply list_elem_of_In. now apply in_map.
Qed.

Lemma insert_entry_top (x : Z * string) (l : zset) :
  (forall y, y ∈ l -> fst y < fst x) -> insert_entry x l = (l ++ [x])%list.
Proof.
  induction l as [|y l IH]; intros H; simpl; [reflexivity|].
  assert (Hy : fst y < fst x) by (apply H; left).
  unfold entry_ltb.
  replace (fst x <? fst y) with false by (symmetry; apply Z.ltb_ge; lia).
  replace (fst x =? fst y) with false by (symmetry; apply Z.eqb_neq; lia).
  simpl. f_equal. apply IH. intros z Hz. apply H. now right.
Qed.

(** Adding a new member under a score above all others puts it last. *)
Lemma zadd_fresh_top (score : Z) (member : string) (l : zset) :
  (forall y, y ∈ l -> fst y < score) ->
  member ∉ map snd l ->
  zadd score member l = (l ++ [(score, member)])%list.
Proof.
  intros Hlt Hfresh. unfold zadd. rewrite zrem_absent by assumption.
  now apply insert_entry_top.
Qed.

Lemma rank_range_trim (n : nat) :
  (50 < n)%nat ->
  rank_range (Z.of_nat n) 0 (Z.of_nat n - 51) = (0%nat, (n - 50)%nat).
Proof.
  intros H. unfold rank_range. simpl.
  assert (E1 : (Z.of_nat n - 51 <? 0) = false) by (apply Z.ltb_ge; lia).
  assert (E2 : (Z.of_nat n <=? 0) = false) by (apply Z.leb_gt; lia).
  assert (E3 : (Z.of_nat n <=? Z.of_nat n - 51) = false) by (apply Z.leb_gt; lia).
  rewrite ?E1, ?E2, ?E3. simpl. rewrite ?E1, ?E2, ?E3. simpl. f_equal; lia.
Qed.

(** The trim of [capture_log] keeps the last 50 entries. *)
Lemma trim_newest (l : zset) :
  (if 50 <? zcard l then zremrangebyrank 0 (zcard l - 51) l else l) = newest 50 l.
Proof.
  unfold newest, zcard. destruct (50 <? Z.of_nat (length l)) eqn:E.
  - apply Z.ltb_lt in E. unfold zremrangebyrank, zcard.
    rewrite rank_range_trim by lia. simpl. reflexivity.
  - apply Z.ltb_ge in E.
    replace (length l - 50)%nat with 0%nat by lia. reflexivity.
Qed.

Lemma capture_log_fresh_top (timestamp : Z) (member : string) (l : zset) :
  (forall y, y ∈ l -> fst y < timestamp) ->
  member ∉ map snd l ->
  capture_log timestamp member l = newest 50 (l ++ [(timestamp, member)]).
Proof.
  intros Hlt Hfresh. unfold capture_log.
  rewrite zadd_fresh_top by assumption. apply trim_newest.
Qed.

(** Whatever the score, a capture of a new member inserts it and keeps the
    50 highest ranks. *)
Lemma capture_log_fresh (timestamp : Z) (member : string) (l : zset) :
  member ∉ map snd l ->
  capture_log timestamp member l = newest 50 (insert_entry (timestamp, member) l).
Proof.
  intros Hfresh. unfold capture_log, zadd.
  rewrite zrem_absent by assumption. apply trim_newest.
Qed.

Lemma insert_all_perm (es : list (Z * string)) (l : zset) :
  Permutation (insert_all es l) (l ++ es).
Proof.
  revert l. induction es as [|e es IH]; intros l; simpl.
  - now rewrite app_nil_r.
  - unfold insert_all in *. simpl. rewrite IH, insert_entry_perm.
    simpl. apply Permutation_middle.
Qed.

Lemma fresh_head (e : Z * string) (es : list (Z * string)) (l : zset) :
  NoDup (map snd (l ++ e :: es)) -> snd e ∉ map snd l.
Proof.
  rewrite map_app. intros H Hin.
  apply NoDup_app in H as (_ & Hdisj & _).
  apply (Hdisj _ Hin). simpl. left.
Qed.

Lemma fresh_tail (e : Z * string) (es : list (Z * string)) (l : zset) :
  NoDup (map snd (l ++ e :: es)) -> NoDup (map snd (insert_entry e l ++ es)).
Proof.
  intros H.
  assert (Hperm : Permutation (insert_entry e l ++ es) (l ++ e :: es)).
  { rewrite insert_entry_perm. simpl. apply Permutation_middle. }
  apply (Permutation_map snd) in Hperm.
  rewrite NoDup_ListNoDup in *.
  eapply Permutation_NoDup; [symmetry; exact Hperm | exact H].
Qed.

Lemma insert_all_well_formed (es : list (Z * string)) (l : zset) :
  well_formed l ->
  NoDup (map snd (l ++ es)) ->
  well_formed (insert_all es l).
Proof.
  revert l. induction es as [|e es IH]; intros l Hs Hfresh; simpl; [exact Hs|].
  unfold insert_all in *. simpl. apply IH.
  - apply insert_entry_well_formed; [exact Hs | now apply (fresh_head e es)].
  - now apply fresh_tail.
Qed.

Lemma newest_app_newest {A : Type} (n : nat) (a b : list A) :
  newest n (newest n a ++ b) = newest n (a ++ b).
Proof.
  unfold newest.
  destruct (Nat.le_gt_cases (length a) n) as [Hle|Hgt].
  - replace (length a - n)%nat with 0%nat by lia. reflexivity.
  - rewrite !length_app, length_drop.
    replace (length a - (length a - n) + length b - n)%nat with (length b) by lia.
    rewrite (drop_app (drop _ a)), drop_drop, length_drop.
    rewrite (drop_app a).
    f_equal; f_equal; lia.
Qed.

Lemma newest_sublist {A : Type} (n : nat) (l : list A) : sublist (newest n l) l.
Proof. apply sublist_drop. Qed.

End LogFacts.

(** ** Running the server code *)
Section ServerFacts.
Context `{rt : Runtime}.

Local Open Scope js_scope.

Lemma zset_at_with_zset (key : string) (l : zset) (s : Store) :
  zset_at key (with_zset key l s) = l.
Proof. unfold zset_at, with_zset. simpl. now rewrite lookup_insert_eq. Qed.

Lemma zset_at_with_zset_ne (key key' : string) (l : zset) (s : Store) :
  key <> key' -> zset_at key' (with_zset key l s) = zset_at key' s.
Proof. intros H. unfold zset_at, with_zset. simpl. now rewrite lookup_insert_ne. Qed.

(** The append-and-trim step, when the store answers: the computation goes
    on in a world that differs in the log of the endpoint only. *)
Lemma store_phase {A : Type} (uuid : string) (timestamp : Z) (member : string)
    (k : M A) (w : World) :
  storage_up w uuid = true ->
  exists w',
    (redis_zadd (events_key uuid) timestamp member ;;;
     count <- redis_zcard (events_key uuid) ;;
     (if 50 <? count
      then redis_zremrangebyrank (events_key uuid) 0 (count - 51)
      else ret tt) ;;;
     k) w = k w' /\
    log_of uuid w' = capture_log timestamp member (log_of uuid w) /\
    texts (store w') = texts (store w) /\
    published w' = published w /\
    console w' = console w /\
    outage w' = outage w /\
    (forall key, key <> events_key uuid ->
                 zset_at key (store w') = zset_at key (store w)).
Proof.
  unfold storage_up. rewrite !andb_true_iff, !negb_true_iff.
  intros [[Ha Hc] Hr].
  unfold bind, redis_zadd, redis_zcard, redis_zremrangebyrank, network, ret,
    log_of, capture_log.
  rewrite Ha. simpl. rewrite Hc. simpl. rewrite zset_at_with_zset.
  destruct (50 <? zcard (zadd timestamp member (zset_at (events_key uuid) (store w))))
    eqn:E; simpl.
  - rewrite Hr. simpl. rewrite zset_at_with_zset.
    eexists; split; [reflexivity|]. simpl.
    rewrite zset_at_with_zset. repeat split.
    intros key Hne. now rewrite !zset_at_with_zset_ne.
  - eexists; split; [reflexivity|]. simpl.
    rewrite zset_at_with_zset. repeat split.
    intros key Hne. now rewrite !zset_at_with_zset_ne.
Qed.

(** Reading the settings of an endpoint: the three ways to [null], and the
    value otherwise. *)
Lemma getWebhookSettings_outage (uuid : string) (w : World) :
  outage w (GET (settings_key uuid)) = true ->
  fst (getWebhookSettings uuid w) = Returned JNull.
Proof.
  intros H. unfold getWebhookSettings, try_catch, bind, redis_get, network.
  rewrite H. reflexivity.
Qed.

Lemma getWebhookSettings_absent (uuid : string) (w : World) :
  settings_text uuid w = None ->
  fst (getWebhookSettings uuid w) = Returned JNull.
Proof.
  unfold settings_text. intros H.
  unfold getWebhookSettings, try_catch, bind, redis_get, network.
  destruct (outage w (GET (settings_key uuid))); [reflexivity|].
  rewrite H. reflexivity.
Qed.

Lemma getWebhookSettings_unparsable (uuid t text : string) (w : World) :
  settings_text uuid w = Some t ->
  deserialize t = JStr text ->
  JSON_parse text = None ->
  fst (getWebhookSettings uuid w) = Returned JNull.
Proof.
  unfold settings_text. intros Ht Hd Hp.
  unfold getWebhookSettings, try_catch, bind, redis_get, network.
  destruct (outage w (GET (settings_key uuid))); [reflexivity|].
  rewrite Ht, Hd. simpl.
  destruct (JsString.nonempty text); [|reflexivity].
  unfold JSON_parse_text. rewrite Hp. reflexivity.
Qed.

Lemma getWebhookSettings_object (uuid t : string) (props : list (string * json))
    (w : World) :
  outage w (GET (settings_key uuid)) = false ->
  settings_text uuid w = Some t ->
  JSON_parse t = Some (JObj props) ->
  getWebhookSettings uuid w = (Returned (JObj props), w).
Proof.
  unfold settings_text. intros Ho Ht Hp.
  unfold getWebhookSettings, try_catch, bind, redis_get, network, deserialize.
  rewrite Ho, Ht, Hp. simpl. unfold ret. destruct w; reflexivity.
Qed.

(** Reading the settings always returns, and its answer depends on the
    settings text and on the state of the [GET] call only. *)
Lemma getWebhookSettings_returns (uuid : string) (w : World) :
  exists v, fst (getWebhookSettings uuid w) = Returned v.
Proof.
  unfold getWebhookSettings, try_catch, bind, redis_get, network, JSON_parse_text.
  destruct (outage w (GET (settings_key uuid))); simpl; [eauto|].
  destruct (truthy _); simpl; [|eauto].
  match goal with |- context [match ?v with JStr _ => _ | _ => _ end] =>
    destruct v end; simpl; eauto.
  destruct (JSON_parse s); simpl; eauto.
Qed.

Lemma getWebhookSettings_same (uuid : string) (w w' : World) :
  outage w' = outage w ->
  texts (store w') = texts (store w) ->
  fst (getWebhookSettings uuid w') = fst (getWebhookSettings uuid w).
Proof.
  intros Ho Ht.
  unfold getWebhookSettings, try_catch, bind, redis_get, network, JSON_parse_text.
  rewrite Ho, Ht.
  destruct (outage w (GET (settings_key uuid))); simpl; [reflexivity|].
  destruct (truthy _); simpl; [|reflexivity].
  match goal with |- context [match ?v with JStr _ => _ | _ => _ end] =>
    destruct v end; simpl; try reflexivity.
  destruct (JSON_parse s); reflexivity.
Qed.

Lemma getWebhookSettings_keeps (uuid : string) (w : World) :
  let w' := snd (getWebhookSettings uuid w) in
  store w' = store w /\ published w' = published w /\ outage w' = outage w.
Proof.
  unfold getWebhookSettings, try_catch, bind, redis_get, network, JSON_parse_text.
  destruct (outage w (GET (settings_key uuid))); simpl; [auto|].
  destruct (truthy _); simpl; [|auto].
  match goal with |- context [match ?v with JStr _ => _ | _ => _ end] =>
    destruct v end; simpl; auto.
  destruct (JSON_parse s); simpl; auto.
Qed.

(** A capture whose append, trim and publish go through: the log holds the
    event, the event is published once, and the response is the configured
    one when the settings read gives a truthy value, the default one
    otherwise. *)
Lemma NextResponse_json_default :
  NextResponse_json
    (Some (JObj [("success", JBool true); ("message", JStr "Webhook received")]))
    (Some (JNum 200)) [] = Returned default_response.
Proof. reflexivity. Qed.

Lemma NextResponse_json_error :
  NextResponse_json
    (Some (JObj [("success", JBool false);
                 ("error", JStr "Internal server error")]))
    (Some (JNum 500)) [] = Returned error_response.
Proof. reflexivity. Qed.

(** The handler with its two fixed answers built. *)
Lemma handleWebhook_answers (request : Request) (uuid : string) (timestamp : Z)
    (eventId : string) :
  handleWebhook request uuid timestamp eventId =
  try_catch
    (body <- parse_body request ;;
     let webhookEvent := webhook_event request uuid body timestamp eventId in
     let redisKey := events_key uuid in
     redis_zadd redisKey timestamp (JSON_stringify webhookEvent) ;;;
     count <- redis_zcard redisKey ;;
     (if 50 <? count
      then redis_zremrangebyrank redisKey 0 (count - 51)
      else ret tt) ;;;
     realtime_emit ("webhook:" ++ uuid) "webhook.received" webhookEvent ;;;
     settings <- getWebhookSettings uuid ;;
     if truthy settings
     then returning (custom_response settings)
     else ret default_response)
    (fun error =>
       console_error "Error processing webhook:" error ;;;
       ret error_response).
Proof. reflexivity. Qed.

(** The last step of a capture that went through, in the world [w]: the
    answer, and the failure logged when the platform refuses the
    configured response. *)
Lemma respond_with (settings : json) (w : World) :
  let '(r, w') :=
    try_catch
      (if truthy settings
       then returning (custom_response settings)
       else ret default_response)
      (fun error =>
         console_error "Error processing webhook:" error ;;;
         ret error_response) w in
  r = Returned (response_for settings) /\
  store w' = store w /\ published w' = published w /\ outage w' = outage w.
Proof.
  unfold try_catch, response_for, returning.
  destruct (truthy settings); [|now repeat split].
  destruct (custom_response settings) as [a|e]; now repeat split.
Qed.

Lemma handleWebhook_captured (request : Request) (uuid : string) (timestamp : Z)
    (eventId : string) (w : World) (b settings : json) :
  storage_up w uuid = true ->
  channel_up w uuid = true ->
  parse_body request w = (Returned b, w) ->
  fst (getWebhookSettings uuid w) = Returned settings ->
  let event := webhook_event request uuid b timestamp eventId in
  let '(r, w') := handleWebhook request uuid timestamp eventId w in
  r = Returned (response_for settings) /\
  log_of uuid w' = capture_log timestamp (JSON_stringify event) (log_of uuid w) /\
  published w' = (published w ++ [capture_message uuid event])%list /\
  texts (store w') = texts (store w) /\
  outage w' = outage w.
Proof.
  intros Hs Hc Hb Hg event.
  rewrite handleWebhook_answers.
  unfold try_catch. unfold bind at 1. rewrite Hb.
  fold event.
  match goal with
  | |- context [(redis_zadd _ _ _ ;;; count <- _ ;; _ ;;; ?k) w] =>
      destruct (store_phase uuid timestamp (JSON_stringify event) k w Hs)
        as (w1 & -> & Hlog & Htexts & Hpub & Hcon & Hout & _)
  end.
  unfold channel_up in Hc. rewrite negb_true_iff, <- Hout in Hc.
  unfold bind at 1. unfold realtime_emit at 1. rewrite Hc.
  set (w2 := {| store := store w1; published := _; console := console w1;
                outage := outage w1 |}).
  assert (Hg2 : fst (getWebhookSettings uuid w2) = Returned settings).
  { rewrite <- Hg. apply getWebhookSettings_same; simpl; congruence. }
  destruct (getWebhookSettings_keeps uuid w2) as (Hst & Hpb & Hou).
  unfold bind. destruct (getWebhookSettings uuid w2) as [r3 w3].
  simpl in Hg2, Hst, Hpb, Hou. subst r3.
  pose proof (respond_with settings w3) as Hlast.
  unfold try_catch in Hlast.
  destruct ((if truthy settings
             then returning (custom_response settings)
             else ret default_response) w3) as [[a|e] w4];
    cbn [bind console_error ret] in Hlast |- *;
    destruct Hlast as (Hr & Hst4 & Hpb4 & Hou4);
    (split; [exact Hr|]);
    unfold log_of in *; cbn [store published outage] in *;
    rewrite ?Hst4, ?Hpb4, ?Hou4, Hst, Hpb, Hou; simpl;
    rewrite Hpub; repeat split; congruence.
Qed.

(** C5.  A capture to an endpoint that has no settings record, or whose
    settings read fails, is answered with status 200 and the body
    [{success: true, message: "Webhook received"}]. *)
Theorem default_response_without_settings (request : Request) (uuid : string)
    (timestamp : Z) (eventId : string) (w : World) :
  storage_up w uuid = true ->
  channel_up w uuid = true ->
  settings_text uuid w = None \/ outage w (GET (settings_key uuid)) = true ->
  fst (handleWebhook request uuid timestamp eventId w) = Returned default_response /\
  status default_response = Some (JNum 200) /\
  body default_response =
    Some (JObj [("success", JBool true); ("message", JStr "Webhook received")]).
Proof.
  intros Hs Hc Hcase.
  destruct (parse_body_returns request w) as [b Hb].
  assert (Hg : fst (getWebhookSettings uuid w) = Returned JNull).
  { destruct Hcase as [H|H];
      [now apply getWebhookSettings_absent | now apply getWebhookSettings_outage]. }
  pose proof (handleWebhook_captured request uuid timestamp eventId w b JNull
                Hs Hc Hb Hg) as H.
  destruct (handleWebhook request uuid timestamp eventId w) as [r w'].
  destruct H as (-> & _). simpl. repeat split.
Qed.

(** C10.  When the value read for the settings of an endpoint is a string
    that is not valid JSON, [getWebhookSettings] returns null and does not
    throw, and a capture to that endpoint is answered with the default 200
    acknowledgement. *)
Theorem unparsable_settings_fall_back (request : Request) (uuid : string)
    (timestamp : Z) (eventId : string) (w : World) (t text : string) :
  settings_text uuid w = Some t ->
  deserialize t = JStr text ->
  JSON_parse text = None ->
  fst (getWebhookSettings uuid w) = Returned JNull /\
  (storage_up w uuid = true -> channel_up w uuid = true ->
   fst (handleWebhook request uuid timestamp eventId w) = Returned default_response).
Proof.
  intros Ht Hd Hp.
  pose proof (getWebhookSettings_unparsable uuid t text w Ht Hd Hp) as Hg.
  split; [exact Hg|]. intros Hs Hc.
  destruct (parse_body_returns request w) as [b Hb].
  pose proof (handleWebhook_captured request uuid timestamp eventId w b JNull
                Hs Hc Hb Hg) as H.
  destruct (handleWebhook request uuid timestamp eventId w) as [r w'].
  now destruct H as (-> & _).
Qed.

Lemma settings_object_is_settings (s : WebhookSettings) :
  is_settings (settings_object s) s.
Proof. eexists. repeat split. Qed.

(** The configured response of a settings record that the platform
    accepts. *)
Lemma custom_response_accepted (props : list (string * json))
    (s : WebhookSettings) :
  assoc "responseStatus" props = Some (JNum (responseStatus s)) ->
  assoc "responseBody" props = Some (JStr (responseBody s)) ->
  assoc "responseHeaders" props = Some (JObj (string_props (responseHeaders s))) ->
  200 <= responseStatus s <= 599 ->
  null_body_status (responseStatus s) = false ->
  forallb accepted_header (string_props (responseHeaders s)) = true ->
  custom_response (JObj props) =
  Returned
    {| body := Some (match JSON_parse (responseBody s) with
                     | Some parsed => parsed
                     | None => JStr (responseBody s)
                     end);
       status := Some (JNum (responseStatus s));
       response_headers :=
         obj_assign [("Content-Type", JStr "application/json")]
                    (string_props (responseHeaders s)) |}.
Proof.
  intros Hstatus Hbody Hheaders Hrange Hnull Hvalid.
  unfold custom_response. cbn [get_prop]. rewrite Hstatus, Hbody, Hheaders.
  cbn [spread_props jsval_to_String to_String].
  unfold NextResponse_json. cbn [to_unsigned_short].
  rewrite Z.mod_small by lia.
  assert (Hlow : (responseStatus s <? 200) = false) by (apply Z.ltb_ge; lia).
  assert (Hhigh : (599 <? responseStatus s) = false) by (apply Z.ltb_ge; lia).
  rewrite (forallb_obj_assign accepted_header
             [("Content-Type", JStr "application/json")]
             (string_props (responseHeaders s)) eq_refl Hvalid).
  cbn [negb].
  destruct (JSON_parse (responseBody s));
    rewrite Hlow, Hhigh, Hnull; reflexivity.
Qed.

Lemma normalize_header_of (entry : string * string) :
  header_of (fst entry, JStr (snd entry)) = (fst entry, normalize_value (snd entry)).
Proof. reflexivity. Qed.

Lemma filter_header_of (p : string -> bool) (entries : list (string * json)) :
  List.filter (fun entry : string * string => p (fst entry)) (map header_of entries) =
  map header_of (List.filter (fun entry : string * json => p (fst entry)) entries).
Proof.
  induction entries as [|e l IH]; [reflexivity|].
  cbn [map List.filter]. change (fst (header_of e)) with (fst e).
  destruct (p (fst e)); cbn [map]; now rewrite IH.
Qed.

(** What the caller reads under a name that stands alone among the names
    of the object given as [init.headers]. *)
Lemma response_header_alone (r : Response) (k value : string)
    (names : list string) :
  NoDup (map fst (response_headers r)) ->
  (forall x, x ∈ map fst (response_headers r) -> x ∈ names) ->
  assoc k (response_headers r) = Some (JStr value) ->
  alone_up_to_case k names ->
  Headers_get k (map header_of (response_headers r)) = Some (normalize_value value).
Proof.
  intros Hnd Hnames Hassoc Halone. unfold Headers_get.
  pose proof (filter_header_of
                (fun x => String.eqb (JsString.byte_lowercase x)
                                     (JsString.byte_lowercase k))
                (response_headers r)) as Hfilter.
  cbv beta in Hfilter.
  rewrite Hfilter.
  rewrite (filter_only_key
             (fun x => String.eqb (JsString.byte_lowercase x)
                                  (JsString.byte_lowercase k))
             k (JStr value) (response_headers r) Hnd Hassoc).
  - reflexivity.
  - apply String.eqb_refl.
  - intros x Hx Heq. apply Halone; [now apply Hnames|].
    now apply String.eqb_eq.
Qed.

(** C3, as amended.  A capture to an endpoint whose settings record is
    present, with a status from 200 to 599 that is not one of those that
    go without a body, with header names that are tokens and header
    values without NUL and line break, is answered with the configured
    status and with the configured response body parsed as JSON when it
    is valid JSON text, as the literal string otherwise.  Its headers are
    those of the object [{Content-Type: application/json}] extended and
    overridden, name by name as written, by the configured headers; the
    caller reads under a name the value this object gives it, the white
    space at its ends apart, when no other of its names is the same up to
    letter case. *)
Theorem configured_response (request : Request) (uuid : string)
    (timestamp : Z) (eventId : string) (w : World) (t : string) (v : json)
    (s : WebhookSettings) :
  storage_up w uuid = true ->
  channel_up w uuid = true ->
  outage w (GET (settings_key uuid)) = false ->
  settings_text uuid w = Some t ->
  JSON_parse t = Some v ->
  is_settings v s ->
  200 <= responseStatus s <= 599 ->
  null_body_status (responseStatus s) = false ->
  forallb accepted_header (string_props (responseHeaders s)) = true ->
  exists r,
    fst (handleWebhook request uuid timestamp eventId w) = Returned r /\
    status r = Some (JNum (responseStatus s)) /\
    http_status r = responseStatus s /\
    body r = Some (match JSON_parse (responseBody s) with
                   | Some parsed => parsed
                   | None => JStr (responseBody s)
                   end) /\
    (forall k,
        assoc k (response_headers r) =
        match assoc k (rev (responseHeaders s)) with
        | Some value => Some (JStr value)
        | None => if String.eqb k "Content-Type"
                  then Some (JStr "application/json") else None
        end) /\
    (forall k value,
        assoc k (response_headers r) = Some (JStr value) ->
        alone_up_to_case k ("Content-Type" :: map fst (responseHeaders s)) ->
        response_header k r = Some (normalize_value value)).
Proof.
  intros Hs Hc Ho Ht Hp (props & -> & Hstatus & Hbody & Hheaders)
         Hrange Hnull Hvalid.
  destruct (parse_body_returns request w) as [b Hb].
  assert (Hg : fst (getWebhookSettings uuid w) = Returned (JObj props))
    by now rewrite (getWebhookSettings_object uuid t _ w Ho Ht Hp).
  pose proof (handleWebhook_captured request uuid timestamp eventId w b _
                Hs Hc Hb Hg) as H.
  destruct (handleWebhook request uuid timestamp eventId w) as [r w'].
  destruct H as (-> & _). cbn [fst].
  unfold response_for. cbn [truthy].
  rewrite (custom_response_accepted props s) by assumption.
  eexists; split; [reflexivity|]. cbn [status body response_headers http_status].
  split; [reflexivity|]. split.
  { cbn [to_unsigned_short]. apply Z.mod_small. lia. }
  split; [reflexivity|].
  assert (Hlookup : forall k,
             assoc k (obj_assign [("Content-Type", JStr "application/json")]
                                 (string_props (responseHeaders s))) =
             match assoc k (rev (responseHeaders s)) with
             | Some value => Some (JStr value)
             | None => if String.eqb k "Content-Type"
                       then Some (JStr "application/json") else None
             end).
  { intros k. rewrite assoc_obj_assign, rev_string_props, assoc_string_props.
    destruct (assoc k (rev (responseHeaders s))); simpl; [reflexivity|].
    rewrite String.eqb_sym. reflexivity. }
  split; [exact Hlookup|].
  intros k value Hassoc Halone.
  destruct (obj_assign_keys [("Content-Type", JStr "application/json")]
              (string_props (responseHeaders s)))
    as [Hnd Hkeys].
  { apply NoDup_singleton. }
  { repeat constructor. }
  set (built := {| body := _; status := _; response_headers := _ |}).
  assert (Hnames : forall x, x ∈ map fst (response_headers built) ->
                             x ∈ "Content-Type" :: map fst (responseHeaders s)).
  { intros x Hx. destruct (Hkeys x Hx) as [H|H].
    - apply list_elem_of_singleton in H. subst x. left.
    - right. unfold string_props in H. rewrite map_map in H. exact H. }
  assert (Hget : forall name,
             Headers_get name (map header_of (response_headers built)) <> None ->
             True) by auto.
  unfold response_header, header_list.
  assert (Hct : Headers_get "content-type" (map header_of (response_headers built))
                <> None).
  { unfold Headers_get.
    destruct (assoc "Content-Type" (response_headers built)) as [ctv|] eqn:Ect.
    - apply assoc_In in Ect. apply (in_map header_of) in Ect.
      destruct (List.filter _ (map header_of (response_headers built))) eqn:Ef;
        [|discriminate].
      exfalso.
      assert (Hin : In (header_of ("Content-Type", ctv))
                       (List.filter
                          (fun entry : string * string =>
                             String.eqb (JsString.byte_lowercase (fst entry))
                                        (JsString.byte_lowercase "content-type"))
                          (map header_of (response_headers built)))).
      { apply filter_In. split; [exact Ect | reflexivity]. }
      rewrite Ef in Hin. exact Hin.
    - exfalso. subst built. cbn [response_headers] in Ect.
      rewrite Hlookup in Ect.
      destruct (assoc "Content-Type" (rev (responseHeaders s))); discriminate. }
  destruct (Headers_get "content-type" (map header_of (response_headers built)));
    [|congruence].
  now apply (response_header_alone built k value
               ("Content-Type" :: map fst (responseHeaders s))).
Qed.

Lemma parse_body_body_of (request : Request) (w : World) :
  parse_body request w = (Returned (body_of request), w).
Proof.
  destruct (parse_body_returns request w) as [b Hb].
  destruct (parse_body_returns request empty_world) as [b0 Hb0].
  unfold body_of. rewrite Hb0, Hb. simpl. f_equal. f_equal.
  assert (H : fst (parse_body request w) = fst (parse_body request empty_world)).
  { unfold parse_body, try_catch, request_json, request_formData, request_text,
      JSON_parse_text, bind, ret, throw.
    repeat (destruct (JsString.includes _ _)); simpl;
      repeat (match goal with
              | |- context [match ?x with Some _ => _ | None => _ end] => destruct x
              end; simpl); reflexivity. }
  rewrite Hb, Hb0 in H. simpl in H. congruence.
Qed.

(** A capture whose publish throws, after the append and trim went
    through. *)
Lemma handleWebhook_publish_fails (request : Request) (uuid : string)
    (timestamp : Z) (eventId : string) (w : World) (b : json) :
  storage_up w uuid = true ->
  channel_up w uuid = false ->
  parse_body request w = (Returned b, w) ->
  let event := webhook_event request uuid b timestamp eventId in
  let '(r, w') := handleWebhook request uuid timestamp eventId w in
  r = Returned error_response /\
  log_of uuid w' = capture_log timestamp (JSON_stringify event) (log_of uuid w) /\
  published w' = published w /\
  console w' = (console w ++ ["Error processing webhook: network error"])%list /\
  outage w' = outage w.
Proof.
  intros Hs Hc Hb event.
  unfold handleWebhook, try_catch. unfold bind at 1. rewrite Hb.
  fold event.
  match goal with
  | |- context [(redis_zadd _ _ _ ;;; count <- _ ;; _ ;;; ?k) w] =>
      destruct (store_phase uuid timestamp (JSON_stringify event) k w Hs)
        as (w1 & -> & Hlog & Htexts & Hpub & Hcon & Hout & _)
  end.
  unfold channel_up in Hc. rewrite negb_false_iff, <- Hout in Hc.
  unfold bind at 1. unfold realtime_emit at 1. rewrite Hc.
  unfold bind, console_error, ret. simpl.
  rewrite Hpub, Hcon. repeat split; assumption.
Qed.

(** C4, as amended.  When the publish of a captured event throws, the
    handler's outer [catch] takes over: the error is written to the
    console and the caller receives status 500 with the body
    [{success: false, error: "Internal server error"}], not the response of
    step 5.  The event stays in the log, and nothing is published. *)
Theorem publish_failure_is_internal_error (request : Request) (uuid : string)
    (timestamp : Z) (eventId : string) (w : World) :
  storage_up w uuid = true ->
  channel_up w uuid = false ->
  let event := webhook_event request uuid (body_of request) timestamp eventId in
  let '(r, w') := handleWebhook request uuid timestamp eventId w in
  r = Returned error_response /\
  status error_response = Some (JNum 500) /\
  log_of uuid w' = capture_log timestamp (JSON_stringify event) (log_of uuid w) /\
  published w' = published w /\
  console w' = (console w ++ ["Error processing webhook: network error"])%list.
Proof.
  intros Hs Hc event.
  pose proof (handleWebhook_publish_fails request uuid timestamp eventId w _
                Hs Hc (parse_body_body_of request w)) as H.
  destruct (handleWebhook request uuid timestamp eventId w) as [r w'].
  destruct H as (H1 & H2 & H3 & H4 & _). repeat split; assumption.
Qed.

(** Whether or not the publish goes through, a capture whose append and
    trim go through leaves the event in the log. *)
Lemma handleWebhook_log (request : Request) (uuid : string) (timestamp : Z)
    (eventId : string) (w : World) :
  storage_up w uuid = true ->
  let w' := snd (handleWebhook request uuid timestamp eventId w) in
  log_of uuid w' =
    capture_log timestamp
      (JSON_stringify
         (webhook_event request uuid (body_of request) timestamp eventId))
      (log_of uuid w) /\
  outage w' = outage w.
Proof.
  intros Hs.
  pose proof (parse_body_body_of request w) as Hb.
  destruct (channel_up w uuid) eqn:Hc.
  - destruct (getWebhookSettings_returns uuid w) as [settings Hg].
    pose proof (handleWebhook_captured request uuid timestamp eventId w _ settings
                  Hs Hc Hb Hg) as H.
    destruct (handleWebhook request uuid timestamp eventId w) as [r w'].
    simpl. split; apply H.
  - pose proof (handleWebhook_publish_fails request uuid timestamp eventId w _
                  Hs Hc Hb) as H.
    destruct (handleWebhook request uuid timestamp eventId w) as [r w'].
    simpl. split; apply H.
Qed.

Lemma settings_object_inj (s s' : WebhookSettings) :
  settings_object s' = settings_object s -> s' = s.
Proof.
  destruct s as [st bd hs], s' as [st' bd' hs']. unfold settings_object; simpl.
  intros H. injection H as -> -> Hh. f_equal.
  revert hs Hh. induction hs' as [|[k v] hs' IH]; intros [|[k0 v0] hs] Hh;
    simpl in Hh; try discriminate; [reflexivity|].
  injection Hh as -> -> Hh. f_equal. now apply IH.
Qed.

(** C6.  Saving settings and then reading them for the same endpoint gives
    back the saved value; reading the settings of an endpoint for which
    none was saved gives null. *)
Theorem settings_round_trip (uuid : string) (s : WebhookSettings) (w : World) :
  outage w (SET (settings_key uuid)) = false ->
  outage w (GET (settings_key uuid)) = false ->
  JSON_parse (JSON_stringify (settings_object s)) = Some (settings_object s) ->
  let '(saved, w1) := saveWebhookSettings uuid s w in
  saved = Returned true /\
  fst (getWebhookSettings uuid w1) = Returned (settings_object s) /\
  (forall s', settings_object s' = settings_object s -> s' = s) /\
  (settings_text uuid w = None ->
   fst (getWebhookSettings uuid w) = Returned JNull).
Proof.
  intros Hset Hget Hrt.
  unfold saveWebhookSettings, try_catch, bind, redis_set, network, ret.
  rewrite Hset. simpl. split; [reflexivity|]. split; [|split].
  - unfold settings_object in *.
    erewrite getWebhookSettings_object; [reflexivity|exact Hget| |exact Hrt].
    unfold settings_text, with_text; simpl. apply lookup_insert_eq.
  - apply settings_object_inj.
  - apply getWebhookSettings_absent.
Qed.

(** *** Deleting one event *)

Lemma rank_range_all (n : nat) : rank_range (Z.of_nat n) 0 (-1) = (0%nat, n).
Proof.
  unfold rank_range. simpl.
  destruct n as [|n].
  - reflexivity.
  - assert (E1 : (Z.of_nat (S n) + -1 <? 0) = false) by (apply Z.ltb_ge; lia).
    assert (E2 : (Z.of_nat (S n) <=? 0) = false) by (apply Z.leb_gt; lia).
    assert (E3 : (Z.of_nat (S n) <=? Z.of_nat (S n) + -1) = false)
      by (apply Z.leb_gt; lia).
    rewrite !E1, ?E2, ?E3. simpl. rewrite ?E1, ?E2, ?E3. simpl. f_equal; lia.
Qed.

Lemma zrange_all (rev : bool) (l : zset) :
  zrange 0 (-1) rev l = map snd (if rev then List.rev l else l).
Proof.
  unfold zrange, zcard. rewrite rank_range_all. rewrite drop_0.
  destruct rev.
  - rewrite firstn_all2; [reflexivity | rewrite length_rev; lia].
  - now rewrite firstn_all.
Qed.

Lemma other_id_deserialize (eventId member : string) :
  canonical_event member ->
  other_id eventId (deserialize member) = negb (has_id eventId member).
Proof.
  intros (props & Hp & _). unfold other_id, has_id, deserialize. now rewrite Hp.
Qed.

(** The loop of [deleteWebhookEvent] over a log of canonical members: the
    first member with the id is removed, and the answer says whether there
    was one. *)
Lemma delete_first_match_run (key eventId : string) (members : list string)
    (w : World) :
  outage w (ZREM key) = false ->
  Forall canonical_event members ->
  delete_first_match key eventId (map deserialize members) w =
  match List.find (has_id eventId) members with
  | Some m =>
      (Returned true,
       with_store (with_zset key (zrem m (zset_at key (store w))) (store w)) w)
  | None => (Returned false, w)
  end.
Proof.
  intros Ho Hall. induction Hall as [|m members Hm Hall IH]; simpl.
  - reflexivity.
  - destruct Hm as (props & Hp & Hs).
    assert (Hd : deserialize m = JObj props) by (unfold deserialize; now rewrite Hp).
    rewrite Hd. unfold has_id at 1. rewrite Hp. simpl.
    unfold bind, read_prop, ret. simpl.
    destruct (strict_eq_string (assoc "id" props) eventId).
    + unfold redis_zrem, network. rewrite Ho, Hs. reflexivity.
    + exact IH.
Qed.

Lemma map_M_parse_if_string (members : list string) (w : World) :
  Forall canonical_event members ->
  map_M parse_if_string (map deserialize members) w =
  (Returned (map deserialize members), w).
Proof.
  intros Hall. induction Hall as [|m members Hm Hall IH]; simpl.
  - reflexivity.
  - destruct Hm as (props & Hp & Hs).
    assert (Hd : deserialize m = JObj props) by (unfold deserialize; now rewrite Hp).
    rewrite Hd. simpl.
    unfold bind at 1. unfold ret at 1. unfold bind at 1. rewrite IH.
    reflexivity.
Qed.

(** The history fetch over a log of canonical members: the events, most
    recent first. *)
Lemma getWebhookEvents_run (uuid : string) (w : World) :
  outage w (ZRANGE (events_key uuid)) = false ->
  Forall (fun entry => canonical_event (snd entry)) (log_of uuid w) ->
  getWebhookEvents uuid w =
  (Returned (map deserialize (map snd (rev (log_of uuid w)))), w).
Proof.
  intros Ho Hall.
  unfold getWebhookEvents, try_catch, bind, redis_zrange, network.
  rewrite Ho. simpl. rewrite zrange_all. fold (log_of uuid w).
  replace (with_store (store w) w) with w by (destruct w; reflexivity).
  rewrite map_M_parse_if_string; [reflexivity|].
  apply Forall_map. apply Forall_forall. intros e He.
  rewrite Forall_forall in Hall. apply Hall.
  rewrite list_elem_of_In in *. now apply in_rev.
Qed.

Lemma fetched_without_id (eventId : string) (l : zset) :
  Forall (fun entry => canonical_event (snd entry)) l ->
  map deserialize (map snd (List.filter (fun entry => negb (has_id eventId (snd entry))) l)) =
  List.filter (other_id eventId) (map deserialize (map snd l)).
Proof.
  intros Hall. induction Hall as [|e l He Hall IH]; simpl; [reflexivity|].
  rewrite (other_id_deserialize eventId _ He).
  destruct (has_id eventId (snd e)); simpl; now rewrite IH.
Qed.

(** A capture keeps the members of the log canonical, when the text of its
    event reads back as the event. *)
Lemma handleWebhook_keeps_canonical (request : Request) (uuid : string)
    (timestamp : Z) (eventId : string) (w : World) :
  storage_up w uuid = true ->
  (let event := webhook_event request uuid (body_of request) timestamp eventId in
   JSON_parse (JSON_stringify event) = Some event) ->
  Forall (fun entry => canonical_event (snd entry)) (log_of uuid w) ->
  Forall (fun entry => canonical_event (snd entry))
         (log_of uuid (snd (handleWebhook request uuid timestamp eventId w))).
Proof.
  intros Hup Hrt Hall.
  destruct (handleWebhook_log request uuid timestamp eventId w Hup) as [-> _].
  unfold capture_log. rewrite trim_newest.
  rewrite Forall_forall in *. intros e He.
  assert (He' : e ∈ zadd timestamp
                     (JSON_stringify
                        (webhook_event request uuid (body_of request) timestamp eventId))
                     (log_of uuid w))
    by (eapply elem_of_sublist; [exact He | apply newest_sublist]).
  unfold zadd in He'. rewrite insert_entry_perm in He'.
  apply elem_of_cons in He' as [->|He'].
  - simpl. eexists. split; [exact Hrt | reflexivity].
  - apply Hall. unfold zrem in He'.
    apply list_elem_of_In, filter_In in He' as [He' _].
    now apply list_elem_of_In.
Qed.

(** C7.  [deleteWebhookEvent(uuid, eventId)] removes from the log of the
    endpoint the stored event whose id is [eventId] and leaves every other
    entry as it is; it returns true exactly when such an event was stored;
    for an id that is not stored it returns false without throwing and
    without changing anything; and the history fetched afterwards is the
    history fetched before without the event of that id. *)
Theorem deleteWebhookEvent_removes_event (uuid eventId : string) (w : World) :
  outage w (ZRANGE (events_key uuid)) = false ->
  outage w (ZREM (events_key uuid)) = false ->
  Forall (fun entry => canonical_event (snd entry)) (log_of uuid w) ->
  (forall e1 e2, e1 ∈ log_of uuid w -> e2 ∈ log_of uuid w ->
                 has_id eventId (snd e1) = true ->
                 has_id eventId (snd e2) = true -> snd e1 = snd e2) ->
  let found := existsb (fun entry => has_id eventId (snd entry)) (log_of uuid w) in
  let '(r, w') := deleteWebhookEvent uuid eventId w in
  r = Returned found /\
  log_of uuid w' =
    List.filter (fun entry => negb (has_id eventId (snd entry))) (log_of uuid w) /\
  (found = false -> w' = w) /\
  exists before,
    fst (getWebhookEvents uuid w) = Returned before /\
    fst (getWebhookEvents uuid w') =
      Returned (List.filter (other_id eventId) before).
Proof.
  intros Hrange Hrem Hall Huniq found.
  assert (Hw : with_store (store w) w = w) by (destruct w; reflexivity).
  assert (Hrun : deleteWebhookEvent uuid eventId w =
                 match List.find (has_id eventId) (map snd (log_of uuid w)) with
                 | Some m =>
                     (Returned true,
                      with_store (with_zset (events_key uuid)
                                    (zrem m (log_of uuid w)) (store w)) w)
                 | None => (Returned false, w)
                 end).
  { unfold deleteWebhookEvent, try_catch, bind at 1, redis_zrange, network.
    rewrite Hrange. simpl. rewrite zrange_all, Hw. fold (log_of uuid w).
    rewrite delete_first_match_run;
      [|exact Hrem | now apply Forall_map].
    destruct (find _ _); reflexivity. }
  rewrite Hrun. clear Hrun.
  assert (Hafter : forall w',
             outage w' = outage w ->
             log_of uuid w' =
               List.filter (fun entry => negb (has_id eventId (snd entry)))
                           (log_of uuid w) ->
             exists before,
               fst (getWebhookEvents uuid w) = Returned before /\
               fst (getWebhookEvents uuid w') =
                 Returned (List.filter (other_id eventId) before)).
  { intros w' Hout Hlog. eexists. split.
    - rewrite getWebhookEvents_run by assumption. reflexivity.
    - rewrite getWebhookEvents_run.
      + simpl. rewrite Hlog, <- filter_rev, fetched_without_id; [reflexivity|].
        apply Forall_forall. intros e He. rewrite Forall_forall in Hall.
        apply Hall. rewrite list_elem_of_In in *. now apply in_rev.
      + now rewrite Hout.
      + rewrite Hlog. apply Forall_forall. intros e He.
        rewrite Forall_forall in Hall. apply Hall.
        rewrite list_elem_of_In in *. apply filter_In in He. tauto. }
  destruct (List.find (has_id eventId) (map snd (log_of uuid w))) as [m|] eqn:Efind.
  - apply find_some in Efind as [Hin Hm].
    apply in_map_iff in Hin as (em & Hem & Hin).
    assert (Hfound : found = true).
    { apply existsb_exists. exists em. split; [exact Hin | now rewrite Hem]. }
    assert (Hlog : zrem m (log_of uuid w) =
                   List.filter (fun entry => negb (has_id eventId (snd entry)))
                               (log_of uuid w)).
    { unfold zrem. apply filter_ext_in. intros e He. f_equal.
      destruct (String.eqb_spec (snd e) m) as [->|Hne]; [now rewrite Hm|].
      destruct (has_id eventId (snd e)) eqn:Eid; [|reflexivity].
      exfalso. apply Hne. rewrite <- Hem.
      apply Huniq; rewrite ?list_elem_of_In; congruence. }
    rewrite Hfound. split; [reflexivity|].
    unfold log_of at 1. simpl. rewrite zset_at_with_zset.
    split; [exact Hlog|]. split; [discriminate|].
    apply Hafter; [reflexivity|].
    unfold log_of at 1. simpl. now rewrite zset_at_with_zset.
  - assert (Hnone : forall e, In e (log_of uuid w) -> has_id eventId (snd e) = false).
    { intros e He. apply (find_none _ _ Efind). now apply in_map. }
    assert (Hfound : found = false).
    { destruct found eqn:E; [|reflexivity].
      apply existsb_exists in E as (e & He & Hid). rewrite Hnone in Hid; congruence. }
    assert (Hlog : log_of uuid w =
                   List.filter (fun entry => negb (has_id eventId (snd entry)))
                               (log_of uuid w)).
    { symmetry. apply forallb_filter_id. apply forallb_forall.
      intros e He. now rewrite Hnone. }
    rewrite Hfound. split; [reflexivity|]. split; [exact Hlog|].
    split; [reflexivity|]. now apply Hafter.
Qed.

(** *** The capacity of the log *)

Lemma storage_up_same (uuid : string) (w w' : World) :
  outage w' = outage w -> storage_up w' uuid = storage_up w uuid.
Proof. intros H. unfold storage_up. now rewrite H. Qed.

(** Sequential captures with increasing time stamps and fresh event texts:
    the log is the last 50 entries of the old log followed by the new
    entries in capture order. *)
Lemma run_captures_log (uuid : string) (captures : list Capture) :
  forall (c : Capture) (w : World),
    storage_up w uuid = true ->
    StronglySorted Z.lt (map capture_time (c :: captures)) ->
    (forall e c', e ∈ log_of uuid w -> c' ∈ c :: captures ->
                  fst e < capture_time c') ->
    NoDup (map snd (log_of uuid w ++ map (captured_entry uuid) (c :: captures))) ->
    log_of uuid (run_captures uuid (c :: captures) w) =
    newest 50 (log_of uuid w ++ map (captured_entry uuid) (c :: captures)).
Proof.
  induction captures as [|c2 captures IH]; intros c w Hup Htime Hold Hfresh.
  - simpl. destruct (handleWebhook_log (capture_request c) uuid (capture_time c)
                       (capture_id c) w Hup) as [-> _].
    apply capture_log_fresh_top.
    + intros y Hy. apply Hold; [exact Hy | left].
    + rewrite map_app in Hfresh. apply NoDup_app in Hfresh as (_ & Hdisj & _).
      intros Hin. apply (Hdisj _ Hin). left.
  - change (run_captures uuid (c :: c2 :: captures) w)
      with (run_captures uuid (c2 :: captures)
              (snd (handleWebhook (capture_request c) uuid (capture_time c)
                      (capture_id c) w))).
    destruct (handleWebhook_log (capture_request c) uuid (capture_time c)
                (capture_id c) w Hup) as [Hlog Hout].
    set (w1 := snd (handleWebhook (capture_request c) uuid (capture_time c)
                      (capture_id c) w)) in *.
    assert (Hlog1 : log_of uuid w1 =
                    newest 50 (log_of uuid w ++ [captured_entry uuid c])).
    { rewrite Hlog. apply capture_log_fresh_top.
      - intros y Hy. apply Hold; [exact Hy | left].
      - rewrite map_app in Hfresh. apply NoDup_app in Hfresh as (_ & Hdisj & _).
        intros Hin. apply (Hdisj _ Hin). left. }
    apply StronglySorted_inv in Htime as [Htime Hc].
    change (StronglySorted Z.lt (map capture_time (c2 :: captures))) in Htime.
    change (Forall (Z.lt (capture_time c)) (map capture_time (c2 :: captures)))
      in Hc.
    rewrite IH.
    + rewrite Hlog1, newest_app_newest. f_equal.
      now rewrite <- app_assoc.
    + now rewrite (storage_up_same uuid w w1).
    + exact Htime.
    + intros e c' He Hc'. rewrite Hlog1 in He.
      assert (He' : e ∈ (log_of uuid w ++ [captured_entry uuid c])%list)
        by (eapply elem_of_sublist; [exact He | apply newest_sublist]).
      clear He. apply elem_of_app in He' as [He|He].
      * apply Hold; [exact He | now right].
      * apply list_elem_of_singleton in He as ->. simpl.
        rewrite Forall_forall in Hc. apply Hc.
        now apply list_elem_of_fmap_2.
    + rewrite Hlog1.
      eapply sublist_NoDup; [exact Hfresh|].
      apply (fmap_sublist snd).
      replace (log_of uuid w ++ map (captured_entry uuid) (c :: c2 :: captures))%list
        with ((log_of uuid w ++ [captured_entry uuid c]) ++
              map (captured_entry uuid) (c2 :: captures))%list
        by (now rewrite <- app_assoc).
      apply sublist_app; [apply newest_sublist | reflexivity].
Qed.

(** Sequential captures of fresh event texts, whatever the clock reads:
    when the log is the 50 highest ranks of a sorted set [S], the log
    after the captures is the 50 highest ranks of [S] with their entries
    inserted. *)
Lemma run_captures_rank (uuid : string) (captures : list Capture) :
  forall (w : World) (S : zset),
    storage_up w uuid = true ->
    well_formed S ->
    log_of uuid w = newest 50 S ->
    NoDup (map snd (S ++ map (captured_entry uuid) captures)) ->
    log_of uuid (run_captures uuid captures w) =
    newest 50 (insert_all (map (captured_entry uuid) captures) S).
Proof.
  induction captures as [|c captures IH]; intros w S Hup Hs Hlog Hfresh.
  - exact Hlog.
  - change (run_captures uuid (c :: captures) w)
      with (run_captures uuid captures
              (snd (handleWebhook (capture_request c) uuid (capture_time c)
                      (capture_id c) w))).
    destruct (handleWebhook_log (capture_request c) uuid (capture_time c)
                (capture_id c) w Hup) as [Hlog1 Hout].
    set (w1 := snd (handleWebhook (capture_request c) uuid (capture_time c)
                      (capture_id c) w)) in *.
    simpl in Hfresh.
    pose proof (fresh_head _ _ _ Hfresh) as Hc.
    apply (IH w1 (insert_entry (captured_entry uuid c) S)).
    + now rewrite (storage_up_same uuid w w1).
    + now apply insert_entry_well_formed.
    + rewrite Hlog1, Hlog.
      rewrite <- (newest_insert_newest 50 (captured_entry uuid c) S Hs).
      apply (capture_log_fresh (capture_time c) (snd (captured_entry uuid c))).
      intros Hin. apply Hc.
      apply list_elem_of_fmap in Hin as (e & -> & He).
      apply list_elem_of_fmap_2.
      eapply elem_of_sublist; [exact He | apply newest_sublist].
    + now apply fresh_tail.
Qed.

(** C1.  After 51 or more sequential captures of new events to an
    endpoint, the stored log has exactly 50 entries.  The entries that are
    no longer there were evicted lowest rank first: each of them ranks
    below every entry kept, so its time stamp is not above any time stamp
    kept.  When the clock readings increase from one capture to the next,
    above the time stamps already stored, the entries kept are those of
    the 50 most recent captures, in capture order. *)
Theorem capacity_invariant (uuid : string) (captures : list Capture) (w : World) :
  storage_up w uuid = true ->
  well_formed (log_of uuid w) ->
  NoDup (map snd (log_of uuid w ++ map (captured_entry uuid) captures)) ->
  (51 <= length captures)%nat ->
  let log := log_of uuid (run_captures uuid captures w) in
  length log = 50%nat /\
  (exists evicted,
      Permutation (evicted ++ log)
                  (log_of uuid w ++ map (captured_entry uuid) captures) /\
      forall e k, e ∈ evicted -> k ∈ log ->
                  ranks_below e k /\ fst e <= fst k) /\
  (StronglySorted Z.lt (map capture_time captures) ->
   (forall e c, e ∈ log_of uuid w -> c ∈ captures -> fst e < capture_time c) ->
   log = map (captured_entry uuid) (newest 50 captures)).
Proof.
  intros Hup Hwf Hfresh Hlen log.
  set (new := map (captured_entry uuid) captures) in *.
  set (S := insert_all new (log_of uuid w)).
  assert (Hperm : Permutation S (log_of uuid w ++ new)) by apply insert_all_perm.
  assert (HS : well_formed S) by now apply insert_all_well_formed.
  assert (HlenS : (51 <= length S)%nat).
  { rewrite (Permutation_length Hperm), length_app. unfold new.
    rewrite length_map. lia. }
  assert (Hlog : log = newest 50 S).
  { subst log S new. destruct captures as [|c captures]; [simpl in Hlen; lia|].
    change (run_captures uuid (c :: captures) w)
      with (run_captures uuid captures
              (snd (handleWebhook (capture_request c) uuid (capture_time c)
                      (capture_id c) w))).
    destruct (handleWebhook_log (capture_request c) uuid (capture_time c)
                (capture_id c) w Hup) as [Hlog1 Hout].
    simpl in Hfresh. pose proof (fresh_head _ _ _ Hfresh) as Hc.
    change (insert_all (map (captured_entry uuid) (c :: captures)) (log_of uuid w))
      with (insert_all (map (captured_entry uuid) captures)
              (insert_entry (captured_entry uuid c) (log_of uuid w))).
    apply run_captures_rank.
    - now rewrite (storage_up_same uuid w _ Hout).
    - now apply insert_entry_well_formed.
    - rewrite Hlog1.
      now apply (capture_log_fresh (capture_time c) (snd (captured_entry uuid c))).
    - now apply fresh_tail. }
  split; [|split].
  - rewrite Hlog. unfold newest. rewrite length_drop. lia.
  - exists (take (length S - 50) S). split.
    + rewrite Hlog. unfold newest. now rewrite take_drop.
    + intros e k He Hk. rewrite Hlog in Hk. unfold newest in Hk.
      assert (Hr : ranks_below e k).
      { unfold well_formed in HS.
        rewrite <- (take_drop (length S - 50) S) in HS.
        now apply (StronglySorted_app_1_elem_of _ _ _ _ _ HS). }
      split; [exact Hr | now apply ranks_below_score].
  - intros Htime Hold. subst log new.
    destruct captures as [|c captures]; [simpl in Hlen; lia|].
    rewrite run_captures_log by assumption.
    unfold newest. rewrite length_app, length_map.
    rewrite drop_app_ge by lia.
    rewrite skipn_map. f_equal. f_equal. simpl. lia.
Qed.

End ServerFacts.

(** C9, as stated, fails in three ways: an event is kept because the text
    appears in its id alone; white-space-only text keeps an event in which
    no white space appears; a body that is [false] is not searched. *)
Lemma filteredEvents_beyond_specified_fields :
  let e := {| event_id := "evt-777"; event_uuid := "abc"; event_method := "POST";
              event_url := "https://ehook.app/api/webhook/abc";
              event_headers := []; event_body := JBool false; event_query := [];
              event_timestamp := 1700000000000 |} in
  let searching text := {| events := [e]; searchQuery := text |} in
  let nowhere text :=
    forallb (fun field =>
               negb (JsString.includes (JsString.toLowerCase field)
                                       (JsString.toLowerCase text)))
            (specified_fields e) in
  (filteredEvents (searching "777") = [e] /\ nowhere "777" = true) /\
  (filteredEvents (searching " ") = [e] /\ nowhere " " = true) /\
  (filteredEvents (searching "false") = [] /\ nowhere "false" = false).
Proof. vm_compute. repeat split. Qed.

(** Letter case and white space beyond ASCII: the body [CAFE] with a
    capital e-acute (code 201) is found under the small e-acute (233) as
    under the capital one, and a search text that is one no-break space
    (160) counts as empty and keeps the event. *)
Example search_goes_beyond_ascii :
  let capital := String "201"%char EmptyString in
  let small := String "233"%char EmptyString in
  let no_break_space := String "160"%char EmptyString in
  let e := {| event_id := "evt-1"; event_uuid := "abc"; event_method := "POST";
              event_url := "https://ehook.app/api/webhook/abc";
              event_headers := []; event_body := JStr ("CAF" ++ capital);
              event_query := []; event_timestamp := 1700000000000 |} in
  let searching text := {| events := [e]; searchQuery := text |} in
  filteredEvents (searching small) = [e] /\
  filteredEvents (searching capital) = [e] /\
  filteredEvents (searching no_break_space) = [e] /\
  filteredEvents (searching "z") = [].
Proof. vm_compute. repeat split. Qed.

(** C2, as stated, fails: a declared type that contains [text/] without
    starting with it is read as text, so an empty payload gives the empty
    string and not null. *)
Lemma parse_body_text_not_at_start :
  let request := {| method := "POST";
                    url := "https://ehook.app/api/webhook/abc";
                    headers := [("content-type", "multipart/related; type=text/xml")];
                    searchParams := [];
                    payload := EmptyString |} in
  let declared := content_type_of request in
  JsString.startsWith declared "text/" = false /\
  JsString.includes declared "application/json" = false /\
  JsString.includes declared "application/x-www-form-urlencoded" = false /\
  parse_body request empty_world = (Returned (JStr EmptyString), empty_world).
Proof. vm_compute. repeat split. Qed.

(** C4, as stated, fails: when the publish throws, the caller receives the
    500 response and not the response of step 5, which for this endpoint
    (no settings) is the default 200 response that the same request gets
    when the publish goes through. *)
Lemma publish_failure_reaches_caller :
  let failing := handleWebhook Scenarios.post_json "abc" 1700000000000 "E1"
                   Scenarios.publish_down in
  let working := handleWebhook Scenarios.post_json "abc" 1700000000000 "E1"
                   empty_world in
  fst failing = Returned error_response /\
  status error_response = Some (JNum 500) /\
  fst (getWebhookSettings "abc" Scenarios.publish_down) = Returned JNull /\
  fst working = Returned default_response /\
  status default_response = Some (JNum 200).
Proof. vm_compute. repeat split. Qed.

(** ** The theorems at the scenarios of the specification *)

(** C4 at a world in which publishing fails: the caller gets the 500
    response, the event is stored, nothing is published, the error is on
    the console. *)
Lemma publish_failure_is_internal_error_witness :
  let '(r, w') := handleWebhook Scenarios.post_json "abc" 1700000000000 "E1"
                    Scenarios.publish_down in
  r = Returned error_response /\
  map fst (log_of "abc" w') = [1700000000000] /\
  published w' = [] /\
  console w' = ["Error processing webhook: network error"].
Proof.
  pose proof (publish_failure_is_internal_error Scenarios.post_json "abc"
                1700000000000 "E1" Scenarios.publish_down eq_refl eq_refl) as H.
  cbv zeta in H.
  destruct (handleWebhook Scenarios.post_json "abc" 1700000000000 "E1"
              Scenarios.publish_down) as [r w'].
  destruct H as (Hr & _ & Hlog & Hpub & Hcon).
  split; [exact Hr|]. split; [rewrite Hlog; vm_compute; reflexivity|].
  split; [exact Hpub | exact Hcon].
Defined.

(** C5 at the default-response scenario: endpoint [abc] without settings,
    a JSON [POST]. *)
Lemma default_response_without_settings_witness :
  fst (handleWebhook Scenarios.post_json "abc" 1700000000000 "E1" empty_world) =
    Returned default_response /\
  status default_response = Some (JNum 200) /\
  body default_response =
    Some (JObj [("success", JBool true); ("message", JStr "Webhook received")]).
Proof.
  apply (default_response_without_settings Scenarios.post_json "abc"
           1700000000000 "E1" empty_world).
  - reflexivity.
  - reflexivity.
  - left. reflexivity.
Defined.

(** C10 at an endpoint whose settings text is [not json]. *)
Lemma unparsable_settings_fall_back_witness :
  let w := Scenarios.world_with_settings "abc" "not json" in
  fst (getWebhookSettings "abc" w) = Returned JNull /\
  fst (handleWebhook Scenarios.post_json "abc" 1700000000000 "E1" w) =
    Returned default_response.
Proof.
  destruct (unparsable_settings_fall_back Scenarios.post_json "abc"
              1700000000000 "E1" (Scenarios.world_with_settings "abc" "not json")
              "not json" "not json") as [Hget Hresp].
  - vm_compute. reflexivity.
  - vm_compute. reflexivity.
  - vm_compute. reflexivity.
  - split; [exact Hget|]. apply Hresp; reflexivity.
Defined.

(** C3, as stated, fails: a configured status that is no status of an
    HTTP response, here 700, is refused by the platform and the caller
    receives the 500 of the internal failure; and a configured header
    [content-type] does not override the default [Content-Type], the
    caller reads both values. *)
Lemma configured_response_refused :
  let answer s :=
    fst (handleWebhook Scenarios.get_query "abc" 1700000000000 "E1"
           (Scenarios.world_with_settings "abc"
              (JSON_stringify (settings_object s)))) in
  (responseStatus Cases.status_700 = 700 /\
   answer Cases.status_700 = Returned error_response /\
   http_status error_response = 500) /\
  (responseHeaders Cases.plain_content_type = [("content-type", "text/plain")] /\
   match answer Cases.plain_content_type with
   | Returned r => response_header "Content-Type" r
   | Thrown _ => None
   end = Some "application/json, text/plain").
Proof. vm_compute. repeat split. Qed.

(** The status 204, which the settings panel proposes, is one of those
    that go without a body: the platform refuses the configured response
    and the caller receives the 500 of the internal failure. *)
Example status_204_is_refused :
  responseStatus Cases.status_204 = 204 /\
  fst (handleWebhook Scenarios.get_query "abc" 1700000000000 "E1"
         (Scenarios.world_with_settings "abc"
            (JSON_stringify (settings_object Cases.status_204)))) =
  Returned error_response.
Proof. vm_compute. split; reflexivity. Qed.

(** C3 at the custom-response scenario: status 201, body [{ok: true}],
    header [X-Test: 1] beside the default [Content-Type]. *)
Lemma configured_response_witness :
  let w := Scenarios.world_with_settings "abc"
             (JSON_stringify (settings_object Scenarios.created_settings)) in
  exists r,
    fst (handleWebhook Scenarios.get_query "abc" 1700000000000 "E1" w) = Returned r /\
    status r = Some (JNum 201) /\
    http_status r = 201 /\
    body r = Some (JObj [("ok", JBool true)]) /\
    assoc "X-Test" (response_headers r) = Some (JStr "1") /\
    assoc "Content-Type" (response_headers r) = Some (JStr "application/json") /\
    response_header "X-Test" r = Some "1" /\
    response_header "Content-Type" r = Some "application/json".
Proof.
  destruct (configured_response Scenarios.get_query "abc" 1700000000000 "E1"
              (Scenarios.world_with_settings "abc"
                 (JSON_stringify (settings_object Scenarios.created_settings)))
              (JSON_stringify (settings_object Scenarios.created_settings))
              (settings_object Scenarios.created_settings)
              Scenarios.created_settings)
    as (r & Hr & Hstatus & Hhttp & Hbody & Hheaders & Hsent).
  - reflexivity.
  - reflexivity.
  - reflexivity.
  - vm_compute. reflexivity.
  - vm_compute. reflexivity.
  - apply settings_object_is_settings.
  - cbn. lia.
  - reflexivity.
  - reflexivity.
  - assert (Halone : forall k,
               k = "X-Test" \/ k = "Content-Type" ->
               alone_up_to_case k
                 ("Content-Type" :: map fst (responseHeaders Scenarios.created_settings))).
    { intros k Hk other Hin Heq.
      apply list_elem_of_In in Hin. cbn in Hin.
      destruct Hk as [-> | ->], Hin as [<-|[<-|[]]];
        solve [reflexivity | vm_compute in Heq; discriminate Heq]. }
    exists r. split; [exact Hr|]. split; [exact Hstatus|]. split; [exact Hhttp|].
    split; [exact Hbody|].
    split; [apply Hheaders|]. split; [apply Hheaders|].
    split.
    + apply (Hsent "X-Test" "1"); [apply Hheaders | apply Halone; now left].
    + apply (Hsent "Content-Type" "application/json");
        [apply Hheaders | apply Halone; now right].
Defined.

(** C6 at the settings of the custom-response scenario, saved in an empty
    store. *)
Lemma settings_round_trip_witness :
  let '(saved, w1) :=
    saveWebhookSettings "abc" Scenarios.created_settings empty_world in
  saved = Returned true /\
  fst (getWebhookSettings "abc" w1) =
    Returned (settings_object Scenarios.created_settings) /\
  fst (getWebhookSettings "abc" empty_world) = Returned JNull.
Proof.
  pose proof (settings_round_trip "abc" Scenarios.created_settings empty_world
                eq_refl eq_refl) as H.
  destruct (saveWebhookSettings "abc" Scenarios.created_settings empty_world)
    as [saved w1].
  destruct H as (Hsaved & Hget & _ & Hnone).
  - vm_compute. reflexivity.
  - split; [exact Hsaved|]. split; [exact Hget|]. apply Hnone. reflexivity.
Defined.

(** The delete-one scenario: two events captured, then one deleted. *)
Lemma two_captured_log :
  log_of "abc" Scenarios.two_captured =
  map (captured_entry "abc") (Scenarios.numbered_captures 2).
Proof. vm_compute. reflexivity. Qed.

Lemma two_captured_canonical :
  Forall (fun entry => canonical_event (snd entry))
         (log_of "abc" Scenarios.two_captured).
Proof.
  rewrite two_captured_log.
  repeat constructor; eexists; split; vm_compute; reflexivity.
Qed.

Ltac decide_unique_id :=
  rewrite two_captured_log; intros H1 H2;
  apply list_elem_of_In in H1, H2; simpl in H1, H2;
  destruct H1 as [<-|[<-|[]]]; destruct H2 as [<-|[<-|[]]];
  try reflexivity; vm_compute; intros; discriminate.

Lemma two_captured_unique_E0 (e1 e2 : Z * string) :
  e1 ∈ log_of "abc" Scenarios.two_captured ->
  e2 ∈ log_of "abc" Scenarios.two_captured ->
  has_id "E0" (snd e1) = true ->
  has_id "E0" (snd e2) = true -> snd e1 = snd e2.
Proof. decide_unique_id. Qed.

Lemma two_captured_unique_E7 (e1 e2 : Z * string) :
  e1 ∈ log_of "abc" Scenarios.two_captured ->
  e2 ∈ log_of "abc" Scenarios.two_captured ->
  has_id "E7" (snd e1) = true ->
  has_id "E7" (snd e2) = true -> snd e1 = snd e2.
Proof. decide_unique_id. Qed.

(** C7 at the world of two captures: deleting [E0] answers true and leaves
    the entry of [E1]; deleting the unknown [E7] answers false. *)
Lemma deleteWebhookEvent_removes_event_witness :
  let w := Scenarios.two_captured in
  let '(r, w') := deleteWebhookEvent "abc" "E0" w in
  r = Returned true /\
  map fst (log_of "abc" w) = [1700000000000; 1700000000001] /\
  map fst (log_of "abc" w') = [1700000000001] /\
  (exists before,
      fst (getWebhookEvents "abc" w) = Returned before /\
      fst (getWebhookEvents "abc" w') = Returned (List.filter (other_id "E0") before)) /\
  fst (deleteWebhookEvent "abc" "E7" w) = Returned false.
Proof.
  pose proof (deleteWebhookEvent_removes_event "abc" "E0" Scenarios.two_captured
                eq_refl eq_refl two_captured_canonical two_captured_unique_E0) as H.
  pose proof (deleteWebhookEvent_removes_event "abc" "E7" Scenarios.two_captured
                eq_refl eq_refl two_captured_canonical two_captured_unique_E7) as H7.
  cbv zeta in *.
  destruct (deleteWebhookEvent "abc" "E7" Scenarios.two_captured) as [r7 w7].
  destruct (deleteWebhookEvent "abc" "E0" Scenarios.two_captured) as [r w'].
  destruct H as (Hr & Hlog & _ & Hfetch). destruct H7 as (Hr7 & _).
  split; [exact Hr|]. split; [vm_compute; reflexivity|].
  split; [rewrite Hlog; vm_compute; reflexivity|].
  split; [exact Hfetch | exact Hr7].
Defined.

(** C1 at 51 captures one millisecond apart into an empty store: the 50
    entries kept are those of the captures 1 to 50. *)
Lemma capacity_invariant_witness :
  let captures := Scenarios.numbered_captures 51 in
  let log := log_of "abc" (run_captures "abc" captures empty_world) in
  length log = 50%nat /\
  log = map (captured_entry "abc") (newest 50 captures) /\
  map fst log = map (fun i => 1700000000000 + Z.of_nat i) (seq 1 50).
Proof.
  destruct (capacity_invariant "abc" (Scenarios.numbered_captures 51) empty_world)
    as (Hlen & _ & Hlog).
  - reflexivity.
  - constructor.
  - apply (bool_decide_unpack _). vm_compute. exact I.
  - vm_compute. lia.
  - assert (Hlast : log_of "abc"
                      (run_captures "abc" (Scenarios.numbered_captures 51) empty_world) =
                    map (captured_entry "abc")
                        (newest 50 (Scenarios.numbered_captures 51))).
    { apply Hlog.
      - apply (bool_decide_unpack _). vm_compute. exact I.
      - intros e c He.
        change (log_of "abc" empty_world) with (@nil (Z * string)) in He.
        now apply elem_of_nil in He. }
    split; [exact Hlen|]. split; [exact Hlast|].
    rewrite Hlast. vm_compute. reflexivity.
Defined.

(** Why the last part of C1 asks for increasing clock readings: entries of
    equal score are ranked by their text, so among captures that read the
    same millisecond (as concurrent captures may) the trim goes by text
    and not by arrival.  Here 51 captures read one millisecond and draw
    the ids [E99], [E98], ..., [E49]: the last one ranks lowest and is
    trimmed at once, the first one stays. *)
Example equal_readings_rank_by_text :
  let same_time i :=
    {| capture_request := Scenarios.post_json;
       capture_time := 1700000000000;
       capture_id := String "E" (string_of_nat (99 - i)) |} in
  let captures := map same_time (seq 0 51) in
  let log := log_of "abc" (run_captures "abc" captures empty_world) in
  length log = 50%nat /\
  existsb (has_id "E99") (map snd log) = true /\
  existsb (has_id "E49") (map snd log) = false.
Proof. vm_compute. repeat split. Qed.

(** * Further properties *)

(** ** What the server functions leave alone *)
Section FrameFacts.
Context `{rt : Runtime}.

Local Open Scope js_scope.

Lemma try_catch_never_throws {A : Type} (m : M A) (handler : string -> M A) :
  (forall e, never_throws (handler e)) -> never_throws (try_catch m handler).
Proof.
  intros H w. unfold try_catch. destruct (m w) as [[a|e] w1].
  - now exists a.
  - apply H.
Qed.

Lemma log_and_return_never_throws {A : Type} (label : string) (a : A) (e : string) :
  never_throws (console_error label e ;;; ret a).
Proof. intros w. now exists a. Qed.

Lemma keeps_ret {A : Type} (R : World -> World -> Prop) `{!Reflexive R} (a : A) :
  keeps R (ret a).
Proof. intros w. simpl. reflexivity. Qed.

Lemma keeps_returning {A : Type} (R : World -> World -> Prop) `{!Reflexive R}
    (result : outcome A) :
  keeps R (returning result).
Proof. intros w. simpl. reflexivity. Qed.

Lemma keeps_bind {A B : Type} (R : World -> World -> Prop) `{!Transitive R}
    (m : M A) (k : A -> M B) :
  keeps R m -> (forall a, keeps R (k a)) -> keeps R (bind m k).
Proof.
  intros Hm Hk w. unfold bind.
  specialize (Hm w). destruct (m w) as [[a|e] w1]; simpl in *.
  - etransitivity; [exact Hm | apply Hk].
  - exact Hm.
Qed.

Lemma keeps_try_catch {A : Type} (R : World -> World -> Prop) `{!Transitive R}
    (m : M A) (handler : string -> M A) :
  keeps R m -> (forall e, keeps R (handler e)) -> keeps R (try_catch m handler).
Proof.
  intros Hm Hh w. unfold try_catch.
  specialize (Hm w). destruct (m w) as [[a|e] w1]; simpl in *.
  - exact Hm.
  - etransitivity; [exact Hm | apply Hh].
Qed.

#[local] Instance read_only_preorder : PreOrder read_only.
Proof.
  split.
  - intros w. now repeat split.
  - intros a b c (H1 & H2 & H3) (H4 & H5 & H6). repeat split; congruence.
Qed.

#[local] Instance same_elsewhere_preorder (uuid : string) :
  PreOrder (same_elsewhere uuid).
Proof.
  split.
  - intros w. now repeat split.
  - intros a b c (H1 & H2 & H3) (H4 & H5 & H6). repeat split; try congruence.
    intros key Hne. now rewrite H5, H2.
Qed.

Lemma read_only_elsewhere (uuid : string) (w w' : World) :
  read_only w w' -> same_elsewhere uuid w w'.
Proof. intros (H1 & H2 & H3). repeat split; congruence. Qed.

Lemma zset_at_without_zset_ne (key key' : string) (s : Store) :
  key <> key' -> zset_at key' (without_zset key s) = zset_at key' s.
Proof. intros H. unfold zset_at, without_zset. simpl. now rewrite lookup_delete_ne. Qed.

Lemma zset_at_without_zset (key : string) (s : Store) :
  zset_at key (without_zset key s) = [].
Proof. unfold zset_at, without_zset. simpl. now rewrite lookup_delete_eq. Qed.

Lemma keeps_console_error (R : World -> World -> Prop) (label e : string) :
  (forall w c, R w {| store := store w; published := published w;
                      console := c; outage := outage w |}) ->
  keeps R (console_error label e).
Proof. intros H w. apply H. Qed.

Lemma read_only_console (w : World) (c : list string) :
  read_only w {| store := store w; published := published w;
                 console := c; outage := outage w |}.
Proof. now repeat split. Qed.

Lemma same_elsewhere_console (uuid : string) (w : World) (c : list string) :
  same_elsewhere uuid w {| store := store w; published := published w;
                           console := c; outage := outage w |}.
Proof. now repeat split. Qed.

Lemma keeps_zadd (uuid : string) (score : Z) (member : string) :
  keeps (same_elsewhere uuid) (redis_zadd (events_key uuid) score member).
Proof.
  intros w. unfold redis_zadd, network. destruct (outage w _); simpl; [reflexivity|].
  repeat split. intros key Hne. now apply zset_at_with_zset_ne.
Qed.

Lemma keeps_zremrangebyrank (uuid : string) (start stop : Z) :
  keeps (same_elsewhere uuid) (redis_zremrangebyrank (events_key uuid) start stop).
Proof.
  intros w. unfold redis_zremrangebyrank, network.
  destruct (outage w _); simpl; [reflexivity|].
  repeat split. intros key Hne. now apply zset_at_with_zset_ne.
Qed.

Lemma keeps_zrem (uuid member : string) :
  keeps (same_elsewhere uuid) (redis_zrem (events_key uuid) member).
Proof.
  intros w. unfold redis_zrem, network. destruct (outage w _); simpl; [reflexivity|].
  repeat split. intros key Hne. now apply zset_at_with_zset_ne.
Qed.

Lemma keeps_del (uuid : string) :
  keeps (same_elsewhere uuid) (redis_del (events_key uuid)).
Proof.
  intros w. unfold redis_del, network. destruct (outage w _); simpl; [reflexivity|].
  repeat split. intros key Hne. now apply zset_at_without_zset_ne.
Qed.

Lemma with_store_same (w : World) : with_store (store w) w = w.
Proof. now destruct w. Qed.

Lemma keeps_zcard (key : string) : keeps read_only (redis_zcard key).
Proof.
  intros w. unfold redis_zcard, network. destruct (outage w _); simpl; [reflexivity|].
  now repeat split.
Qed.

Lemma keeps_zrange (key : string) (start stop : Z) (rev : bool) :
  keeps read_only (redis_zrange key start stop rev).
Proof.
  intros w. unfold redis_zrange, network. destruct (outage w _); simpl; [reflexivity|].
  now repeat split.
Qed.

Lemma keeps_emit (uuid channel event : string) (data : json) :
  keeps (same_elsewhere uuid) (realtime_emit channel event data).
Proof.
  intros w. unfold realtime_emit. destruct (outage w _); simpl; [reflexivity|].
  now repeat split.
Qed.

Lemma keeps_weaken {A : Type} (R R' : World -> World -> Prop) (m : M A) :
  (forall w w', R w w' -> R' w w') -> keeps R m -> keeps R' m.
Proof. intros H Hm w. apply H, Hm. Qed.

Lemma keeps_JSON_parse_text (R : World -> World -> Prop) `{!Reflexive R}
    (text : string) :
  keeps R (JSON_parse_text text).
Proof. intros w. unfold JSON_parse_text. destruct (JSON_parse text); simpl; reflexivity. Qed.

Lemma keeps_parse_if_string (R : World -> World -> Prop) `{!Reflexive R}
    (event : json) :
  keeps R (parse_if_string event).
Proof.
  destruct event; try apply keeps_ret; try apply _.
  now apply keeps_JSON_parse_text.
Qed.

Lemma keeps_read_prop (R : World -> World -> Prop) `{!Reflexive R}
    (v : json) (name : string) :
  keeps R (read_prop v name).
Proof. intros w. destruct v; simpl; reflexivity. Qed.

Lemma keeps_map_M {A B : Type} (R : World -> World -> Prop) `{!PreOrder R}
    (f : A -> M B) (l : list A) :
  (forall x, keeps R (f x)) -> keeps R (map_M f l).
Proof.
  intros Hf. induction l as [|x l IH]; simpl.
  - apply keeps_ret, _.
  - apply keeps_bind; [apply _ | apply Hf |]. intros y.
    apply keeps_bind; [apply _ | exact IH |]. intros ys. apply keeps_ret, _.
Qed.

Lemma getWebhookSettings_read_only (uuid : string) :
  keeps read_only (getWebhookSettings uuid).
Proof. intros w. apply (getWebhookSettings_keeps uuid w). Qed.

Lemma getWebhookEvents_read_only (uuid : string) :
  keeps read_only (getWebhookEvents uuid).
Proof.
  unfold getWebhookEvents.
  apply keeps_try_catch; [apply _ | |].
  - apply keeps_bind; [apply _ | apply keeps_zrange |]. intros events.
    apply keeps_map_M; [apply _|]. intros x. apply keeps_parse_if_string, _.
  - intros e. apply keeps_bind; [apply _ | |].
    + apply keeps_console_error, read_only_console.
    + intros _. apply keeps_ret, _.
Qed.

Lemma parse_body_keeps_world (request : Request) (w : World) :
  snd (parse_body request w) = w.
Proof. now rewrite parse_body_body_of. Qed.

Lemma handleWebhook_same_elsewhere (request : Request) (uuid : string)
    (timestamp : Z) (eventId : string) :
  keeps (same_elsewhere uuid) (handleWebhook request uuid timestamp eventId).
Proof.
  unfold handleWebhook.
  apply keeps_try_catch; [apply _ | |].
  - apply keeps_bind; [apply _ | |].
    { intros w. rewrite parse_body_keeps_world. reflexivity. }
    intros b. apply keeps_bind; [apply _ | apply keeps_zadd |]. intros _.
    apply keeps_bind; [apply _ | |].
    { eapply keeps_weaken; [apply read_only_elsewhere | apply keeps_zcard]. }
    intros count. apply keeps_bind; [apply _ | |].
    { destruct (50 <? count); [apply keeps_zremrangebyrank | apply keeps_ret, _]. }
    intros _. apply keeps_bind; [apply _ | apply keeps_emit |]. intros _.
    apply keeps_bind; [apply _ | |].
    { eapply keeps_weaken; [apply read_only_elsewhere | apply getWebhookSettings_read_only]. }
    intros settings. destruct (truthy settings); apply keeps_returning, _.
  - intros e. apply keeps_bind; [apply _ | |].
    + apply keeps_console_error, same_elsewhere_console.
    + intros _. apply keeps_returning, _.
Qed.

Lemma delete_first_match_same_elsewhere (uuid eventId : string) (events : list json) :
  keeps (same_elsewhere uuid) (delete_first_match (events_key uuid) eventId events).
Proof.
  induction events as [|event rest IH]; simpl.
  - apply keeps_ret, _.
  - apply keeps_bind; [apply _ | apply keeps_parse_if_string, _ |]. intros parsed.
    apply keeps_bind; [apply _ | apply keeps_read_prop, _ |]. intros id.
    destruct (strict_eq_string id eventId); [|exact IH].
    apply keeps_bind; [apply _ | apply keeps_zrem |]. intros _. apply keeps_ret, _.
Qed.

Lemma deleteWebhookEvent_same_elsewhere (uuid eventId : string) :
  keeps (same_elsewhere uuid) (deleteWebhookEvent uuid eventId).
Proof.
  unfold deleteWebhookEvent.
  apply keeps_try_catch; [apply _ | |].
  - apply keeps_bind; [apply _ | |].
    { eapply keeps_weaken; [apply read_only_elsewhere | apply keeps_zrange]. }
    intros events. apply delete_first_match_same_elsewhere.
  - intros e. apply keeps_bind; [apply _ | |].
    + apply keeps_console_error, same_elsewhere_console.
    + intros _. apply keeps_ret, _.
Qed.

Lemma deleteAllWebhookEvents_same_elsewhere (uuid : string) :
  keeps (same_elsewhere uuid) (deleteAllWebhookEvents uuid).
Proof.
  unfold deleteAllWebhookEvents.
  apply keeps_try_catch; [apply _ | |].
  - apply keeps_bind; [apply _ | apply keeps_del |]. intros _. apply keeps_ret, _.
  - intros e. apply keeps_bind; [apply _ | |].
    + apply keeps_console_error, same_elsewhere_console.
    + intros _. apply keeps_ret, _.
Qed.

Lemma length_append (a b : string) :
  String.length (a ++ b) = (String.length a + String.length b)%nat.
Proof. induction a as [|c a IH]; simpl; [reflexivity | now rewrite IH]. Qed.

(** The keys of two endpoints differ. *)
Lemma append_inv_tail (a b s : string) : a ++ s = b ++ s -> a = b.
Proof.
  revert b. induction a as [|c a IH]; intros [|d b] H; simpl in H.
  - reflexivity.
  - exfalso. apply (f_equal String.length) in H.
    rewrite !length_append in H. simpl in H. lia.
  - exfalso. apply (f_equal String.length) in H.
    rewrite !length_append in H. simpl in H. lia.
  - injection H as -> H. f_equal. now apply IH.
Qed.

Lemma append_inv_head (p a b : string) : p ++ a = p ++ b -> a = b.
Proof. induction p as [|c p IH]; simpl; [auto|]. intros H. injection H as H. auto. Qed.

Lemma events_key_inj (uuid uuid' : string) :
  events_key uuid = events_key uuid' -> uuid = uuid'.
Proof.
  unfold events_key. intros H. apply append_inv_head in H.
  now apply append_inv_tail in H.
Qed.

Lemma settings_key_inj (uuid uuid' : string) :
  settings_key uuid = settings_key uuid' -> uuid = uuid'.
Proof.
  unfold settings_key. intros H. apply append_inv_head in H.
  now apply append_inv_tail in H.
Qed.

End FrameFacts.

Section CaptureFacts.
Context `{rt : Runtime}.

Local Open Scope js_scope.

Lemma handleWebhook_unfold (request : Request) (uuid : string) (timestamp : Z)
    (eventId : string) (w : World) :
  let event := webhook_event request uuid (body_of request) timestamp eventId in
  handleWebhook request uuid timestamp eventId w =
  try_catch
    (redis_zadd (events_key uuid) timestamp (JSON_stringify event) ;;;
     count <- redis_zcard (events_key uuid) ;;
     (if 50 <? count
      then redis_zremrangebyrank (events_key uuid) 0 (count - 51)
      else ret tt) ;;;
     realtime_emit ("webhook:" ++ uuid) "webhook.received" event ;;;
     settings <- getWebhookSettings uuid ;;
     if truthy settings
     then returning (custom_response settings)
     else ret default_response)
    (fun error =>
       console_error "Error processing webhook:" error ;;;
       ret error_response) w.
Proof.
  intros event. rewrite handleWebhook_answers. unfold try_catch. unfold bind at 1.
  rewrite parse_body_body_of. reflexivity.
Qed.

Lemma NextResponse_json_returned (body status : jsval)
    (headers : list (string * json)) (r : Response) :
  NextResponse_json body status headers = Returned r ->
  r = {| body := body; status := status; response_headers := headers |}.
Proof.
  unfold NextResponse_json. destruct body; [|discriminate].
  destruct (_ || _); [discriminate|].
  destruct (negb _); [discriminate|].
  destruct (null_body_status _); [discriminate|].
  intros H. now injection H as <-.
Qed.

Lemma obj_assign_not_nil {A : Type} (target entries : list (string * A)) :
  target <> [] -> obj_assign target entries <> [].
Proof.
  unfold obj_assign. revert target.
  induction entries as [|[k v] entries IH]; intros target Ht; simpl; [exact Ht|].
  apply IH. destruct target as [|[k0 v0] target]; simpl; [discriminate|].
  destruct (String.eqb k0 k); [discriminate|].
  destruct (goes_before k k0); discriminate.
Qed.

(** The answer is that of the internal failure only when the platform has
    refused the configured response. *)
Lemma response_for_error (settings : json) :
  response_for settings = error_response <->
  truthy settings = true /\ exists e, custom_response settings = Thrown e.
Proof.
  unfold response_for. destruct (truthy settings).
  - destruct (custom_response settings) as [r|e] eqn:E.
    + split.
      * intros ->. exfalso. unfold custom_response in E.
        apply NextResponse_json_returned in E.
        apply (f_equal response_headers) in E. cbn [response_headers] in E.
        symmetry in E. revert E. now apply obj_assign_not_nil.
      * intros [_ [e He]]. discriminate.
    + split; [intros _; split; [reflexivity | now exists e] | reflexivity].
  - split; [discriminate | intros [H _]; discriminate].
Qed.

(** X1.  The capture handler never throws: it answers every request.  The
    answer is the internal error of status 500 exactly when the append,
    the count, a trim the count asks for, or the publish fails, or when
    the platform refuses to build the configured response (an undefined
    body, a status outside 200 to 599 or one that goes without a body, a
    header it does not accept).  Otherwise it is the configured response
    when the settings read gives a truthy value and the default
    acknowledgement when it does not, so that a settings read that fails
    never costs the sender the answer. *)
Theorem handleWebhook_always_responds (request : Request) (uuid : string)
    (timestamp : Z) (eventId : string) (w : World) :
  let member :=
    JSON_stringify
      (webhook_event request uuid (body_of request) timestamp eventId) in
  exists settings,
    fst (getWebhookSettings uuid w) = Returned settings /\
    fst (handleWebhook request uuid timestamp eventId w) =
      Returned (if capture_goes_through w uuid timestamp member
                then if truthy settings then
                       match custom_response settings with
                       | Returned r => r
                       | Thrown _ => error_response
                       end
                     else default_response
                else error_response) /\
    (fst (handleWebhook request uuid timestamp eventId w) = Returned error_response <->
     capture_goes_through w uuid timestamp member = false \/
     (truthy settings = true /\ exists e, custom_response settings = Thrown e)).
Proof.
  intros member.
  destruct (getWebhookSettings_returns uuid w) as [settings Hg].
  exists settings. split; [exact Hg|].
  assert (Hanswer :
            fst (handleWebhook request uuid timestamp eventId w) =
            Returned (if capture_goes_through w uuid timestamp member
                      then response_for settings else error_response)).
  { rewrite handleWebhook_unfold. fold member.
    unfold capture_goes_through, channel_up, try_catch.
    unfold bind at 1. unfold redis_zadd, network.
    destruct (outage w (ZADD (events_key uuid))) eqn:Ea; [reflexivity|].
    cbn [negb andb].
    unfold bind at 1. unfold redis_zcard, network. cbn [outage with_store].
    destruct (outage w (ZCARD (events_key uuid))) eqn:Ec; [reflexivity|].
    cbn [negb andb store with_store]. rewrite zset_at_with_zset.
    fold (log_of uuid w).
    set (added := zadd timestamp member (log_of uuid w)).
    set (w1 := with_store _ (with_store _ w)).
    assert (Hout1 : outage w1 = outage w) by reflexivity.
    assert (Htexts1 : texts (store w1) = texts (store w)) by reflexivity.
    clearbody w1.
    set (K := (realtime_emit _ _ _ ;;; _)).
    assert (Htail : forall w2,
               outage w2 = outage w -> texts (store w2) = texts (store w) ->
               exists w3,
                 K w2 =
                 (if negb (outage w (EMIT ("webhook:" ++ uuid)))
                  then if truthy settings then custom_response settings
                       else Returned default_response
                  else Thrown "network error", w3)).
    { intros w2 Hout2 Htexts2. subst K.
      unfold bind at 1. unfold realtime_emit. rewrite Hout2.
      destruct (outage w (EMIT ("webhook:" ++ uuid))); [now eexists|].
      cbn [negb].
      set (w3 := {| store := store w2; published := _; console := console w2;
                    outage := outage w |}).
      assert (Hg3 : fst (getWebhookSettings uuid w3) = Returned settings).
      { rewrite <- Hg. apply getWebhookSettings_same; simpl; congruence. }
      unfold bind. destruct (getWebhookSettings uuid w3) as [r3 w4].
      simpl in Hg3. subst r3. exists w4. now destruct (truthy settings). }
    clearbody K.
    assert (Hend : forall w3,
               fst (let (o, w') :=
                      (if negb (outage w (EMIT ("webhook:" ++ uuid)))
                       then if truthy settings then custom_response settings
                            else Returned default_response
                       else Thrown "network error", w3) in
                    match o with
                    | Returned a => (Returned a, w')
                    | Thrown e =>
                        (console_error "Error processing webhook:" e ;;;
                         ret error_response) w'
                    end) =
               Returned (if negb (outage w (EMIT ("webhook:" ++ uuid)))
                         then response_for settings else error_response)).
    { intros w3. unfold response_for.
      destruct (outage w (EMIT _)); [reflexivity|]. cbn [negb].
      destruct (truthy settings); [|reflexivity].
      now destruct (custom_response settings). }
    unfold bind at 1.
    destruct (50 <? zcard added) eqn:E50.
    - unfold redis_zremrangebyrank, network. rewrite Hout1.
      destruct (outage w (ZREMRANGEBYRANK (events_key uuid))); [reflexivity|].
      cbn [negb andb].
      destruct (Htail (with_store (with_zset (events_key uuid)
                                     (zremrangebyrank 0 (zcard added - 51)
                                        (zset_at (events_key uuid) (store w1)))
                                     (store w1)) w1)) as [w3 ->];
        [exact Hout1 | exact Htexts1 |].
      apply Hend.
    - unfold ret at 1. cbn [andb].
      destruct (Htail w1 Hout1 Htexts1) as [w3 ->]. apply Hend. }
  split; [exact Hanswer|].
  rewrite Hanswer.
  destruct (capture_goes_through w uuid timestamp member).
  - rewrite <- response_for_error. split.
    + intros H. right. now injection H.
    + intros [H|H]; [discriminate | now rewrite H].
  - split; [now left | reflexivity].
Qed.

Lemma respond_phase (uuid : string) (event : json) (w : World) :
  let K :=
    (realtime_emit ("webhook:" ++ uuid) "webhook.received" event ;;;
     settings <- getWebhookSettings uuid ;;
     if truthy settings
     then returning (custom_response settings)
     else ret default_response) in
  if outage w (EMIT ("webhook:" ++ uuid))
  then K w = (Thrown "network error", w)
  else exists r w',
      K w = (r, w') /\
      store w' = store w /\
      published w' = (published w ++ [capture_message uuid event])%list /\
      outage w' = outage w.
Proof.
  intros K. subst K.
  destruct (outage w (EMIT ("webhook:" ++ uuid))) eqn:E;
    unfold bind at 1; unfold realtime_emit; rewrite E; [reflexivity|].
  set (w3 := {| store := store w; published := _; console := console w;
                outage := outage w |}).
  destruct (getWebhookSettings_keeps uuid w3) as (Hst & Hpb & Hou).
  unfold bind. destruct (getWebhookSettings uuid w3) as [[settings|e] w4].
  - simpl in Hst, Hpb, Hou.
    exists (if truthy settings then custom_response settings
            else Returned default_response), w4.
    split; [now destruct (truthy settings)|]. now repeat split.
  - exists (Thrown e), w4. now repeat split.
Qed.

(** The world a capture leaves, whatever fails. *)
Lemma handleWebhook_world (request : Request) (uuid : string) (timestamp : Z)
    (eventId : string) (w : World) :
  let event := webhook_event request uuid (body_of request) timestamp eventId in
  let member := JSON_stringify event in
  let added := zadd timestamp member (log_of uuid w) in
  let w' := snd (handleWebhook request uuid timestamp eventId w) in
  log_of uuid w' =
    (if outage w (ZADD (events_key uuid)) then log_of uuid w
     else if outage w (ZCARD (events_key uuid)) then added
     else if (50 <? zcard added) && negb (outage w (ZREMRANGEBYRANK (events_key uuid)))
          then zremrangebyrank 0 (zcard added - 51) added
          else added) /\
  published w' =
    (if capture_goes_through w uuid timestamp member
     then published w ++ [capture_message uuid event]
     else published w)%list /\
  (capture_goes_through w uuid timestamp member = false ->
   console w' = (console w ++ ["Error processing webhook: network error"])%list).
Proof.
  intros event member added w'.
  assert (Hw' : w' = snd (handleWebhook request uuid timestamp eventId w))
    by reflexivity.
  clearbody w'.
  rewrite handleWebhook_unfold in Hw'. fold event in Hw'. fold member in Hw'.
  unfold capture_goes_through, channel_up. fold added.
  unfold try_catch in Hw'.
  unfold bind at 1 in Hw'. unfold redis_zadd, network in Hw'.
  destruct (outage w (ZADD (events_key uuid))) eqn:Ea.
  { subst w'. cbn. now repeat split. }
  cbn [negb andb].
  unfold bind at 1 in Hw'. unfold redis_zcard, network in Hw'.
  cbn [outage with_store] in Hw'.
  destruct (outage w (ZCARD (events_key uuid))) eqn:Ec.
  { subst w'. cbn. unfold log_of. cbn [store with_store].
    rewrite zset_at_with_zset. now repeat split. }
  cbn [negb andb store with_store] in Hw'. rewrite zset_at_with_zset in Hw'.
  fold (log_of uuid w) in Hw'. fold added in Hw'.
  cbn [negb andb].
  set (w1 := with_store _ (with_store _ w)) in Hw'.
  assert (Hout1 : outage w1 = outage w) by reflexivity.
  assert (Hpub1 : published w1 = published w) by reflexivity.
  assert (Hcon1 : console w1 = console w) by reflexivity.
  assert (Hlog1 : log_of uuid w1 = added).
  { unfold log_of, w1. cbn [store with_store]. apply zset_at_with_zset. }
  clearbody w1.
  set (K := (realtime_emit _ _ _ ;;; _)) in Hw'.
  assert (Htail : forall w2 l,
             outage w2 = outage w -> published w2 = published w ->
             console w2 = console w -> log_of uuid w2 = l ->
             forall w',
             w' = snd (let (o, w') := K w2 in
                       match o with
                       | Returned a => (Returned a, w')
                       | Thrown e =>
                           (console_error "Error processing webhook:" e ;;;
                            ret error_response) w'
                       end) ->
             log_of uuid w' = l /\
             published w' =
               (if negb (outage w (EMIT ("webhook:" ++ uuid)))
                then published w ++ [capture_message uuid event]
                else published w)%list /\
             (negb (outage w (EMIT ("webhook:" ++ uuid))) = false ->
              console w' =
                (console w ++ ["Error processing webhook: network error"])%list)).
  { intros w2 l Hout2 Hpub2 Hcon2 Hlog2 w3 Hw3.
    pose proof (respond_phase uuid event w2) as H. cbv zeta in H. fold K in H.
    rewrite Hout2 in H.
    destruct (outage w (EMIT ("webhook:" ++ uuid))).
    - rewrite H in Hw3. subst w3. cbn. rewrite Hcon2. now repeat split.
    - destruct H as (r & w4 & HK & Hst & Hpb & Hou). rewrite HK in Hw3.
      subst w3. cbn [negb].
      destruct r as [a|e]; cbn [snd bind console_error ret];
        unfold log_of in *; cbn [store published];
        rewrite Hst, Hpb, Hpub2; now repeat split. }
  clearbody K.
  unfold bind at 1 in Hw'.
  destruct (50 <? zcard added) eqn:E50.
  - unfold redis_zremrangebyrank, network in Hw'. rewrite Hout1 in Hw'.
    destruct (outage w (ZREMRANGEBYRANK (events_key uuid))).
    { subst w'. cbn [snd console_error bind ret]. unfold log_of in *.
      cbn [store published console]. rewrite Hlog1, Hpub1, Hcon1.
      now repeat split. }
    cbn [negb andb]. eapply Htail; [| | | |exact Hw']; try assumption.
    unfold log_of in *. cbn [store with_store].
    rewrite zset_at_with_zset. now rewrite Hlog1.
  - unfold ret at 1 in Hw'. cbn [andb]. eapply Htail; [| | | |exact Hw']; assumption.
Qed.

(** X2.  When a call of the capture fails, nothing is published and the
    failure is logged, but the store is not rolled back: the event is in
    the log as soon as the append went through, and it stays there
    untrimmed when the count or the trim is what failed. *)
Theorem failed_capture_is_not_published (request : Request) (uuid : string)
    (timestamp : Z) (eventId : string) (w : World) :
  let event := webhook_event request uuid (body_of request) timestamp eventId in
  let member := JSON_stringify event in
  let added := zadd timestamp member (log_of uuid w) in
  capture_goes_through w uuid timestamp member = false ->
  let w' := snd (handleWebhook request uuid timestamp eventId w) in
  published w' = published w /\
  console w' = (console w ++ ["Error processing webhook: network error"])%list /\
  log_of uuid w' =
    (if outage w (ZADD (events_key uuid)) then log_of uuid w
     else if outage w (ZCARD (events_key uuid))
             || (50 <? zcard added) && outage w (ZREMRANGEBYRANK (events_key uuid))
          then added
          else capture_log timestamp member (log_of uuid w)).
Proof.
  intros event member added Hfail w'.
  destruct (handleWebhook_world request uuid timestamp eventId w)
    as (Hlog & Hpub & Hcon).
  fold event member added w' in Hlog, Hpub, Hcon.
  rewrite Hfail in Hpub. split; [exact Hpub|]. split; [now apply Hcon|].
  rewrite Hlog. unfold capture_log. fold added.
  destruct (outage w (ZADD _)); [reflexivity|].
  destruct (outage w (ZCARD _)); [reflexivity|].
  destruct (50 <? zcard added); [|reflexivity].
  now destruct (outage w (ZREMRANGEBYRANK _)).
Qed.

(** X3.  A capture whose calls go through publishes one message and no
    more, on the channel of its endpoint, and the message carries the
    event whose text it has put in the log. *)
Theorem capture_publishes_the_stored_event (request : Request) (uuid : string)
    (timestamp : Z) (eventId : string) (w : World) :
  let event := webhook_event request uuid (body_of request) timestamp eventId in
  capture_goes_through w uuid timestamp (JSON_stringify event) = true ->
  let w' := snd (handleWebhook request uuid timestamp eventId w) in
  exists message,
    published w' = (published w ++ [message])%list /\
    msg_channel message = "webhook:" ++ uuid /\
    msg_event message = "webhook.received" /\
    msg_data message = event /\
    log_of uuid w' =
      capture_log timestamp (JSON_stringify (msg_data message)) (log_of uuid w).
Proof.
  intros event Hok w'.
  destruct (handleWebhook_world request uuid timestamp eventId w)
    as (Hlog & Hpub & _).
  fold event w' in Hlog, Hpub. rewrite Hok in Hpub.
  exists (capture_message uuid event). split; [exact Hpub|].
  repeat split. rewrite Hlog. cbn [msg_data capture_message].
  unfold capture_goes_through in Hok. rewrite !andb_true_iff in Hok.
  destruct Hok as [[[Ha Hc] Ht] _]. unfold capture_log.
  rewrite negb_true_iff in Ha, Hc. rewrite Ha, Hc.
  destruct (50 <? zcard _); [|reflexivity]. now rewrite Ht.
Qed.

(** X4.  Whatever fails, a capture for one endpoint leaves the log of
    every other endpoint and the settings of every endpoint as they
    were. *)
Theorem capture_leaves_other_endpoints (request : Request) (uuid other : string)
    (timestamp : Z) (eventId : string) (w : World) :
  other <> uuid ->
  let w' := snd (handleWebhook request uuid timestamp eventId w) in
  log_of other w' = log_of other w /\
  (forall u, settings_text u w' = settings_text u w) /\
  outage w' = outage w.
Proof.
  intros Hne w'.
  destruct (handleWebhook_same_elsewhere request uuid timestamp eventId w)
    as (Htexts & Hsets & Hout).
  fold w' in Htexts, Hsets, Hout. split; [|split; [|exact Hout]].
  - apply Hsets. intros H. apply Hne. now apply events_key_inj.
  - intros u. unfold settings_text. now rewrite Htexts.
Qed.

Lemma length_zadd_pos (score : Z) (member : string) (l : zset) :
  (1 <= length (zadd score member l) <= S (length l))%nat.
Proof.
  unfold zadd. rewrite length_insert_entry. split; [lia|].
  apply le_n_S. unfold zrem. apply filter_length_le.
Qed.

Lemma length_capture_log (timestamp : Z) (member : string) (l : zset) :
  length (capture_log timestamp member l) =
  Nat.min 50 (length (zadd timestamp member l)).
Proof.
  unfold capture_log. rewrite trim_newest. unfold newest.
  rewrite length_drop. lia.
Qed.

(** X5.  After a capture whose store calls went through, the log of the
    endpoint holds at least the new event and at most 50 entries, however
    many it held before, and at most one more than before. *)
Theorem capture_bounds_the_log (request : Request) (uuid : string)
    (timestamp : Z) (eventId : string) (w : World) :
  storage_up w uuid = true ->
  let w' := snd (handleWebhook request uuid timestamp eventId w) in
  (1 <= length (log_of uuid w') <= 50)%nat /\
  (length (log_of uuid w') <= S (length (log_of uuid w)))%nat.
Proof.
  intros Hs w'.
  destruct (handleWebhook_log request uuid timestamp eventId w Hs) as [Hlog _].
  fold w' in Hlog. rewrite Hlog, length_capture_log.
  pose proof (length_zadd_pos timestamp
                (JSON_stringify
                   (webhook_event request uuid (body_of request) timestamp eventId))
                (log_of uuid w)).
  lia.
Qed.

Lemma rev_newest_snoc {A : Type} (n : nat) (l : list A) (x : A) :
  rev (newest (S n) (l ++ [x])) = x :: take n (rev l).
Proof.
  unfold newest. rewrite length_app. simpl.
  replace (length l + 1 - S n)%nat with (length l - n)%nat by lia.
  rewrite drop_app_le by lia. rewrite rev_app_distr. simpl.
  now rewrite firstn_rev.
Qed.

Lemma deserialize_object (t : string) (props : list (string * json)) :
  JSON_parse t = Some (JObj props) -> deserialize t = JObj props.
Proof. intros H. unfold deserialize. now rewrite H. Qed.

(** X6.  Once the store calls of a capture went through, the history of
    the endpoint starts with the captured event, followed by the 49 most
    recent events of the history before, whether or not the publish
    succeeded. *)
Theorem captured_event_heads_the_history (request : Request) (uuid : string)
    (timestamp : Z) (eventId : string) (w : World) :
  let event := webhook_event request uuid (body_of request) timestamp eventId in
  storage_up w uuid = true ->
  outage w (ZRANGE (events_key uuid)) = false ->
  JSON_parse (JSON_stringify event) = Some event ->
  Forall (fun entry => canonical_event (snd entry)) (log_of uuid w) ->
  (forall entry, entry ∈ log_of uuid w -> fst entry < timestamp) ->
  JSON_stringify event ∉ map snd (log_of uuid w) ->
  let w' := snd (handleWebhook request uuid timestamp eventId w) in
  exists before,
    fst (getWebhookEvents uuid w) = Returned before /\
    fst (getWebhookEvents uuid w') = Returned (event :: take 49 before).
Proof.
  intros event Hs Hrange Hround Hcan Hlater Hfresh w'.
  destruct (handleWebhook_log request uuid timestamp eventId w Hs) as [Hlog Hout].
  fold event w' in Hlog, Hout.
  rewrite capture_log_fresh_top in Hlog by assumption.
  exists (map deserialize (map snd (rev (log_of uuid w)))). split.
  - now rewrite getWebhookEvents_run.
  - rewrite getWebhookEvents_run.
    + cbn [fst]. rewrite Hlog, rev_newest_snoc. cbn [map snd].
      assert (Hd : deserialize (JSON_stringify event) = event)
        by (eapply deserialize_object, Hround).
      rewrite Hd. now rewrite <- !firstn_map.
    + now rewrite Hout.
    + apply (handleWebhook_keeps_canonical request uuid timestamp eventId w Hs);
        assumption.
Qed.

End CaptureFacts.

Section ActionFacts.
Context `{rt : Runtime}.

Local Open Scope js_scope.

Lemma saveWebhookSettings_run (uuid : string) (s : WebhookSettings) (w : World) :
  saveWebhookSettings uuid s w =
  if outage w (SET (settings_key uuid))
  then (Returned false,
        {| store := store w; published := published w;
           console := console w ++ ["Error saving settings: network error"];
           outage := outage w |})
  else (Returned true,
        with_store (with_text (settings_key uuid)
                      (JSON_stringify (settings_object s)) (store w)) w).
Proof.
  unfold saveWebhookSettings, try_catch, bind, redis_set, network.
  now destruct (outage w (SET (settings_key uuid))).
Qed.

(** X7.  Saving settings never throws: it answers whether the write went
    through.  A write that failed leaves the stored settings as they
    were; in either case the settings of the other endpoints, the logs and
    the published messages stay as they were. *)
Theorem saveWebhookSettings_outcome (uuid : string) (s : WebhookSettings)
    (w : World) :
  let '(r, w') := saveWebhookSettings uuid s w in
  r = Returned (negb (outage w (SET (settings_key uuid)))) /\
  settings_text uuid w' =
    (if outage w (SET (settings_key uuid)) then settings_text uuid w
     else Some (JSON_stringify (settings_object s))) /\
  (forall other, other <> uuid -> settings_text other w' = settings_text other w) /\
  (forall u, log_of u w' = log_of u w) /\
  published w' = published w.
Proof.
  rewrite saveWebhookSettings_run.
  destruct (outage w (SET (settings_key uuid))); cbn [negb].
  - now repeat split.
  - unfold settings_text, log_of. cbn [store with_store texts with_text].
    split; [reflexivity|]. split; [apply lookup_insert_eq|].
    split; [|now split]. intros other Hne. apply lookup_insert_ne.
    intros H. apply Hne. symmetry. now apply settings_key_inj.
Qed.

Lemma run_saves_settings_text (uuid : string)
    (saves : list (string * WebhookSettings)) (w : World) :
  (forall save, save ∈ saves -> outage w (SET (settings_key (fst save))) = false) ->
  settings_text uuid (run_saves saves w) =
    match assoc uuid (rev saves) with
    | Some s => Some (JSON_stringify (settings_object s))
    | None => settings_text uuid w
    end /\
  outage (run_saves saves w) = outage w.
Proof.
  revert w. induction saves as [|[u s] saves IH] using rev_ind; intros w Hup.
  - now split.
  - unfold run_saves. rewrite fold_left_app. cbn [fold_left fst snd].
    fold (run_saves saves w).
    destruct (IH w) as [Htext Hout].
    { intros save Hin. apply Hup. apply elem_of_app. now left. }
    rewrite rev_app_distr. cbn [rev app assoc].
    rewrite saveWebhookSettings_run, Hout.
    assert (Hu : outage w (SET (settings_key u)) = false).
    { apply (Hup (u, s)). apply elem_of_app. right. now apply list_elem_of_singleton. }
    rewrite Hu. cbn [snd]. split; [|exact Hout].
    unfold settings_text in *. cbn [store with_store texts with_text].
    destruct (String.eqb_spec u uuid) as [->|Hne].
    + apply lookup_insert_eq.
    + rewrite lookup_insert_ne; [exact Htext|].
      intros H. apply Hne. now apply settings_key_inj.
Qed.

(** X8.  After any sequence of saves that went through, for whatever
    endpoints, an endpoint reads back the settings of the last save made
    for it; the saves made for other endpoints do not count. *)
Theorem last_saved_settings_are_read (uuid : string)
    (saves : list (string * WebhookSettings)) (s : WebhookSettings) (w : World) :
  (forall save, save ∈ saves -> outage w (SET (settings_key (fst save))) = false) ->
  outage w (GET (settings_key uuid)) = false ->
  assoc uuid (rev saves) = Some s ->
  JSON_parse (JSON_stringify (settings_object s)) = Some (settings_object s) ->
  fst (getWebhookSettings uuid (run_saves saves w)) = Returned (settings_object s).
Proof.
  intros Hup Hget Hlast Hround.
  destruct (run_saves_settings_text uuid saves w Hup) as [Htext Hout].
  rewrite Hlast in Htext.
  erewrite getWebhookSettings_object; [reflexivity | | exact Htext | exact Hround].
  now rewrite Hout.
Qed.

Lemma map_M_same {A B : Type} (f : A -> M B) (l : list A) :
  (forall x w, snd (f x w) = w) ->
  (forall x w w', fst (f x w') = fst (f x w)) ->
  forall w w', snd (map_M f l w) = w /\ fst (map_M f l w') = fst (map_M f l w).
Proof.
  intros Hsnd Hfst. induction l as [|x l IH]; intros w w'; [now split|].
  simpl. unfold bind.
  specialize (Hsnd x). specialize (Hfst x w w').
  pose proof (Hsnd w) as Hw. pose proof (Hsnd w') as Hw'.
  destruct (f x w) as [[y|e] w1], (f x w') as [[y'|e'] w1'];
    simpl in *; try discriminate; subst; [|split; congruence].
  injection Hfst as ->.
  destruct (IH w w') as [H1 H2].
  destruct (map_M f l w) as [[ys|e] w2], (map_M f l w') as [[ys'|e'] w2'];
    simpl in *; try discriminate; subst; split; congruence.
Qed.

Lemma parse_if_string_pure (event : json) (w : World) :
  snd (parse_if_string event w) = w.
Proof.
  destruct event; try reflexivity. simpl. unfold JSON_parse_text.
  now destruct (JSON_parse s).
Qed.

Lemma parse_if_string_same (event : json) (w w' : World) :
  fst (parse_if_string event w') = fst (parse_if_string event w).
Proof.
  destruct event; try reflexivity. simpl. unfold JSON_parse_text.
  now destruct (JSON_parse s).
Qed.

Lemma getWebhookEvents_same (uuid : string) (w w' : World) :
  outage w' = outage w -> store w' = store w ->
  fst (getWebhookEvents uuid w') = fst (getWebhookEvents uuid w).
Proof.
  intros Hout Hst.
  unfold getWebhookEvents, try_catch, bind, redis_zrange, network.
  rewrite Hout, Hst.
  destruct (outage w (ZRANGE (events_key uuid))); [reflexivity|].
  set (l := map deserialize _).
  destruct (map_M_same parse_if_string l parse_if_string_pure
              (fun x w w' => parse_if_string_same x w w')
              (with_store (store w) w) (with_store (store w) w')) as [_ H].
  destruct (map_M parse_if_string l (with_store (store w) w)) as [[ys|e] w2],
           (map_M parse_if_string l (with_store (store w) w')) as [[ys'|e'] w2'];
    simpl in *; congruence.
Qed.

Lemma getWebhookEvents_returns (uuid : string) : never_throws (getWebhookEvents uuid).
Proof.
  apply try_catch_never_throws. intros e. apply log_and_return_never_throws.
Qed.

(** X9.  Fetching the history never throws and is a pure read: it changes
    neither the store nor the published messages, and fetching again
    gives the same answer. *)
Theorem fetching_history_is_a_read (uuid : string) (w : World) :
  let '(r, w') := getWebhookEvents uuid w in
  (exists fetched, r = Returned fetched) /\
  store w' = store w /\
  published w' = published w /\
  fst (getWebhookEvents uuid w') = r.
Proof.
  pose proof (getWebhookEvents_returns uuid w) as Hr.
  pose proof (getWebhookEvents_read_only uuid w) as (Hst & Hpub & Hout).
  pose proof (getWebhookEvents_same uuid w (snd (getWebhookEvents uuid w)) Hout Hst)
    as Hsame.
  destruct (getWebhookEvents uuid w) as [r w']. simpl in *. now repeat split.
Qed.

(** X10.  Reading the settings never throws and is a pure read: it changes
    neither the store nor the published messages, and reading again gives
    the same answer. *)
Theorem reading_settings_is_a_read (uuid : string) (w : World) :
  let '(r, w') := getWebhookSettings uuid w in
  (exists settings, r = Returned settings) /\
  store w' = store w /\
  published w' = published w /\
  fst (getWebhookSettings uuid w') = r.
Proof.
  pose proof (getWebhookSettings_returns uuid w) as Hr.
  pose proof (getWebhookSettings_keeps uuid w) as (Hst & Hpub & Hout).
  pose proof (getWebhookSettings_same uuid w (snd (getWebhookSettings uuid w)) Hout)
    as Hsame.
  destruct (getWebhookSettings uuid w) as [r w']. simpl in *.
  repeat split; try assumption. apply Hsame. now rewrite Hst.
Qed.

Lemma map_M_throws (members : list string) (bad : string) (w : World) :
  bad ∈ members ->
  JSON_parse bad = None ->
  map_M parse_if_string (map deserialize members) w = (Thrown "SyntaxError", w).
Proof.
  intros Hin Hbad. induction members as [|t members IH]; [inversion Hin|].
  simpl. unfold bind.
  pose proof (parse_if_string_pure (deserialize t) w) as Hw.
  destruct (parse_if_string (deserialize t) w) as [[y|e] w1] eqn:E;
    simpl in Hw; subst w1.
  - apply elem_of_cons in Hin as [->|Hin].
    + exfalso. unfold deserialize in E. rewrite Hbad in E. simpl in E.
      unfold JSON_parse_text in E. rewrite Hbad in E. discriminate.
    + now rewrite (IH Hin).
  - f_equal. f_equal.
    destruct (deserialize t); simpl in E; try discriminate.
    unfold JSON_parse_text in E. destruct (JSON_parse s); now inversion E.
Qed.

(** X11.  The history comes back empty, with the failure logged, when the
    store does not answer and also when a single member of the log is a
    text that is not JSON: one such member hides every event of the
    endpoint. *)
Theorem unreadable_history_is_empty (uuid : string) (w : World) :
  outage w (ZRANGE (events_key uuid)) = true \/
  (exists entry, entry ∈ log_of uuid w /\ JSON_parse (snd entry) = None) ->
  exists failure,
    getWebhookEvents uuid w =
    (Returned [],
     {| store := store w; published := published w;
        console := console w ++ ["Error fetching webhook events: " ++ failure];
        outage := outage w |}).
Proof.
  intros H. unfold getWebhookEvents, try_catch. unfold bind at 1.
  unfold redis_zrange, network.
  destruct (outage w (ZRANGE (events_key uuid))) eqn:E.
  - now exists "network error".
  - destruct H as [H|(entry & Hin & Hbad)]; [discriminate|].
    exists "SyntaxError". rewrite zrange_all.
    rewrite (map_M_throws _ (snd entry)); [reflexivity | | exact Hbad].
    apply list_elem_of_In, in_map, in_rev. rewrite rev_involutive.
    now apply list_elem_of_In.
Qed.

End ActionFacts.

Section DeleteFacts.
Context `{rt : Runtime}.

Local Open Scope js_scope.

(** The loop either removes one member and answers [true], or leaves the
    world as it was. *)
Lemma delete_first_match_world (key eventId : string) (events : list json)
    (w : World) :
  let '(r, w') := delete_first_match key eventId events w in
  (r = Returned true /\
   exists member,
     w' = with_store (with_zset key (zrem member (zset_at key (store w))) (store w)) w)
  \/ (r <> Returned true /\ w' = w).
Proof.
  induction events as [|event rest IH]; simpl.
  - right. split; [discriminate | reflexivity].
  - unfold bind at 1.
    pose proof (parse_if_string_pure event w) as Hw.
    destruct (parse_if_string event w) as [[parsed|e] w1]; simpl in Hw; subst w1.
    2: { right. split; [discriminate | reflexivity]. }
    unfold bind at 1.
    assert (Hstep : forall id,
               let '(r, w') :=
                 (if strict_eq_string id eventId
                  then redis_zrem key
                         match event with
                         | JStr text => text
                         | _ => JSON_stringify event
                         end ;;; ret true
                  else delete_first_match key eventId rest) w in
               (r = Returned true /\
                exists member,
                  w' = with_store
                         (with_zset key (zrem member (zset_at key (store w)))
                            (store w)) w)
               \/ (r <> Returned true /\ w' = w)).
    { intros id. destruct (strict_eq_string id eventId); [|exact IH].
      unfold bind, redis_zrem, network.
      destruct (outage w (ZREM key)).
      - right. split; [discriminate | reflexivity].
      - left. split; [reflexivity | eexists; reflexivity]. }
    destruct parsed; cbn [read_prop ret throw];
      first [ apply Hstep | right; split; [discriminate | reflexivity] ].
Qed.

Lemma zrem_sublist (member : string) (l : zset) : sublist (zrem member l) l.
Proof. unfold zrem. apply filter_sublist. Qed.


Lemma deleteWebhookEvent_log_sublist (uuid eventId : string) (w : World) :
  sublist (log_of uuid (snd (deleteWebhookEvent uuid eventId w))) (log_of uuid w).
Proof.
  unfold deleteWebhookEvent, try_catch. unfold bind at 1.
  unfold redis_zrange, network.
  destruct (outage w (ZRANGE (events_key uuid))); [reflexivity|].
  rewrite with_store_same.
  set (events := map deserialize _).
  pose proof (delete_first_match_world (events_key uuid) eventId events w) as H.
  destruct (delete_first_match (events_key uuid) eventId events w) as [[b|e] w1].
  - destruct H as [[_ [member ->]]|[_ ->]]; [|reflexivity].
    unfold log_of. cbn [snd store with_store]. rewrite zset_at_with_zset.
    apply zrem_sublist.
  - destruct H as [[H _]|[_ ->]]; [discriminate | reflexivity].
Qed.

(** X12.  Deleting one event never throws, every failure is the answer
    [false], and an answer [false] means that the store is as it was.
    Whatever the answer, nothing is added to the log of the endpoint, and
    the other logs, the settings and the published messages stay as they
    were. *)
Theorem deleteWebhookEvent_is_safe (uuid eventId : string) (w : World) :
  let '(r, w') := deleteWebhookEvent uuid eventId w in
  exists deleted,
    r = Returned deleted /\
    (deleted = false -> store w' = store w) /\
    sublist (log_of uuid w') (log_of uuid w) /\
    (forall other, other <> uuid -> log_of other w' = log_of other w) /\
    (forall u, settings_text u w' = settings_text u w) /\
    published w' = published w.
Proof.
  pose proof (deleteWebhookEvent_same_elsewhere uuid eventId w)
    as (Htexts & Hsets & _).
  assert (Helse : forall w',
             w' = snd (deleteWebhookEvent uuid eventId w) ->
             (forall other, other <> uuid -> log_of other w' = log_of other w) /\
             (forall u, settings_text u w' = settings_text u w)).
  { intros w' ->. split.
    - intros other Hne. apply Hsets. intros H. apply Hne. now apply events_key_inj.
    - intros u. unfold settings_text. now rewrite Htexts. }
  clear Htexts Hsets.
  unfold deleteWebhookEvent, try_catch in *. unfold bind at 1 in Helse.
  unfold bind at 1. unfold redis_zrange, network in *.
  destruct (outage w (ZRANGE (events_key uuid))).
  { exists false. cbn in *. destruct (Helse _ eq_refl). now repeat split. }
  rewrite with_store_same in *.
  set (events := map deserialize _) in *.
  pose proof (delete_first_match_world (events_key uuid) eventId events w) as H.
  destruct (delete_first_match (events_key uuid) eventId events w) as [[b|e] w1].
  - exists b. destruct (Helse _ eq_refl) as [H1 H2].
    destruct H as [[Hb [member ->]]|[Hb ->]].
    + injection Hb as ->. split; [reflexivity|].
      split; [discriminate|]. split; [|now repeat split].
      unfold log_of. cbn [store with_store]. rewrite zset_at_with_zset.
      apply zrem_sublist.
    + now repeat split.
  - exists false. destruct (Helse _ eq_refl) as [H1 H2].
    destruct H as [[H _]|[_ ->]]; [discriminate|].
    cbn in *. now repeat split.
Qed.

(** X13.  Deleting all events never throws and answers whether the
    store went along.  When it did, the log of the endpoint is empty and
    so is the history fetched afterwards; when it did not, the log is as
    it was.  The other logs and the settings stay as they were. *)
Theorem deleteAllWebhookEvents_outcome (uuid : string) (w : World) :
  let '(r, w') := deleteAllWebhookEvents uuid w in
  let failed := outage w (DEL (events_key uuid)) in
  r = Returned (negb failed) /\
  log_of uuid w' = (if failed then log_of uuid w else []) /\
  (failed = false -> outage w (ZRANGE (events_key uuid)) = false ->
   fst (getWebhookEvents uuid w') = Returned []) /\
  (forall other, other <> uuid -> log_of other w' = log_of other w) /\
  (forall u, settings_text u w' = settings_text u w) /\
  published w' = published w.
Proof.
  unfold deleteAllWebhookEvents, try_catch, bind, redis_del, network.
  destruct (outage w (DEL (events_key uuid))) eqn:E; cbn.
  - repeat split; discriminate.
  - assert (Hlog : log_of uuid (with_store (without_zset (events_key uuid) (store w)) w)
                   = []).
    { unfold log_of. cbn [store with_store]. apply zset_at_without_zset. }
    split; [reflexivity|]. split; [exact Hlog|]. split.
    + intros _ Hrange. rewrite getWebhookEvents_run; [now rewrite Hlog | exact Hrange |].
      rewrite Hlog. constructor.
    + repeat split. intros other Hne. unfold log_of. cbn [store with_store].
      apply zset_at_without_zset_ne. intros H. apply Hne. symmetry.
      now apply events_key_inj.
Qed.

Lemma deleteWebhookEvent_run (uuid eventId : string) (w : World) :
  outage w (ZRANGE (events_key uuid)) = false ->
  outage w (ZREM (events_key uuid)) = false ->
  Forall (fun entry => canonical_event (snd entry)) (log_of uuid w) ->
  deleteWebhookEvent uuid eventId w =
  match List.find (has_id eventId) (map snd (log_of uuid w)) with
  | Some m =>
      (Returned true,
       with_store (with_zset (events_key uuid) (zrem m (log_of uuid w)) (store w)) w)
  | None => (Returned false, w)
  end.
Proof.
  intros Hrange Hrem Hall.
  unfold deleteWebhookEvent, try_catch, bind at 1, redis_zrange, network.
  rewrite Hrange. simpl. rewrite zrange_all, with_store_same. fold (log_of uuid w).
  rewrite delete_first_match_run;
    [|exact Hrem | now apply Forall_map].
  destruct (find _ _); reflexivity.
Qed.

Lemma deleteWebhookEvent_leaves_no_match (uuid eventId : string) (w : World) :
  outage w (ZRANGE (events_key uuid)) = false ->
  outage w (ZREM (events_key uuid)) = false ->
  Forall (fun entry => canonical_event (snd entry)) (log_of uuid w) ->
  (forall e1 e2, e1 ∈ log_of uuid w -> e2 ∈ log_of uuid w ->
                 has_id eventId (snd e1) = true ->
                 has_id eventId (snd e2) = true -> snd e1 = snd e2) ->
  let w' := snd (deleteWebhookEvent uuid eventId w) in
  outage w' = outage w /\
  forall entry, entry ∈ log_of uuid w' ->
                entry ∈ log_of uuid w /\ has_id eventId (snd entry) = false.
Proof.
  intros Hrange Hrem Hall Huniq w'.
  subst w'. rewrite deleteWebhookEvent_run by assumption.
  destruct (List.find (has_id eventId) (map snd (log_of uuid w))) as [m|] eqn:Efind.
  - apply find_some in Efind as [Hin Hm].
    apply in_map_iff in Hin as (em & Hem & Hin).
    split; [reflexivity|]. intros entry He.
    unfold log_of in He at 1. cbn [snd store with_store] in He.
    rewrite zset_at_with_zset in He. unfold zrem in He.
    apply list_elem_of_In, filter_In in He as [He Hne].
    split; [now apply list_elem_of_In|].
    destruct (has_id eventId (snd entry)) eqn:Eid; [|reflexivity].
    exfalso. apply negb_true_iff, String.eqb_neq in Hne. apply Hne.
    rewrite <- Hem. apply Huniq; rewrite ?list_elem_of_In; congruence.
  - split; [reflexivity|]. intros entry He. split; [exact He|].
    apply (find_none _ _ Efind). apply in_map. now apply list_elem_of_In.
Qed.

(** X14.  When the ids of the stored events are distinct, deleting an
    event a second time answers [false] and changes nothing: the first
    deletion left no event of that id. *)
Theorem deleting_again_finds_nothing (uuid eventId : string) (w : World) :
  outage w (ZRANGE (events_key uuid)) = false ->
  outage w (ZREM (events_key uuid)) = false ->
  Forall (fun entry => canonical_event (snd entry)) (log_of uuid w) ->
  (forall e1 e2, e1 ∈ log_of uuid w -> e2 ∈ log_of uuid w ->
                 has_id eventId (snd e1) = true ->
                 has_id eventId (snd e2) = true -> snd e1 = snd e2) ->
  let w' := snd (deleteWebhookEvent uuid eventId w) in
  deleteWebhookEvent uuid eventId w' = (Returned false, w').
Proof.
  intros Hrange Hrem Hall Huniq w'.
  pose proof (deleteWebhookEvent_leaves_no_match uuid eventId w
                Hrange Hrem Hall Huniq) as Hw'.
  fold w' in Hw'.
  destruct Hw' as [Hout Hlog].
  rewrite deleteWebhookEvent_run.
  - destruct (List.find (has_id eventId) (map snd (log_of uuid w'))) as [m|] eqn:Efind;
      [|reflexivity].
    apply find_some in Efind as [Hin Hm].
    apply in_map_iff in Hin as (em & Hem & Hin).
    apply list_elem_of_In, Hlog in Hin as [_ Hin]. congruence.
  - now rewrite Hout.
  - now rewrite Hout.
  - apply Forall_forall. intros entry He. rewrite Forall_forall in Hall.
    apply Hall. now apply Hlog.
Qed.

End DeleteFacts.

(** ** The page, the inbox and the message viewer *)
Section HomeFacts.
Context `{rt : Runtime}.

Local Open Scope js_scope.

Lemma deleteWebhookEvent_returns (uuid eventId : string) :
  never_throws (deleteWebhookEvent uuid eventId).
Proof.
  apply try_catch_never_throws. intros e. apply log_and_return_never_throws.
Qed.

Lemma deleteAllWebhookEvents_run (uuid : string) (w : World) :
  deleteAllWebhookEvents uuid w =
  if outage w (DEL (events_key uuid))
  then (Returned false,
        {| store := store w; published := published w;
           console := console w ++ ["Error deleting all webhook events: network error"];
           outage := outage w |})
  else (Returned true, with_store (without_zset (events_key uuid) (store w)) w).
Proof.
  unfold deleteAllWebhookEvents, try_catch, bind, redis_del, network.
  now destruct (outage w (DEL (events_key uuid))).
Qed.


(** X16.  Deleting all events from the inbox does nothing at all when
    the question is declined.  When it is confirmed the list is emptied,
    the selection is cleared and the toast counts the events that were
    listed, whether or not the server emptied the log: the log is empty
    only when the store call went through. *)
Theorem inbox_delete_all_outcome (confirmed : bool) (st : Home.State) (w : World) :
  let uuid := Home.page_uuid st in
  let '(r, w') := Home.handleDeleteAll confirmed st w in
  if confirmed then
    exists st',
      r = Returned st' /\
      events (Home.inbox st') = [] /\
      Home.selectedEvent st' = None /\
      Home.toasts st' =
        (Home.toasts st ++
         [("Deleted all " ++ string_of_nat (length (events (Home.inbox st)))
                          ++ " webhooks")%string])%list /\
      log_of uuid w' =
        (if outage w (DEL (events_key uuid)) then log_of uuid w else [])
  else r = Returned st /\ w' = w.
Proof.
  unfold Home.handleDeleteAll. destruct confirmed; cbn [negb]; [|now split].
  unfold bind. rewrite deleteAllWebhookEvents_run.
  destruct (outage w (DEL (events_key (Home.page_uuid st)))); unfold ret;
    eexists; (split; [reflexivity|]); cbn; repeat split.
  unfold log_of. cbn. apply zset_at_without_zset.
Qed.

(** X17.  Deleting the selected event from the message viewer clears the
    selection and removes the event from the store, but the list of the
    inbox is not told: it still shows every event it showed, the deleted
    one included. *)
Theorem viewer_delete_leaves_the_inbox_list (st : Home.State)
    (selected : WebhookEvent) (w : World) :
  Home.selectedEvent st = Some selected ->
  let uuid := event_uuid selected in
  let eventId := event_id selected in
  outage w (ZRANGE (events_key uuid)) = false ->
  outage w (ZREM (events_key uuid)) = false ->
  Forall (fun entry => canonical_event (snd entry)) (log_of uuid w) ->
  (forall e1 e2, e1 ∈ log_of uuid w -> e2 ∈ log_of uuid w ->
                 has_id eventId (snd e1) = true ->
                 has_id eventId (snd e2) = true -> snd e1 = snd e2) ->
  let '(r, w') := Home.handleDelete st w in
  exists st',
    r = Returned st' /\
    Home.selectedEvent st' = None /\
    events (Home.inbox st') = events (Home.inbox st) /\
    (forall entry, entry ∈ log_of uuid w' -> has_id eventId (snd entry) = false).
Proof.
  intros Hsel uuid eventId Hrange Hrem Hall Huniq.
  unfold Home.handleDelete. rewrite Hsel. fold uuid eventId. unfold bind.
  destruct (deleteWebhookEvent_returns uuid eventId w) as [b Hb].
  pose proof (deleteWebhookEvent_leaves_no_match uuid eventId w
                Hrange Hrem Hall Huniq) as [_ Hlog].
  destruct (deleteWebhookEvent uuid eventId w) as [r w1].
  simpl in Hb, Hlog. subst r. unfold ret. eexists. split; [reflexivity|].
  repeat split. intros entry He. now apply Hlog.
Qed.

(** X18.  A push for the endpoint of the page is put at the head of the
    list and is made known exactly once: by a toast when the document is
    visible and has the focus, by the unread count otherwise.  A push for
    another endpoint changes nothing. *)
Theorem push_is_announced_once (doc : Document) (data : WebhookEvent)
    (st : Home.State) :
  let st' := Home.onData doc data st in
  if String.eqb (event_uuid data) (Home.page_uuid st) then
    events (Home.inbox st') = data :: events (Home.inbox st) /\
    (if negb (hidden doc) && hasFocus doc
     then Home.toasts st' =
            (Home.toasts st ++
             [(event_method data ++ " webhook received")%string])%list /\
          Home.unreadCount st' = Home.unreadCount st
     else Home.toasts st' = Home.toasts st /\
          Home.unreadCount st' = S (Home.unreadCount st)) /\
    Home.selectedEvent st' = Home.selectedEvent st
  else st' = st.
Proof.
  unfold Home.onData, Home.onNewEvent.
  destruct (String.eqb (event_uuid data) (Home.page_uuid st)); [|reflexivity].
  destruct doc as [[|] [|]]; cbn; repeat split; lia.
Qed.

(** X19.  The identifier of the endpoint is drawn once: when the page is
    opened again it finds the identifier it has stored and uses it,
    whatever would be drawn then, and it leaves the rest of the local
    storage alone. *)
Theorem endpoint_identifier_persists (fresh again : string) (ls : LocalStorage)
    (st st2 : Home.State) :
  JsString.nonempty fresh = true ->
  let '(ls1, st1) := Home.get_or_create_uuid fresh ls st in
  JsString.nonempty (Home.page_uuid st1) = true /\
  getItem Home.STORAGE_KEY ls1 = Some (Home.page_uuid st1) /\
  Home.get_or_create_uuid again ls1 st2 = (ls1, Home.setUuid (Home.page_uuid st1) st2) /\
  (forall key, key <> Home.STORAGE_KEY -> getItem key ls1 = getItem key ls).
Proof.
  intros Hfresh. unfold Home.get_or_create_uuid, getItem, setItem.
  unfold LocalStorage in *.
  destruct (ls !! Home.STORAGE_KEY) as [stored|] eqn:Eget.
  - destruct (JsString.nonempty stored) eqn:Estored.
    + cbv beta iota zeta. cbn [Home.page_uuid Home.setUuid]. rewrite Eget, Estored. now repeat split.
    + cbv beta iota zeta. cbn [Home.page_uuid Home.setUuid]. rewrite lookup_insert_eq, Hfresh.
      repeat split. intros key Hne. now apply lookup_insert_ne.
  - cbv beta iota zeta. cbn [Home.page_uuid Home.setUuid]. rewrite lookup_insert_eq, Hfresh.
    repeat split. intros key Hne. now apply lookup_insert_ne.
Qed.

Lemma length_substring_0 (n : nat) (s : string) :
  String.length (String.substring 0 n s) = Nat.min n (String.length s).
Proof.
  revert s. induction n as [|n IH]; intros [|c s]; simpl; try reflexivity.
  now rewrite IH.
Qed.

Lemma substring_0_prefix (n : nat) (s : string) :
  JsString.is_prefix_of (String.substring 0 n s) s.
Proof.
  revert s. induction n as [|n IH]; intros [|c s]; simpl.
  - now exists EmptyString.
  - now exists (String c s).
  - now exists EmptyString.
  - destruct (IH s) as [post H]. exists post.
    change (String c s = String c (String.substring 0 n s ++ post)).
    now rewrite <- H.
Qed.

(** X20.  The preview of an event in the list is never longer than 50
    characters: it is [No body] when the body is falsy, and otherwise the
    first 50 characters of the body, taken as it is when it is a string
    and serialized when it is not. *)
Theorem preview_is_a_short_prefix (event : WebhookEvent) :
  let text :=
    match event_body event with
    | JStr raw => raw
    | other => JSON_stringify other
    end in
  (String.length (Home.getPreview event) <= 50)%nat /\
  if truthy (event_body event)
  then JsString.is_prefix_of (Home.getPreview event) text /\
       String.length (Home.getPreview event) = Nat.min 50 (String.length text)
  else Home.getPreview event = "No body".
Proof.
  unfold Home.getPreview.
  destruct (truthy (event_body event)).
  - destruct (event_body event);
      (split; [rewrite length_substring_0; lia|]);
      (split; [apply substring_0_prefix | apply length_substring_0]).
  - split; [simpl; lia | reflexivity].
Qed.

End HomeFacts.

(** ** The settings panel *)
Section SettingsPanelFacts.
Context `{rt : Runtime}.

Local Open Scope js_scope.

Lemma assoc_obj_delete {A : Type} (key k : string) (props : list (string * A)) :
  assoc k (SettingsPanel.obj_delete key props) =
  if String.eqb key k then None else assoc k props.
Proof.
  unfold SettingsPanel.obj_delete.
  induction props as [|[k0 v0] props IH]; simpl.
  - now destruct (String.eqb key k).
  - destruct (String.eqb_spec k0 key) as [->|Hne]; simpl.
    + rewrite IH. now destruct (String.eqb key k).
    + rewrite IH. destruct (String.eqb_spec k0 k) as [->|Hne'].
      * apply String.eqb_neq in Hne. rewrite String.eqb_sym in Hne.
        now rewrite Hne.
      * reflexivity.
Qed.

Lemma obj_delete_obj_set {A : Type} (key : string) (v : A)
    (props : list (string * A)) :
  SettingsPanel.obj_delete key (obj_set key v props) =
  SettingsPanel.obj_delete key props.
Proof.
  unfold SettingsPanel.obj_delete.
  induction props as [|[k0 v0] props IH]; simpl.
  - now rewrite String.eqb_refl.
  - destruct (String.eqb_spec k0 key) as [->|Hne]; simpl.
    + now rewrite !String.eqb_refl.
    + apply String.eqb_neq in Hne.
      destruct (goes_before key k0); simpl.
      * now rewrite String.eqb_refl, Hne.
      * now rewrite Hne, IH.
Qed.

Lemma obj_delete_absent {A : Type} (key : string) (props : list (string * A)) :
  key ∉ map fst props -> SettingsPanel.obj_delete key props = props.
Proof.
  unfold SettingsPanel.obj_delete. intros Hnot.
  apply forallb_filter_id, forallb_forall. intros [k0 v0] Hin.
  apply negb_true_iff, String.eqb_neq. simpl. intros ->.
  apply Hnot, list_elem_of_In, in_map_iff. now exists (key, v0).
Qed.

(** X21.  Adding a header in the panel needs a name and a value: with
    both, the header of that name gets the value and the other headers,
    the status and the body are kept; without one of them nothing
    changes.  Removing a header takes that name away and keeps the
    others. *)
Theorem panel_header_lookup (st : SettingsPanel.State) (key k : string) :
  let added := SettingsPanel.settings (SettingsPanel.addHeader st) in
  let removed := SettingsPanel.settings (SettingsPanel.removeHeader key st) in
  let current := SettingsPanel.settings st in
  let complete :=
    JsString.nonempty (SettingsPanel.headerKey st)
    && JsString.nonempty (SettingsPanel.headerValue st) in
  assoc k (responseHeaders added) =
    (if complete && String.eqb (SettingsPanel.headerKey st) k
     then Some (SettingsPanel.headerValue st)
     else assoc k (responseHeaders current)) /\
  (complete = false -> SettingsPanel.addHeader st = st) /\
  assoc k (responseHeaders removed) =
    (if String.eqb key k then None else assoc k (responseHeaders current)) /\
  responseStatus added = responseStatus current /\
  responseBody added = responseBody current /\
  responseStatus removed = responseStatus current /\
  responseBody removed = responseBody current.
Proof.
  unfold SettingsPanel.addHeader, SettingsPanel.removeHeader.
  destruct (JsString.nonempty (SettingsPanel.headerKey st)
            && JsString.nonempty (SettingsPanel.headerValue st)); cbn.
  - rewrite assoc_obj_set, assoc_obj_delete. repeat split. discriminate.
  - rewrite assoc_obj_delete. now repeat split.
Qed.

(** X22.  A header that is added and then removed leaves no trace: when
    no header of that name was there the settings are again what they
    were, and when one was there it is gone, as if it had been removed
    without the addition. *)
Theorem added_header_can_be_removed (st : SettingsPanel.State) :
  JsString.nonempty (SettingsPanel.headerKey st) = true ->
  JsString.nonempty (SettingsPanel.headerValue st) = true ->
  let key := SettingsPanel.headerKey st in
  let after := SettingsPanel.removeHeader key (SettingsPanel.addHeader st) in
  SettingsPanel.settings after =
    SettingsPanel.settings (SettingsPanel.removeHeader key st) /\
  (key ∉ map fst (responseHeaders (SettingsPanel.settings st)) ->
   SettingsPanel.settings after = SettingsPanel.settings st).
Proof.
  intros Hk Hv key after. subst after.
  unfold SettingsPanel.addHeader, SettingsPanel.removeHeader.
  rewrite Hk, Hv. cbn -[SettingsPanel.obj_delete obj_set]. fold key.
  rewrite obj_delete_obj_set.
  split; [reflexivity|]. intros Hnot. rewrite obj_delete_absent by exact Hnot.
  now destruct (SettingsPanel.settings st).
Qed.

(** X23.  Saving in the panel always ends with the mark [saved] set and
    with the settings written to the local storage, whether or not the
    server has taken them: the server holds them only when the page has an
    endpoint and the write went through. *)
Theorem panel_save_outcome (uuid : string) (ls : LocalStorage)
    (st : SettingsPanel.State) (w : World) :
  let text := JSON_stringify (settings_object (SettingsPanel.settings st)) in
  let '(r, w') := SettingsPanel.saveSettings uuid ls st w in
  exists ls',
    r = Returned (ls', SettingsPanel.setSaved true st) /\
    getItem SettingsPanel.SETTINGS_KEY ls' = Some text /\
    (forall key, key <> SettingsPanel.SETTINGS_KEY -> getItem key ls' = getItem key ls) /\
    settings_text uuid w' =
      (if JsString.nonempty uuid && negb (outage w (SET (settings_key uuid)))
       then Some text
       else settings_text uuid w).
Proof.
  unfold SettingsPanel.saveSettings, bind.
  destruct (JsString.nonempty uuid); cbn [andb].
  - rewrite saveWebhookSettings_run.
    destruct (outage w (SET (settings_key uuid))); unfold ret; cbn [negb];
      eexists; (split; [reflexivity|]); unfold getItem, setItem, LocalStorage;
      (split; [apply lookup_insert_eq|]);
      (split; [intros key Hne; now apply lookup_insert_ne|]).
    + reflexivity.
    + unfold settings_text. cbn. apply lookup_insert_eq.
  - unfold ret. eexists; (split; [reflexivity|]); unfold getItem, setItem, LocalStorage.
    split; [apply lookup_insert_eq|].
    split; [intros key Hne; now apply lookup_insert_ne | reflexivity].
Qed.

(** X24.  After the settings of an endpoint were reset in the panel, a
    capture is answered with the status and the body of the answer given
    when there are no settings, and with the content type of JSON as its
    only header. *)
Theorem reset_settings_answer_as_default (uuid : string) (ls : LocalStorage)
    (st : SettingsPanel.State) (request : Request) (timestamp : Z)
    (eventId : string) (w : World) :
  JsString.nonempty uuid = true ->
  outage w (SET (settings_key uuid)) = false ->
  outage w (GET (settings_key uuid)) = false ->
  storage_up w uuid = true ->
  channel_up w uuid = true ->
  JSON_parse (JSON_stringify (settings_object SettingsPanel.DEFAULT_SETTINGS)) =
    Some (settings_object SettingsPanel.DEFAULT_SETTINGS) ->
  JSON_parse SettingsPanel.default_body = body default_response ->
  let w1 := snd (SettingsPanel.resetSettings uuid ls st w) in
  exists r,
    fst (handleWebhook request uuid timestamp eventId w1) = Returned r /\
    status r = status default_response /\
    body r = body default_response /\
    response_headers r = [("Content-Type", JStr "application/json")].
Proof.
  intros Hu Hset Hget Hs Hc Hround Hbody w1.
  assert (Hw1 : w1 = with_store
                       (with_text (settings_key uuid)
                          (JSON_stringify (settings_object SettingsPanel.DEFAULT_SETTINGS))
                          (store w)) w).
  { subst w1. unfold SettingsPanel.resetSettings, bind. rewrite Hu.
    rewrite saveWebhookSettings_run, Hset. reflexivity. }
  assert (Hg : getWebhookSettings uuid w1 =
               (Returned (settings_object SettingsPanel.DEFAULT_SETTINGS), w1)).
  { apply (getWebhookSettings_object uuid
             (JSON_stringify (settings_object SettingsPanel.DEFAULT_SETTINGS))).
    - now rewrite Hw1.
    - rewrite Hw1. unfold settings_text. cbn. apply lookup_insert_eq.
    - exact Hround. }
  pose proof (handleWebhook_captured request uuid timestamp eventId w1
                (body_of request) (settings_object SettingsPanel.DEFAULT_SETTINGS))
    as H.
  destruct (handleWebhook request uuid timestamp eventId w1) as [r w2].
  destruct H as [Hr _].
  - rewrite Hw1. exact Hs.
  - rewrite Hw1. exact Hc.
  - apply parse_body_body_of.
  - now rewrite Hg.
  - cbn [fst]. rewrite Hr. unfold response_for, settings_object. cbn [truthy].
    rewrite (custom_response_accepted _ SettingsPanel.DEFAULT_SETTINGS);
      [| reflexivity | reflexivity | reflexivity | cbn; lia
       | reflexivity | reflexivity].
    eexists. split; [reflexivity|].
    cbn [status body response_headers SettingsPanel.DEFAULT_SETTINGS
         responseBody responseHeaders string_props map].
    rewrite Hbody. now repeat split.
Qed.

End SettingsPanelFacts.

(** ** What the event records of the request *)
Section EventFacts.

Lemma assoc_assign_each (name : string) (entries : list (string * string)) :
  assoc name (assign_each [] (string_props entries)) =
  if String.eqb "__proto__" name then None
  else JStr <$> assoc name (rev entries).
Proof.
  unfold assign_each. rewrite assoc_obj_assign. cbn [assoc].
  rewrite <- filter_rev.
  pose proof (assoc_obj_delete "__proto__" name (rev (string_props entries))) as H.
  unfold SettingsPanel.obj_delete in H. rewrite H.
  rewrite rev_string_props, assoc_string_props.
  destruct (String.eqb "__proto__" name); [reflexivity|].
  now destruct (assoc name (rev entries)).
Qed.

(** X25.  The event records the headers and the query parameters of the
    request by name: a name that comes several times is recorded once,
    with the value of its last entry, and a parameter named [__proto__]
    is not recorded at all. *)
Theorem event_records_last_value (request : Request) (uuid : string) (b : json)
    (timestamp : Z) (eventId name : string) :
  let event := webhook_event request uuid b timestamp eventId in
  let last_of entries :=
    if String.eqb "__proto__" name then None
    else JStr <$> assoc name (rev entries) in
  exists recorded_headers recorded_query,
    get_prop event "headers" = Some (JObj recorded_headers) /\
    get_prop event "query" = Some (JObj recorded_query) /\
    assoc name recorded_headers = last_of (headers request) /\
    assoc name recorded_query = last_of (searchParams request).
Proof.
  intros event last_of. eexists _, _.
  split; [reflexivity|]. split; [reflexivity|].
  split; apply assoc_assign_each.
Qed.

End EventFacts.

Section InvariantFacts.
Context `{rt : Runtime}.

Lemma sublist_elem_of' {A : Type} (l1 l2 : list A) (x : A) :
  sublist l1 l2 -> x ∈ l1 -> x ∈ l2.
Proof.
  induction 1 as [|y l1 l2 _ IH|y l1 l2 _ IH]; intros Hx.
  - exact Hx.
  - apply elem_of_cons in Hx as [->|Hx]; [left | right; auto].
  - right. auto.
Qed.

Lemma StronglySorted_sublist {A : Type} (R : relation A) (l1 l2 : list A) :
  sublist l1 l2 -> StronglySorted R l2 -> StronglySorted R l1.
Proof.
  induction 1 as [|y l1 l2 Hsub IH|y l1 l2 Hsub IH]; intros Hs.
  - constructor.
  - apply StronglySorted_inv in Hs as [Hs Hall]. constructor; [auto|].
    apply Forall_forall. intros x Hx. rewrite Forall_forall in Hall.
    apply Hall. eapply sublist_elem_of'; eassumption.
  - apply StronglySorted_inv in Hs as [Hs _]. auto.
Qed.

Lemma log_invariant_sublist (l1 l2 : zset) :
  sublist l1 l2 -> log_invariant l2 -> log_invariant l1.
Proof.
  intros Hsub [Hwf Hnd]. split.
  - eapply StronglySorted_sublist; eassumption.
  - eapply sublist_NoDup; [exact Hnd|]. now apply (fmap_sublist snd).
Qed.

Lemma zrem_member_gone (member : string) (l : zset) :
  member ∉ map snd (zrem member l).
Proof.
  unfold zrem. intros H. apply list_elem_of_In, in_map_iff in H as (e & He & Hin).
  apply filter_In in Hin as [_ Hne].
  apply negb_true_iff, String.eqb_neq in Hne. contradiction.
Qed.

Lemma log_invariant_zadd (score : Z) (member : string) (l : zset) :
  log_invariant l -> log_invariant (zadd score member l).
Proof.
  intros Hinv.
  destruct (log_invariant_sublist _ _ (zrem_sublist member l) Hinv) as [Hwf Hnd].
  pose proof (zrem_member_gone member l) as Hgone.
  unfold zadd. split.
  - now apply insert_entry_well_formed.
  - rewrite (Permutation_map snd (insert_entry_perm (score, member) _)).
    simpl. now apply NoDup_cons.
Qed.

Lemma zremrangebyrank_sublist (start stop : Z) (l : zset) :
  sublist (zremrangebyrank start stop l) l.
Proof.
  unfold zremrangebyrank. destruct (rank_range (zcard l) start stop) as [from size].
  rewrite <- (take_drop from l) at 3.
  apply sublist_app; [reflexivity|].
  rewrite <- drop_drop. apply sublist_drop.
Qed.

(** X26.  The server keeps every log as a sorted set: whatever a capture,
    a deletion or a deletion of all does to the log of an endpoint, and
    whichever of their calls fail, the entries stay in rank order and no
    member is there twice. *)
Theorem actions_keep_the_log_sorted (uuid : string) (w : World) :
  log_invariant (log_of uuid w) ->
  (forall request timestamp eventId,
      log_invariant
        (log_of uuid (snd (handleWebhook request uuid timestamp eventId w)))) /\
  (forall eventId,
      log_invariant (log_of uuid (snd (deleteWebhookEvent uuid eventId w)))) /\
  log_invariant (log_of uuid (snd (deleteAllWebhookEvents uuid w))).
Proof.
  intros Hinv. split; [|split].
  - intros request timestamp eventId.
    destruct (handleWebhook_world request uuid timestamp eventId w) as (Hlog & _).
    rewrite Hlog. clear Hlog.
    set (added := zadd _ _ _).
    assert (Hadded : log_invariant added) by now apply log_invariant_zadd.
    destruct (outage w (ZADD _)); [exact Hinv|].
    destruct (outage w (ZCARD _)); [exact Hadded|].
    destruct (_ && _); [|exact Hadded].
    eapply log_invariant_sublist; [apply zremrangebyrank_sublist | exact Hadded].
  - intros eventId.
    pose proof (deleteWebhookEvent_log_sublist uuid eventId w) as Hsub.
    eapply log_invariant_sublist; eassumption.
  - rewrite deleteAllWebhookEvents_run.
    destruct (outage w (DEL _)); [exact Hinv|].
    unfold log_of. cbn [snd store with_store]. rewrite zset_at_without_zset.
    split; constructor.
Qed.

End InvariantFacts.

(** ** The unread count of the page *)
Section UnreadFacts.

Lemma onData_page_uuid (doc : Document) (data : WebhookEvent) (st : Home.State) :
  Home.page_uuid (Home.onData doc data st) = Home.page_uuid st.
Proof.
  unfold Home.onData, Home.onNewEvent.
  destruct (String.eqb _ _); [|reflexivity].
  now destruct (hidden doc), (hasFocus doc).
Qed.

(** X27.  While the document is hidden or without focus, the unread count
    grows by one for each push of the page's endpoint and by nothing for
    the others, no toast is shown, and the pushes are listed newest
    first.  Focusing the window, making the document visible or selecting
    an event sets the count to 0 and the title back to [eHook.app]. *)
Theorem unread_count_counts_pushes_while_away (doc : Document)
    (pushes : list WebhookEvent) (selected : WebhookEvent) (st : Home.State) :
  hidden doc || negb (hasFocus doc) = true ->
  let st' := fold_left (fun s data => Home.onData doc data s) pushes st in
  let mine := accepted (Home.page_uuid st) pushes in
  Home.unreadCount st' = (Home.unreadCount st + length mine)%nat /\
  Home.toasts st' = Home.toasts st /\
  events (Home.inbox st') = (rev mine ++ events (Home.inbox st))%list /\
  (forall back,
      back = Home.handleFocus st' \/
      back = Home.handleVisibilityChange {| hidden := false; hasFocus := false |} st' \/
      back = Home.onSelectEvent selected st' ->
      Home.unreadCount back = 0%nat /\ Home.document_title back = "eHook.app").
Proof.
  intros Haway st' mine. subst st' mine.
  split; [|split; [|split]].
  - revert st. induction pushes as [|data pushes IH]; intros st; simpl; [lia|].
    rewrite IH, onData_page_uuid. unfold Home.onData, Home.onNewEvent.
    rewrite Haway.
    destruct (String.eqb (event_uuid data) (Home.page_uuid st)); simpl.
    + destruct doc as [[|] [|]]; try discriminate; simpl; lia.
    + lia.
  - revert st. induction pushes as [|data pushes IH]; intros st; simpl; [reflexivity|].
    rewrite IH. unfold Home.onData, Home.onNewEvent. rewrite Haway.
    destruct (String.eqb (event_uuid data) (Home.page_uuid st)); [|reflexivity].
    destruct doc as [[|] [|]]; try discriminate; reflexivity.
  - revert st. induction pushes as [|data pushes IH]; intros st; simpl; [reflexivity|].
    rewrite IH, onData_page_uuid. unfold Home.onData, Home.onNewEvent.
    rewrite Haway.
    destruct (String.eqb (event_uuid data) (Home.page_uuid st)); simpl.
    + rewrite <- app_assoc.
      destruct doc as [[|] [|]]; try discriminate; reflexivity.
    + reflexivity.
  - intros back [->|[->| ->]]; split; reflexivity.
Qed.

End UnreadFacts.

(** ** The further properties on the scenarios *)

(** X2 where the count fails: the sender is told 500 and nothing is
    published, yet the event is in the log. *)
Lemma failed_capture_is_not_published_witness :
  let w' := snd (handleWebhook Scenarios.post_json "abc" 1700000000000 "E1"
                   Cases.count_down) in
  published w' = [] /\
  console w' = ["Error processing webhook: network error"] /\
  map fst (log_of "abc" w') = [1700000000000].
Proof.
  pose proof (failed_capture_is_not_published Scenarios.post_json "abc"
                1700000000000 "E1" Cases.count_down) as H.
  cbv zeta in H. destruct H as (Hpub & Hcon & Hlog).
  - vm_compute. reflexivity.
  - split; [exact Hpub|]. split; [exact Hcon|].
    rewrite Hlog. vm_compute. reflexivity.
Defined.

(** X3 at a JSON [POST] to [abc] in the empty world. *)
Lemma capture_publishes_the_stored_event_witness :
  let w' := snd (handleWebhook Scenarios.post_json "abc" 1700000000000 "E1"
                   empty_world) in
  exists message,
    published w' = [message] /\
    msg_channel message = "webhook:abc" /\
    get_prop (msg_data message) "id" = Some (JStr "E1") /\
    log_of "abc" w' = [(1700000000000, JSON_stringify (msg_data message))].
Proof.
  destruct (capture_publishes_the_stored_event Scenarios.post_json "abc"
              1700000000000 "E1" empty_world)
    as (message & Hpub & Hch & _ & Hdata & Hlog).
  - vm_compute. reflexivity.
  - exists message. split; [exact Hpub|]. split; [exact Hch|].
    split; [now rewrite Hdata|]. rewrite Hlog. rewrite Hdata. vm_compute. reflexivity.
Defined.

(** X4 at a capture for [abc] in the world of two captures for [abc],
    seen from endpoint [xyz]. *)
Lemma capture_leaves_other_endpoints_witness :
  let w := Scenarios.two_captured in
  let w' := snd (handleWebhook Scenarios.post_json "abc" 1700000000005 "E5" w) in
  log_of "xyz" w' = log_of "xyz" w /\
  (forall u, settings_text u w' = settings_text u w).
Proof.
  destruct (capture_leaves_other_endpoints Scenarios.post_json "abc" "xyz"
              1700000000005 "E5" Scenarios.two_captured) as (Hlog & Hset & _).
  - discriminate.
  - split; [exact Hlog | exact Hset].
Defined.

(** X5 at a third capture for [abc]. *)
Lemma capture_bounds_the_log_witness :
  let w' := snd (handleWebhook Scenarios.post_json "abc" 1700000000005 "E5"
                   Scenarios.two_captured) in
  (1 <= length (log_of "abc" w') <= 50)%nat.
Proof.
  apply (capture_bounds_the_log Scenarios.post_json "abc" 1700000000005 "E5"
           Scenarios.two_captured).
  vm_compute. reflexivity.
Defined.

(** X6 at a third capture for [abc]: its event comes first in the
    history, before the two events that were there. *)
Lemma captured_event_heads_the_history_witness :
  let w := Scenarios.two_captured in
  let w' := snd (handleWebhook Scenarios.post_json "abc" 1700000000005 "E5" w) in
  exists before,
    fst (getWebhookEvents "abc" w) = Returned before /\
    fst (getWebhookEvents "abc" w') =
      Returned (webhook_event Scenarios.post_json "abc" (JObj [("x", JNum 1)])
                  1700000000005 "E5" :: take 49 before).
Proof.
  destruct (captured_event_heads_the_history Scenarios.post_json "abc"
              1700000000005 "E5" Scenarios.two_captured)
    as (before & Hbefore & Hafter).
  - vm_compute. reflexivity.
  - vm_compute. reflexivity.
  - vm_compute. reflexivity.
  - exact two_captured_canonical.
  - apply Forall_forall. rewrite two_captured_log.
    apply (bool_decide_unpack _). vm_compute. exact I.
  - rewrite two_captured_log. apply (bool_decide_unpack _). vm_compute. exact I.
  - exists before. split; [exact Hbefore|]. exact Hafter.
Defined.

(** X8 at three saves: two for [abc] and, between them, one for [xyz]. *)
Lemma last_saved_settings_are_read_witness :
  let saves := [("abc", SettingsPanel.DEFAULT_SETTINGS);
                ("xyz", SettingsPanel.DEFAULT_SETTINGS);
                ("abc", Scenarios.created_settings)] in
  fst (getWebhookSettings "abc" (run_saves saves empty_world)) =
    Returned (settings_object Scenarios.created_settings).
Proof.
  apply (last_saved_settings_are_read "abc"
           [("abc", SettingsPanel.DEFAULT_SETTINGS);
            ("xyz", SettingsPanel.DEFAULT_SETTINGS);
            ("abc", Scenarios.created_settings)]
           Scenarios.created_settings empty_world).
  - intros save _. reflexivity.
  - reflexivity.
  - reflexivity.
  - vm_compute. reflexivity.
Defined.

(** X11 at a log whose only member is the text [not json]. *)
Lemma unreadable_history_is_empty_witness :
  fst (getWebhookEvents "abc" Cases.unreadable_log) = Returned [] /\
  log_of "abc" Cases.unreadable_log = [(1700000000000, "not json")].
Proof.
  destruct (unreadable_history_is_empty "abc" Cases.unreadable_log)
    as [failure H].
  - right. exists (1700000000000, "not json"). split.
    + apply (bool_decide_unpack _). vm_compute. exact I.
    + vm_compute. reflexivity.
  - split; [now rewrite H | vm_compute; reflexivity].
Defined.

(** X14 at the world of two captures: [E0] deleted, then deleted again. *)
Lemma deleting_again_finds_nothing_witness :
  let w' := snd (deleteWebhookEvent "abc" "E0" Scenarios.two_captured) in
  deleteWebhookEvent "abc" "E0" w' = (Returned false, w').
Proof.
  apply (deleting_again_finds_nothing "abc" "E0" Scenarios.two_captured).
  - vm_compute. reflexivity.
  - vm_compute. reflexivity.
  - exact two_captured_canonical.
  - exact two_captured_unique_E0.
Defined.

(** X17 at the page that shows and selects [E0] of the two captured
    events. *)
Lemma viewer_delete_leaves_the_inbox_list_witness :
  let '(r, w') := Home.handleDelete Cases.viewing_first Scenarios.two_captured in
  exists st',
    r = Returned st' /\
    Home.selectedEvent st' = None /\
    events (Home.inbox st') = [Cases.first_event] /\
    map fst (log_of "abc" Scenarios.two_captured) = [1700000000000; 1700000000001] /\
    (forall entry, entry ∈ log_of "abc" w' -> has_id "E0" (snd entry) = false).
Proof.
  pose proof (viewer_delete_leaves_the_inbox_list Cases.viewing_first
                Cases.first_event Scenarios.two_captured eq_refl) as H.
  cbv zeta in H.
  change (event_uuid Cases.first_event) with "abc" in H.
  change (event_id Cases.first_event) with "E0" in H.
  specialize (H eq_refl eq_refl two_captured_canonical two_captured_unique_E0).
  destruct (Home.handleDelete Cases.viewing_first Scenarios.two_captured) as [r w'].
  destruct H as (st' & Hr & Hsel & Hev & Hlog).
  exists st'. split; [exact Hr|]. split; [exact Hsel|]. split; [exact Hev|].
  split; [vm_compute; reflexivity | exact Hlog].
Defined.

(** X19 at a first visit with an empty local storage. *)
Lemma endpoint_identifier_persists_witness :
  let '(ls1, st1) :=
    Home.get_or_create_uuid "1b4e28ba" ∅ Home.initial_state in
  Home.page_uuid st1 = "1b4e28ba" /\
  Home.get_or_create_uuid "9f3c2a10" ls1 Home.initial_state =
    (ls1, Home.setUuid "1b4e28ba" Home.initial_state).
Proof.
  pose proof (endpoint_identifier_persists "1b4e28ba" "9f3c2a10" ∅
                Home.initial_state Home.initial_state eq_refl) as H.
  destruct (Home.get_or_create_uuid "1b4e28ba" ∅ Home.initial_state)
    as [ls1 st1] eqn:E.
  destruct H as (_ & _ & Hagain & _).
  assert (Hu : Home.page_uuid st1 = "1b4e28ba").
  { apply (f_equal snd) in E. simpl in E. now rewrite <- E. }
  split; [exact Hu|]. now rewrite <- Hu.
Defined.

(** X22 at the header [X-Test: 1] added to the default settings and
    removed again. *)
Lemma added_header_can_be_removed_witness :
  let after :=
    SettingsPanel.removeHeader "X-Test" (SettingsPanel.addHeader Cases.typing_header) in
  responseHeaders (SettingsPanel.settings (SettingsPanel.addHeader Cases.typing_header))
    = [("X-Test", "1")] /\
  SettingsPanel.settings after = SettingsPanel.DEFAULT_SETTINGS.
Proof.
  destruct (added_header_can_be_removed Cases.typing_header eq_refl eq_refl)
    as [_ H].
  split; [reflexivity|]. apply H. apply (bool_decide_unpack _). vm_compute. exact I.
Defined.

(** X24 at endpoint [abc], reset in the empty world, then a JSON [POST]. *)
Lemma reset_settings_answer_as_default_witness :
  let w1 := snd (SettingsPanel.resetSettings "abc" ∅ SettingsPanel.initial_state
                   empty_world) in
  exists r,
    fst (handleWebhook Scenarios.post_json "abc" 1700000000000 "E1" w1) = Returned r /\
    status r = Some (JNum 200) /\
    body r = Some (JObj [("success", JBool true); ("message", JStr "Webhook received")]) /\
    response_headers r = [("Content-Type", JStr "application/json")].
Proof.
  apply (reset_settings_answer_as_default "abc" ∅ SettingsPanel.initial_state
           Scenarios.post_json 1700000000000 "E1" empty_world).
  - reflexivity.
  - reflexivity.
  - reflexivity.
  - reflexivity.
  - reflexivity.
  - vm_compute. reflexivity.
  - vm_compute. reflexivity.
Defined.

(** X26 at the world of two captures: a third capture and the deletion of
    [E0] leave a sorted log. *)
Lemma actions_keep_the_log_sorted_witness :
  let w := Scenarios.two_captured in
  log_invariant (log_of "abc" w) /\
  log_invariant
    (log_of "abc"
       (snd (handleWebhook Scenarios.post_json "abc" 1700000000005 "E5" w))) /\
  log_invariant (log_of "abc" (snd (deleteWebhookEvent "abc" "E0" w))).
Proof.
  assert (Hinv : log_invariant (log_of "abc" Scenarios.two_captured)).
  { rewrite two_captured_log. split.
    - repeat constructor; vm_compute; reflexivity.
    - apply (bool_decide_unpack _). vm_compute. exact I. }
  destruct (actions_keep_the_log_sorted "abc" Scenarios.two_captured Hinv)
    as (Hcapture & Hdelete & _).
  split; [exact Hinv|]. split; [apply Hcapture | apply Hdelete].
Defined.

(** X27 at two pushes that arrive while the document is hidden, one of
    them for another endpoint. *)
Lemma unread_count_counts_pushes_while_away_witness :
  let doc := {| hidden := true; hasFocus := false |} in
  let other :=
    {| event_id := "E9"; event_uuid := "xyz"; event_method := "GET";
       event_url := "https://ehook.app/api/webhook/xyz";
       event_headers := []; event_body := JNull; event_query := [];
       event_timestamp := 1700000000009 |} in
  let st' :=
    fold_left (fun s data => Home.onData doc data s) [other; Cases.first_event]
              Cases.viewing_first in
  Home.unreadCount st' = 1%nat /\
  Home.toasts st' = [] /\
  Home.document_title st' = "(1) eHook.app" /\
  Home.document_title (Home.handleFocus st') = "eHook.app".
Proof.
  intros doc other st'.
  destruct (unread_count_counts_pushes_while_away doc [other; Cases.first_event]
              Cases.first_event Cases.viewing_first eq_refl)
    as (Hcount & Htoasts & _ & Hback).
  fold st' in Hcount, Htoasts, Hback.
  split; [exact Hcount|]. split; [exact Htoasts|].
  split; [vm_compute; reflexivity|]. apply Hback. now left.
Defined.
